(** * Naukri jobs scraper: extraction, enrichment and pagination pipeline

    A shallow embedding of the decision logic of [src/main.js] (and of the
    HTTP-based detail fetcher kept in the older variant of the same file)
    together with the properties stated about it.

    Conventions.
    - Everything the program obtains from the outside world (rendered
      documents, DOM query results, HTTP responses) is an explicit input of
      the embedded function.
    - JavaScript strings are [string]; an absent / [null] / [undefined]
      string-valued property is [None].
    - JavaScript numbers are binary64 values ([PrimFloat.float]); page
      numbers and counters, which stay small integers, are in [Z].
    - A JavaScript exception is an explicit result ([None] or [Throw]). *)

From Stdlib Require Import ZArith Lia String Ascii List Bool.
From Stdlib Require Floats.
From stdpp Require Import base option list gmap strings sets pretty.

Set Warnings "-clear-no-such-hyp,-register-all".

Local Open Scope string_scope.
Local Open Scope list_scope.
Local Open Scope Z_scope.

(** ** JavaScript string idioms *)

Module Js.

(** [!!s] for a string: the empty string is the only falsy string. *)
Definition truthy (s : string) : bool := negb (String.eqb s "").

(** [!!v] for a property that holds a string, [null] or [undefined]. *)
Definition truthyO (v : option string) : bool :=
  match v with
  | Some s => truthy s
  | None => false
  end.

(** [a || b] where [a] may be [null] and [b] is a string. *)
Definition or_else (a : option string) (b : string) : string :=
  match a with
  | Some s => if truthy s then s else b
  | None => b
  end.

(** [a || b] where both sides may be [null] / [undefined]. *)
Definition or_elseO (a b : option string) : option string :=
  if truthyO a then a else b.

(** [Math.ceil(a / b)] for integers [a] and [b > 0]. *)
Definition ceil_div (a b : Z) : Z := - ((- a) / b).

(** Characters. *)
Definition isDigit (c : ascii) : bool :=
  let n := nat_of_ascii c in (48 <=? n)%nat && (n <=? 57)%nat.

(** ASCII white space: tab, line feed, vertical tab, form feed, carriage
    return, space. *)
Definition isSpace (c : ascii) : bool :=
  let n := nat_of_ascii c in
  ((9 <=? n)%nat && (n <=? 13)%nat) || (n =? 32)%nat.

Definition digitValue (c : ascii) : Z := Z.of_nat (nat_of_ascii c) - 48.

(** The value of a run of decimal digits, most significant first. *)
Definition digitsValue (ds : list ascii) : Z :=
  fold_left (fun acc c => 10 * acc + digitValue c) ds 0.

Fixpoint takeWhile {A} (p : A -> bool) (l : list A) : list A :=
  match l with
  | x :: r => if p x then x :: takeWhile p r else []
  | [] => []
  end.

Fixpoint dropWhile {A} (p : A -> bool) (l : list A) : list A :=
  match l with
  | x :: r => if p x then dropWhile p r else l
  | [] => []
  end.

(** The integer held by the number nearest to the integer [n >= 0]: [n]
    itself below 2^53; beyond, an integer of [b] bits is kept to its 53
    leading bits, that is to a multiple of [2^(b - 53)], the nearest one,
    and of two equally near the even multiple.  [None]: the nearest number
    is [Infinity]. *)
Definition nearestNumber (n : Z) : option Z :=
  if n <? 2 ^ 53 then Some n
  else
    let e := Z.log2 n - 52 in
    let q := n / 2 ^ e in
    let r := n mod 2 ^ e in
    let half := 2 ^ (e - 1) in
    let q' :=
      if r <? half then q
      else if half <? r then q + 1
      else if Z.even q then q else q + 1 in
    if q' * 2 ^ e <? 2 ^ 1024 then Some (q' * 2 ^ e) else None.

(** [parseInt(s, 10)] when it is a finite number; [None] is [NaN] or an
    infinity, which the callers treat alike ([Number.isFinite]). *)
Definition parseInt (s : string) : option Z :=
  let cs := dropWhile isSpace (list_ascii_of_string s) in
  let '(sign, cs) :=
    match cs with
    | "-"%char :: r => (-1, r)
    | "+"%char :: r => (1, r)
    | _ => (1, cs)
    end in
  match takeWhile isDigit cs with
  | [] => None
  | ds => option_map (Z.mul sign) (nearestNumber (digitsValue ds))
  end.

(** [s.startsWith(p)] and [s.includes(p)]. *)
Fixpoint startsWithL (p s : list ascii) : bool :=
  match p, s with
  | [], _ => true
  | a :: p', b :: s' => Ascii.eqb a b && startsWithL p' s'
  | _ :: _, [] => false
  end.

Fixpoint includesL (p s : list ascii) : bool :=
  startsWithL p s ||
  match s with
  | [] => false
  | _ :: s' => includesL p s'
  end.

Definition startsWith (s p : string) : bool :=
  startsWithL (list_ascii_of_string p) (list_ascii_of_string s).

Definition includes (s p : string) : bool :=
  includesL (list_ascii_of_string p) (list_ascii_of_string s).

(** [s.replace(/\/$/, '')]. *)
Definition stripTrailingSlash (s : string) : string :=
  match rev (list_ascii_of_string s) with
  | "/"%char :: r => string_of_list_ascii (rev r)
  | _ => s
  end.

(** [s.match(/-(\d+)$/)]: the text before the match and the captured digits. *)
Definition matchPageSuffix (s : string) : option (string * string) :=
  let r := rev (list_ascii_of_string s) in
  match takeWhile isDigit r, dropWhile isDigit r with
  | (_ :: _) as ds, "-"%char :: before =>
      Some (string_of_list_ascii (rev before), string_of_list_ascii (rev ds))
  | _, _ => None
  end.

(** [s.trim()] (ASCII white space). *)
Definition trim (s : string) : string :=
  string_of_list_ascii
    (rev (dropWhile isSpace (rev (dropWhile isSpace (list_ascii_of_string s))))).

(** The pieces joined by a double-quote character: [dq ["a["; "x"; "]"]] is
    the text a[ quote x quote ]. *)
Definition dq (pieces : list string) : string :=
  String.concat (String (ascii_of_nat 34) EmptyString) pieces.

(** [s.toLowerCase()] (ASCII letters). *)
Definition lowerChar (c : ascii) : ascii :=
  let n := nat_of_ascii c in
  if (65 <=? n)%nat && (n <=? 90)%nat then ascii_of_nat (n + 32) else c.

Definition toLowerCase (s : string) : string :=
  string_of_list_ascii (map lowerChar (list_ascii_of_string s)).

End Js.

(** ** The data model *)

(** [JobRecord]: the object literal built by the extractors.  [tags] and
    [jobId] are only set by enrichment. *)
Module Job.
Record t := mk {
  title : string;
  company : string;
  location : string;
  salary : string;
  experience : string;
  jobType : string;
  postedDate : string;
  descriptionHtml : string;
  descriptionText : string;
  url : string;
  tags : option string;
  jobId : option string;
  scrapedAt : string
}.
End Job.

(** What [fetchFullDescription] resolves to. *)
Module FullDesc.
Record t := mk {
  descriptionHtml : string;
  descriptionText : string;
  experience : option string;
  salary : option string;
  jobType : option string;
  title : option string;
  company : option string;
  location : option string;
  postedDate : option string;
  tags : option string;
  jobId : option string
}.
End FullDesc.

(** [{ blocked: true }], [null], or a description object. *)
Inductive FetchResult :=
| Blocked
| NoContent
| Described (d : FullDesc.t).


(** ** JavaScript numbers *)

Module Number.
Import PrimFloat FloatOps SpecFloat.

(** A number is an IEEE 754 binary64 value; the arithmetic of the program
    ([/], [*], comparisons) is the arithmetic of these values. *)
Definition isNaN (x : float) : bool := PrimFloat.is_nan x.

(** [Number.isFinite(x)]. *)
Definition isFinite (x : float) : bool := PrimFloat.is_finite x.

(** [!!x]: zero (of either sign) and [NaN] are the falsy numbers. *)
Definition truthy (x : float) : bool :=
  negb (PrimFloat.is_zero x || PrimFloat.is_nan x).

(** The number nearest to the integer [n] ([n] itself when its size is at
    most 2^53). *)
Definition ofZ (n : Z) : float := SF2Prim (binary_normalize prec emax n 0 false).

(** [Math.round(x)]: the integer nearest to [x], the upper one of two
    equally near; [x] itself when it is an integer, a zero, an infinity or
    [NaN].  A finite [x] is [±m * 2^e]: it is an integer when [0 <= e], and
    otherwise the result is [floor(x + 1/2)], computed exactly, with the
    sign of [x] when that is zero. *)
Definition round (x : float) : float :=
  match Prim2SF x with
  | S754_finite s m e =>
      if 0 <=? e then x
      else
        let d := 2 ^ (- e) in
        let n := if s then Z.neg m else Z.pos m in
        let k := (2 * n + d) / (2 * d) in
        if k =? 0 then (if s then PrimFloat.neg_zero else PrimFloat.zero)
        else ofZ k
  | _ => x
  end.

(** [Math.max(a, b)]: [NaN] when either is, [+0] above [-0]. *)
Definition max (a b : float) : float :=
  if PrimFloat.is_nan a || PrimFloat.is_nan b then PrimFloat.nan
  else if PrimFloat.ltb a b then b
  else if PrimFloat.ltb b a then a
  else if PrimFloat.get_sign a then b else a.

(** *** [Number.prototype.toString]

    A finite number above zero is [m * 2^e].  The digits printed for it
    are those of the integer [s] with the fewest digits [k] such that
    [s * 10^(n-k)] is read back as the same number, the nearest to it when
    there are several. *)

(** [10^p] and [2^p] as fractions. *)
Definition pow10 (p : Z) : Z * Z := if 0 <=? p then (10 ^ p, 1) else (1, 10 ^ (- p)).
Definition pow2 (p : Z) : Z * Z := if 0 <=? p then (2 ^ p, 1) else (1, 2 ^ (- p)).

(** Comparison of two fractions with positive denominators. *)
Definition compareQ (a b : Z * Z) : comparison :=
  Z.compare (fst a * snd b) (fst b * snd a).

Definition scaleQ (c : Z) (a : Z * Z) : Z * Z := (c * fst a, snd a).

Section Shortest.
Variables (m e : Z).

(** [s * 10^p] and [c/4 * 2^e]. *)
Definition decimal (s p : Z) : Z * Z := scaleQ s (pow10 p).
Definition quarters (c : Z) : Z * Z := scaleQ c (pow2 (e - 2)).

(** The numbers read back as [m * 2^e] lie between the midpoints to its
    two neighbours; the lower neighbour is half as far when [m] is the
    smallest mantissa of its binade.  A midpoint is read as the number
    whose mantissa is even. *)
Definition lowerMid : Z * Z :=
  quarters (4 * m - (if (m =? 2 ^ 52) && (-1074 <? e) then 1 else 2)).
Definition upperMid : Z * Z := quarters (4 * m + 2).

Definition readsBack (s p : Z) : bool :=
  match compareQ lowerMid (decimal s p), compareQ (decimal s p) upperMid with
  | Lt, Lt => true
  | Eq, _ | _, Eq => Z.even m
  | _, _ => false
  end.

(** [n] with [10^(n-1) <= m * 2^e < 10^n]. *)
Definition hasMagnitude (n : Z) : bool :=
  match compareQ (decimal 1 (n - 1)) (quarters (4 * m)),
        compareQ (quarters (4 * m)) (decimal 1 n) with
  | (Lt | Eq), Lt => true
  | _, _ => false
  end.

Definition magnitude : Z :=
  let est := (Z.log2 m + e) * 30103 / 100000 in
  match List.filter hasMagnitude [est - 1; est; est + 1; est + 2] with
  | n :: _ => n
  | [] => est
  end.

(** The candidates with [k] digits: the two integers around
    [m * 2^e / 10^p], with the one read back (the nearer, or the even one,
    when both are). *)
Definition candidate (n k : Z) : option Z :=
  let p := n - k in
  let '(n10, d10) := pow10 p in
  let '(n2, d2) := pow2 e in
  let below := (m * n2 * d10) / (d2 * n10) in
  let above := below + 1 in
  match readsBack below p, readsBack above p with
  | true, true =>
      match compareQ (quarters (8 * m)) (decimal (below + above) p) with
      | Lt => Some below
      | Gt => Some above
      | Eq => Some (if Z.even below then below else above)
      end
  | true, false => Some below
  | false, true => Some above
  | false, false => None
  end.

(** The first [k] that has a candidate; 17 digits always do. *)
Fixpoint shortestFrom (n k : Z) (fuel : nat) : Z * Z :=
  match fuel with
  | O => ((m * fst (pow2 e) * snd (pow10 (n - k))) / (snd (pow2 e) * fst (pow10 (n - k))), k)
  | S fuel' =>
      match candidate n k with
      | Some s => (s, k)
      | None => shortestFrom n (k + 1) fuel'
      end
  end.

(** The digits and the position [n] of the decimal point: [s = 10^k] is
    written [1] with the point one place further. *)
Definition shortest : string * Z :=
  let n := magnitude in
  let '(s, k) := shortestFrom n 1 17 in
  if s =? 10 ^ k then (pretty (Z.to_N (10 ^ (k - 1))), n + 1)
  else (pretty (Z.to_N s), n).

End Shortest.

Definition zeros (n : Z) : string :=
  string_of_list_ascii (repeat "0"%char (Z.to_nat n)).

Definition takeS (n : Z) (s : string) : string :=
  string_of_list_ascii (take (Z.to_nat n) (list_ascii_of_string s)).
Definition dropS (n : Z) (s : string) : string :=
  string_of_list_ascii (drop (Z.to_nat n) (list_ascii_of_string s)).

(** The text for the digits [ds] and the position [n] of the point. *)
Definition layout (ds : string) (n : Z) : string :=
  let k := Z.of_nat (String.length ds) in
  if (k <=? n) && (n <=? 21) then ds +:+ zeros (n - k)
  else if (0 <? n) && (n <=? 21) then takeS n ds +:+ "." +:+ dropS n ds
  else if (-6 <? n) && (n <=? 0) then "0." +:+ zeros (- n) +:+ ds
  else
    let mantissa := if k =? 1 then ds else takeS 1 ds +:+ "." +:+ dropS 1 ds in
    mantissa +:+ "e" +:+ (if n - 1 <? 0 then "-" else "+")
             +:+ pretty (Z.to_N (Z.abs (n - 1))).

(** [String(x)], [`${x}`]. *)
Definition toString (x : float) : string :=
  match Prim2SF x with
  | S754_nan => "NaN"
  | S754_zero _ => "0"
  | S754_infinity s => if s then "-Infinity" else "Infinity"
  | S754_finite s m e =>
      let '(ds, n) := shortest (Z.pos m) e in
      (if s then "-" else "") +:+ layout ds n
  end.

End Number.

(** ** Parsed JSON as JavaScript values *)

Module Json.

(** The result of [JSON.parse]; a number is a binary64 value. *)
Inductive value :=
| Null
| Bool (b : bool)
| Num (x : PrimFloat.float)
| Str (s : string)
| Arr (items : list value)
| Obj (fields : list (string * value)).

(** A value or [undefined]. *)
Definition jsval : Type := option value.

(** The outcome of an evaluation that may throw. *)
Inductive res (A : Type) :=
| Ret (a : A)
| Throw (message : string).
Arguments Ret {A}. Arguments Throw {A}.

Definition bind {A B} (m : res A) (k : A -> res B) : res B :=
  match m with
  | Ret a => k a
  | Throw e => Throw e
  end.


Fixpoint lookup (key : string) (fields : list (string * value)) : jsval :=
  match fields with
  | [] => None
  | (k, v) :: rest => if String.eqb k key then Some v else lookup key rest
  end.

(** [v[key]] for the property names the program uses (none of them is
    [length] or an index): only objects have them; reading a property of
    [null] throws. *)
Definition get (v : value) (key : string) : res jsval :=
  match v with
  | Null => Throw "TypeError: Cannot read properties of null"
  | Obj fields => Ret (lookup key fields)
  | _ => Ret None
  end.

(** [!!v]. *)
Definition truthy (v : jsval) : bool :=
  match v with
  | None | Some Null => false
  | Some (Bool b) => b
  | Some (Num x) => Number.truthy x
  | Some (Str s) => Js.truthy s
  | Some (Arr _) | Some (Obj _) => true
  end.

(** [a || b] with [b] a value. *)
Definition orElse (a : jsval) (b : value) : value :=
  match a with
  | Some v => if truthy a then v else b
  | None => b
  end.

(** [a ?? b]. *)
Definition nullish (a : jsval) : bool :=
  match a with
  | None | Some Null => true
  | _ => false
  end.

Definition isString (v : value) : bool :=
  match v with Str _ => true | _ => false end.

(** [typeof v === 'object'] for a truthy [v]. *)
Definition isObject (v : value) : bool :=
  match v with Arr _ | Obj _ | Null => true | _ => false end.


(** [String(v)] as done by template literals and [Array.prototype.join]:
    an object that has an own [toString] property (not callable, it comes
    from JSON) cannot be converted. *)
Fixpoint toString (v : value) : res string :=
  match v with
  | Null => Ret "null"
  | Bool true => Ret "true"
  | Bool false => Ret "false"
  | Num x => Ret (Number.toString x)
  | Str s => Ret s
  | Arr items =>
      (fix join (l : list value) : res string :=
         match l with
         | [] => Ret ""
         | x :: rest =>
             bind (match x with Null => Ret "" | _ => toString x end) (fun sx =>
             match rest with
             | [] => Ret sx
             | _ => bind (join rest) (fun sr => Ret (sx +:+ "," +:+ sr))
             end)
         end) items
  | Obj fields =>
      match lookup "toString" fields with
      | Some _ => Throw "TypeError: Cannot convert object to primitive value"
      | None => Ret "[object Object]"
      end
  end.

(** [parts.join(sep)] for an array of values none of which is [null]. *)
Fixpoint join (sep : string) (parts : list value) : res string :=
  match parts with
  | [] => Ret ""
  | x :: rest =>
      bind (toString x) (fun sx =>
      match rest with
      | [] => Ret sx
      | _ => bind (join sep rest) (fun sr => Ret (sx +:+ sep +:+ sr))
      end)
  end.


End Json.

(** ** A backtracking matcher for the regular expressions in use *)

Module Regex.

Inductive re :=
| Eps
| Cls (p : ascii -> bool)                (* one character of a class *)
| Seq (a b : re)
| Alt (a b : re)                         (* [a|b], left first *)
| Many (min : nat) (p : ascii -> bool)   (* [p{min,}], greedy *)
| Opt (a : re)                           (* [a?], greedy *)
| Cap (a : re).                          (* a capturing group *)

(** Try the continuation after [i], [i-1], ..., [min] characters. *)
Fixpoint tryCounts {A} (k : list ascii -> option A) (s : list ascii)
    (min i : nat) : option A :=
  match i with
  | O => if (min =? 0)%nat then k s else None
  | S i' =>
      if (S i' <? min)%nat then None
      else match k (drop (S i') s) with
           | Some x => Some x
           | None => tryCounts k s min i'
           end
  end.

(** Match [r] at the start of [s]; [caps] are the groups captured so far. *)
Fixpoint matchAt {A} (r : re) (s : list ascii) (caps : list string)
    (k : list ascii -> list string -> option A) : option A :=
  match r with
  | Eps => k s caps
  | Cls p =>
      match s with
      | c :: s' => if p c then k s' caps else None
      | [] => None
      end
  | Seq a b => matchAt a s caps (fun s' caps' => matchAt b s' caps' k)
  | Alt a b =>
      match matchAt a s caps k with
      | Some x => Some x
      | None => matchAt b s caps k
      end
  | Many min p =>
      tryCounts (fun s' => k s' caps) s min (length (Js.takeWhile p s))
  | Opt a =>
      match matchAt a s caps k with
      | Some x => Some x
      | None => k s caps
      end
  | Cap a =>
      matchAt a s caps (fun s' caps' =>
        k s' (caps' ++ [string_of_list_ascii (take (length s - length s') s)]))
  end.

(** [text.match(r)]: the groups of the leftmost match. *)
Fixpoint searchL (r : re) (s : list ascii) : option (list string) :=
  match matchAt r s [] (fun _ caps => Some caps) with
  | Some caps => Some caps
  | None =>
      match s with
      | [] => None
      | _ :: s' => searchL r s'
      end
  end.

Definition search (r : re) (text : string) : option (list string) :=
  searchL r (list_ascii_of_string text).

(** Building blocks; letters match case-insensitively (flag [i]). *)
Definition chr (c : ascii) : re :=
  Cls (fun x => Ascii.eqb (Js.lowerChar x) (Js.lowerChar c)).

Definition lit (s : string) : re :=
  fold_right (fun c r => Seq (chr c) r) Eps (list_ascii_of_string s).

Definition spaceOrDash (c : ascii) : bool := Js.isSpace c || Ascii.eqb c "-".

Definition yearsWord : re :=
  Alt (Seq (lit "year") (Opt (chr "s"))) (Seq (lit "yr") (Opt (chr "s"))).

(** [/(\d+)[\s-]+(?:to|-)[\s]*(\d+)[\s]*(?:years?|yrs?)/i] *)
Definition experienceRange : re :=
  Seq (Cap (Many 1 Js.isDigit))
  (Seq (Many 1 spaceOrDash)
  (Seq (Alt (lit "to") (chr "-"))
  (Seq (Many 0 Js.isSpace)
  (Seq (Cap (Many 1 Js.isDigit))
  (Seq (Many 0 Js.isSpace) yearsWord))))).

(** [/(\d+)[\s]*(?:\+)?[\s]*(?:years?|yrs?)/i] *)
Definition experienceSingle : re :=
  Seq (Cap (Many 1 Js.isDigit))
  (Seq (Many 0 Js.isSpace)
  (Seq (Opt (chr "+"))
  (Seq (Many 0 Js.isSpace) yearsWord))).

End Regex.


(** ** The structured-data extractor *)

(** The object literal returned by [parseJobPosting]: fields copied from the
    posting keep whatever value the posting has. *)
Module Posting.
Record t := mk {
  title : Json.value;
  company : Json.value;
  location : string;
  salary : string;
  jobType : Json.value;
  experience : string;
  postedDate : Json.value;
  descriptionHtml : Json.value;
  descriptionText : string;
  url : Json.value;
  scrapedAt : string
}.
End Posting.

Module JsonLd.
Import Json.

Notation "'do' x <- m ; k" := (bind m (fun x => k))
  (at level 10, x name, m at level 100, k at level 200).

(** [extractExperience(text)]; [text.match] exists on strings only. *)
Definition extractExperience (text : value) : res string :=
  if negb (truthy (Some text)) then Ret "Not specified"
  else
    match text with
    | Str s =>
        match Regex.search Regex.experienceRange s with
        | Some (lo :: hi :: _) => Ret (lo +:+ "-" +:+ hi +:+ " years")
        | _ =>
            match Regex.search Regex.experienceSingle s with
            | Some (n :: _) => Ret (n +:+ "+ years")
            | _ =>
                if Js.includes (Js.toLowerCase s) "fresher"
                then Ret "0-1 years"
                else Ret "Not specified"
            end
        end
    | _ => Throw "TypeError: text.match is not a function"
    end.

(** [html.replace(/<[^>]*>/g, ' ')]: every tag becomes one space. *)
Fixpoint replaceTags (inTag : bool) (s : list ascii) : list ascii :=
  match s with
  | [] => []
  | c :: rest =>
      if inTag then
        if Ascii.eqb c ">" then " "%char :: replaceTags false rest
        else replaceTags true rest
      else if Ascii.eqb c "<" && existsb (Ascii.eqb ">") rest
      then replaceTags true rest
      else c :: replaceTags false rest
  end.

(** [text.replace(/\s+/g, ' ')]: every run of white space becomes one space. *)
Fixpoint collapseSpaces (afterSpace : bool) (s : list ascii) : list ascii :=
  match s with
  | [] => []
  | c :: rest =>
      if Js.isSpace c then
        if afterSpace then collapseSpaces true rest
        else " "%char :: collapseSpaces true rest
      else c :: collapseSpaces false rest
  end.

(** [html.replace(/<[^>]*>/g, ' ').replace(/\s+/g, ' ').trim()]. *)
Definition stripTags (s : string) : string :=
  Js.trim (string_of_list_ascii
             (collapseSpaces false
                (replaceTags false (list_ascii_of_string s)))).

(** [stripHtml(html)]; [html.replace] exists on strings only. *)
Definition stripHtml (html : value) : res string :=
  if negb (truthy (Some html)) then Ret ""
  else
    match html with
    | Str s => Ret (stripTags s)
    | _ => Throw "TypeError: html.replace is not a function"
    end.

(** [/<[^>]+>/.test(s)]: some [<] is followed by at least one character
    other than [>] and then by [>]. *)
Fixpoint hasTagL (s : list ascii) : bool :=
  match s with
  | [] => false
  | c :: rest =>
      (Ascii.eqb c "<"
       && match rest with
          | x :: more => negb (Ascii.eqb x ">") && existsb (Ascii.eqb ">") more
          | [] => false
          end)
      || hasTagL rest
  end.

Definition hasTag (s : string) : bool := hasTagL (list_ascii_of_string s).

Definition emptyObject : value := Obj [].

Definition filterBoolean (parts : list jsval) : list value :=
  omap (fun p => if truthy p then p else None) parts.

(** [parseJobPosting(jobData)]; [now] is [new Date().toISOString()]. *)
Definition parseJobPosting (now : string) (jobData : value) : res Posting.t :=
  do hiringOrganization <- get jobData "hiringOrganization" ;
  let hiringOrg := orElse hiringOrganization emptyObject in
  do jobLocation0 <- get jobData "jobLocation" ;
  let jobLocation := orElse jobLocation0 emptyObject in
  do address0 <- get jobLocation "address" ;
  let address := orElse address0 emptyObject in
  do location <-
    match address with
    | Str a => Ret a
    | _ =>
        do locality <- get address "addressLocality" ;
        do region <- get address "addressRegion" ;
        do country <- get address "addressCountry" ;
        join ", " (filterBoolean [locality; region; country])
    end ;
  do baseSalary <- get jobData "baseSalary" ;
  do salary <-
    (if truthy baseSalary then
       let baseSalary := orElse baseSalary emptyObject in
       do value0 <- get baseSalary "value" ;
       if truthy value0 then
         let value := orElse value0 emptyObject in
         do currency <- get baseSalary "currency" ;
         if isObject value then
           do minValue <- get value "minValue" ;
           do maxValue <- get value "maxValue" ;
           do lo <- toString (orElse minValue (Str "")) ;
           do hi <- toString (orElse maxValue (Str "")) ;
           do cur <- toString (orElse currency (Str "")) ;
           Ret (Js.trim (lo +:+ " - " +:+ hi +:+ " " +:+ cur))
         else
           do v <- toString value ;
           do cur <- toString (orElse currency (Str "")) ;
           Ret (Js.trim (v +:+ " " +:+ cur))
       else Ret "Not specified"
     else Ret "Not specified") ;
  do title <- get jobData "title" ;
  do name <- get hiringOrg "name" ;
  do employmentType <- get jobData "employmentType" ;
  do description <- get jobData "description" ;
  do experience <- extractExperience (orElse description (Str "")) ;
  do datePosted <- get jobData "datePosted" ;
  do descriptionText <-
    (if truthy description
     then stripHtml (orElse description (Str ""))
     else Ret "") ;
  do url <- get jobData "url" ;
  Ret {| Posting.title := orElse title (Str "");
         Posting.company := orElse name (Str "");
         Posting.location := location;
         Posting.salary := salary;
         Posting.jobType := orElse employmentType (Str "Not specified");
         Posting.experience := experience;
         Posting.postedDate := orElse datePosted (Str "");
         Posting.descriptionHtml := orElse description (Str "");
         Posting.descriptionText := descriptionText;
         Posting.url := orElse url (Str "");
         Posting.scrapedAt := now |}.








(** [Number(v)] for a value that is not [undefined].  The reading of a
    text as a number is the language's [StringToNumber], an input of the
    function; an array or an object is first converted to text. *)
Definition toNumber (StringToNumber : string -> PrimFloat.float) (v : value)
    : res PrimFloat.float :=
  match v with
  | Null => Ret PrimFloat.zero
  | Bool b => Ret (if b then PrimFloat.one else PrimFloat.zero)
  | Num x => Ret x
  | Str s => Ret (StringToNumber s)
  | Arr _ | Obj _ => do s <- toString v ; Ret (StringToNumber s)
  end.

(** [Math.max(0, Math.round((m / 12) * 10) / 10)]. *)
Definition years (m : PrimFloat.float) : PrimFloat.float :=
  Number.max PrimFloat.zero
    (PrimFloat.div
       (Number.round
          (PrimFloat.mul (PrimFloat.div m (Number.ofZ 12)) (Number.ofZ 10)))
       (Number.ofZ 10)).

(** The end of the function, from [m = Number(months)] on. *)
Definition yearsText (m : PrimFloat.float) : string :=
  if negb (Number.isFinite m) || PrimFloat.leb m PrimFloat.zero then ""
  else Number.toString (years m) +:+ " years".

Definition normalizeExperienceFromJsonLd
    (StringToNumber : string -> PrimFloat.float)
    (experienceRequirements : jsval) : res string :=
  if negb (truthy experienceRequirements) then Ret ""
  else
    let er := orElse experienceRequirements Null in
    match er with
    | Str s => Ret (Js.trim s)
    | _ =>
        do monthsOfExperience <- get er "monthsOfExperience" ;
        do alt <- get er "months" ;
        let months :=
          if nullish monthsOfExperience then alt else monthsOfExperience in
        match months with
        | None | Some Null => Ret ""
        | Some v => do m <- toNumber StringToNumber v ; Ret (yearsText m)
        end
    end.

(** *** Rounding to one decimal, exactly

    [roundDiv a b] is the integer nearest to [a / b] for [b > 0], the upper
    one of two equally near; [showTenths t] is the decimal numeral of
    [t / 10] for [t >= 0]. *)
Definition roundDiv (a b : Z) : Z := (2 * a + b) / (2 * b).

Definition showTenths (tenths : Z) : string :=
  if tenths mod 10 =? 0 then pretty (tenths / 10)
  else pretty (tenths / 10) +:+ "." +:+ pretty (tenths mod 10).

(** Whole months [k] for which the text returned is that of [k / 12]
    rounded to one decimal. *)
Definition roundsExactly (k : Z) : bool :=
  String.eqb (yearsText (Number.ofZ k))
             (showTenths (roundDiv (k * 10) 12) +:+ " years").

(** *** What the extractor is said to recognise

    A posting is an object whose type tag is exactly [JobPosting]; a block
    is a bare posting, an array of postings, an object with a [@graph]
    array of postings, or an [ItemList] whose entries wrap or are postings. *)


(** The posting an [ItemList] entry wraps, or the entry itself. *)
Definition unwrap (entry : value) : value :=
  match entry with
  | Obj fields => orElse (lookup "item" fields) entry
  | _ => entry
  end.


(** A well-formed posting: its description, if any, is text, and no object
    in it shadows [toString]. *)
Fixpoint plain (v : value) : bool :=
  match v with
  | Arr items => forallb plain items
  | Obj fields =>
      negb (existsb (fun kv => String.eqb (fst kv) "toString") fields)
      && forallb (fun kv => plain (snd kv)) fields
  | _ => true
  end.




Definition isNull (v : value) : bool :=
  match v with Null => true | _ => false end.




End JsonLd.



(** ** Sanitising an HTML fragment *)

Module Html.

(** The parsed fragment: the child nodes of the [#__root] wrapper. *)
Inductive node :=
| Elem (tag : string) (attrs : list (string * string)) (kids : list node)
| Text (data : string)
| Comment (data : string).

Definition isElem (n : node) : bool :=
  match n with Elem _ _ _ => true | _ => false end.

Definition noiseTags : list string :=
  [ "script"; "style"; "noscript"; "svg"; "img"; "iframe"; "canvas"; "form";
    "input"; "button"; "link"; "meta" ].

Definition allowedTags : list string :=
  [ "p"; "ul"; "ol"; "li"; "br"; "strong"; "b"; "em"; "i";
    "h1"; "h2"; "h3"; "h4"; "h5"; "h6"; "a" ].

Definition member (x : string) (l : list string) : bool :=
  existsb (String.eqb x) l.

(** [root.find('script, style, ...').remove()]: every matching descendant
    goes, with its subtree. *)
Fixpoint removeNoise (n : node) : list node :=
  match n with
  | Elem tag attrs kids =>
      if member tag noiseTags then []
      else [Elem tag attrs (flat_map removeNoise kids)]
  | _ => [n]
  end.

(** The test of the second pass: an element is kept when its tag name is
    empty or allow-listed (in lower case). *)
Definition kept (tag : string) : bool :=
  let t := Js.toLowerCase tag in
  negb (Js.truthy t) || member t allowedTags.

(** [$(el).replaceWith($(el).contents())] for every element that is not
    kept: the elements are visited in document order, each one that is
    not kept gives its place to its child nodes, which are visited in
    turn. *)
Fixpoint unwrap (n : node) : list node :=
  match n with
  | Elem tag attrs kids =>
      let kids' := flat_map unwrap kids in
      if kept tag then [Elem tag attrs kids'] else kids'
  | _ => [n]
  end.

(** [removeAttr(name)] for every attribute whose lower-cased name is not
    [href]. *)
Definition keepHref (attrs : list (string * string)) : list (string * string) :=
  List.filter (fun a => String.eqb (Js.toLowerCase (fst a)) "href") attrs.

Fixpoint stripAttrs (n : node) : node :=
  match n with
  | Elem tag attrs kids => Elem tag (keepHref attrs) (map stripAttrs kids)
  | _ => n
  end.

(** [$el.text()] of an element without element children. *)
Definition ownText (kids : list node) : string :=
  String.concat ""
    (map (fun n => match n with Text d => d | _ => "" end) kids).

(** [$el.children().length === 0 && !$el.text().trim()]. *)
Definition isEmpty (kids : list node) : bool :=
  negb (existsb isElem kids) && negb (Js.truthy (Js.trim (ownText kids))).

(** The last pass.  The elements are visited in document order and each is
    tested when it is reached: its own subtree is then still as the
    previous passes left it, because its descendants come later.  So an
    element goes exactly when it was empty before the pass. *)
Fixpoint dropEmpty (n : node) : list node :=
  match n with
  | Elem tag attrs kids =>
      if isEmpty kids then []
      else [Elem tag attrs (flat_map dropEmpty kids)]
  | _ => [n]
  end.

(** The four passes on the child nodes of the wrapper. *)
Definition sanitizeNodes (nodes : list node) : list node :=
  flat_map dropEmpty
    (map stripAttrs (flat_map unwrap (flat_map removeNoise nodes))).

(** The parser and the serialiser of the library. *)
Record Cheerio := mkCheerio {
  (* the child nodes of [$('#__root')] after [cheerio.load(text)] *)
  load : string -> list node;
  (* [root.html()] for a root with these child nodes *)
  html : list node -> string
}.

(** [`<div id="__root">${html}</div>`]. *)
Definition wrapped (fragment : string) : string :=
  Js.dq ["<div id="; "__root"; ">"] +:+ fragment +:+ "</div>".

Definition sanitizeHtmlFragment (ch : Cheerio) (fragment : string) : string :=
  if negb (Js.truthy fragment) then ""
  else Js.trim (html ch (sanitizeNodes (load ch (wrapped fragment)))).

(** *** What the output is said to contain *)

(** Every element has an allow-listed tag. *)
Fixpoint tagsOk (n : node) : bool :=
  match n with
  | Elem tag _ kids =>
      member (Js.toLowerCase tag) allowedTags && forallb tagsOk kids
  | _ => true
  end.

Definition isHref (a : string * string) : bool :=
  String.eqb (Js.toLowerCase (fst a)) "href".

(** No element has an attribute other than [href]. *)
Fixpoint attrsOk (n : node) : bool :=
  match n with
  | Elem _ attrs kids => forallb isHref attrs && forallb attrsOk kids
  | _ => true
  end.

Definition clean (nodes : list node) : bool :=
  forallb tagsOk nodes && forallb attrsOk nodes.

(** No element has an empty tag name (true of every parsed document). *)
Fixpoint named (n : node) : bool :=
  match n with
  | Elem tag _ kids => Js.truthy (Js.toLowerCase tag) && forallb named kids
  | _ => true
  end.

(** Every character of the texts is an ASCII character, so that the white
    space in them is ASCII white space. *)
Fixpoint asciiText (n : node) : bool :=
  match n with
  | Text d => forallb (fun c => (nat_of_ascii c <? 128)%nat) (list_ascii_of_string d)
  | Comment _ => true
  | Elem _ _ kids => forallb asciiText kids
  end.

(** No element is empty. *)
Fixpoint solid (n : node) : bool :=
  match n with
  | Elem _ _ kids => negb (isEmpty kids) && forallb solid kids
  | _ => true
  end.

End Html.

(** A small reader and writer of well-nested markup, standing in for the
    library on sample inputs: no character references but [&amp;], [&lt;]
    and [&gt;], no raw-text elements, no implied tags. *)
Module MiniHtml.
Import Html.

Inductive token :=
| TOpen (tag : string) (attrs : list (string * string))
| TClose (tag : string)
| TText (data : string)
| TComment (data : string).

Definition str (l : list ascii) : string := string_of_list_ascii l.

Definition isLetter (c : ascii) : bool :=
  let n := nat_of_ascii (Js.lowerChar c) in (97 <=? n)%nat && (n <=? 122)%nat.

Definition isNameChar (c : ascii) : bool :=
  negb (Js.isSpace c || Ascii.eqb c "/" || Ascii.eqb c ">" || Ascii.eqb c "=").

Definition quote : ascii := ascii_of_nat 34.

(** The three character references the writer produces, read back. *)
Fixpoint unescape (skip : nat) (s : list ascii) : list ascii :=
  match s with
  | [] => []
  | c :: rest =>
      match skip with
      | S k => unescape k rest
      | O =>
          if Js.startsWithL (list_ascii_of_string "&amp;") s
          then "&"%char :: unescape 4 rest
          else if Js.startsWithL (list_ascii_of_string "&lt;") s
          then "<"%char :: unescape 3 rest
          else if Js.startsWithL (list_ascii_of_string "&gt;") s
          then ">"%char :: unescape 3 rest
          else c :: unescape 0 rest
      end
  end.

(** The text before the first occurrence of [pat], and the text after it. *)
Fixpoint splitOn (pat s : list ascii) : list ascii * list ascii :=
  match s with
  | [] => ([], [])
  | c :: rest =>
      if Js.startsWithL pat s then ([], drop (length pat) s)
      else let '(before, after) := splitOn pat rest in (c :: before, after)
  end.

(** The attributes up to the end of the tag, and the text after the tag. *)
Fixpoint readAttrs (fuel : nat) (s : list ascii)
    : list (string * string) * list ascii :=
  match fuel with
  | O => ([], [])
  | S fuel' =>
      match Js.dropWhile Js.isSpace s with
      | [] => ([], [])
      | ">"%char :: rest => ([], rest)
      | "/"%char :: rest => readAttrs fuel' rest
      | s' =>
          let name := Js.takeWhile isNameChar s' in
          let after := Js.dropWhile isNameChar s' in
          match after with
          | "="%char :: v =>
              let '(value, rest) :=
                match v with
                | q :: v' =>
                    if Ascii.eqb q quote || Ascii.eqb q "'"
                    then splitOn [q] v'
                    else (Js.takeWhile isNameChar v, Js.dropWhile isNameChar v)
                | [] => ([], [])
                end in
              let '(more, rest') := readAttrs fuel' rest in
              ((Js.toLowerCase (str name), str value) :: more, rest')
          | _ =>
              match name with
              | [] => readAttrs fuel' (drop 1 after)
              | _ =>
                  let '(more, rest') := readAttrs fuel' after in
                  ((Js.toLowerCase (str name), "") :: more, rest')
              end
          end
      end
  end.

Fixpoint tokenize (fuel : nat) (s : list ascii) : list token :=
  match fuel with
  | O => []
  | S fuel' =>
      match s with
      | [] => []
      | "<"%char :: rest =>
          if Js.startsWithL (list_ascii_of_string "!--") rest then
            let '(data, after) :=
              splitOn (list_ascii_of_string "-->") (drop 3 rest) in
            TComment (str data) :: tokenize fuel' after
          else
            match rest with
            | "/"%char :: r =>
                TClose (Js.toLowerCase (str (Js.takeWhile isNameChar r)))
                :: tokenize fuel' (snd (splitOn [">"%char] r))
            | c :: _ =>
                if isLetter c then
                  let '(attrs, after) :=
                    readAttrs (length rest) (Js.dropWhile isNameChar rest) in
                  TOpen (Js.toLowerCase (str (Js.takeWhile isNameChar rest))) attrs
                  :: tokenize fuel' after
                else TText "<" :: tokenize fuel' rest
            | [] => [TText "<"]
            end
      | _ =>
          let notLt c := negb (Ascii.eqb c "<") in
          TText (str (unescape 0 (Js.takeWhile notLt s)))
          :: tokenize fuel' (Js.dropWhile notLt s)
      end
  end.

Definition voidTags : list string :=
  [ "area"; "base"; "br"; "col"; "embed"; "hr"; "img"; "input"; "link";
    "meta"; "source"; "track"; "wbr" ].

(** An open element: its tag, attributes and the children read so far,
    last first. *)
Definition Open : Type := string * list (string * string) * list node.

(** Close the innermost open element: it becomes the last child of the
    element below it, or of the top level. *)
Definition closeTop (stack : list Open) (top : list node)
    : list Open * list node :=
  match stack with
  | [] => ([], top)
  | (tag, attrs, kids) :: below =>
      let el := Elem tag attrs (rev kids) in
      match below with
      | [] => ([], el :: top)
      | (t, a, k) :: more => ((t, a, el :: k) :: more, top)
      end
  end.

Fixpoint closeUntil (fuel : nat) (tag : string) (stack : list Open)
    (top : list node) : list Open * list node :=
  match fuel, stack with
  | S fuel', (t, _, _) :: _ =>
      let '(stack', top') := closeTop stack top in
      if String.eqb t tag then (stack', top')
      else closeUntil fuel' tag stack' top'
  | _, _ => (stack, top)
  end.

Definition addNode (n : node) (stack : list Open) (top : list node)
    : list Open * list node :=
  match stack with
  | [] => ([], n :: top)
  | (t, a, k) :: more => ((t, a, n :: k) :: more, top)
  end.

Fixpoint build (tokens : list token) (stack : list Open) (top : list node)
    : list node :=
  match tokens with
  | [] => rev (snd (closeUntil (S (length stack)) "" stack top))
  | TText d :: rest =>
      let '(stack', top') := addNode (Text d) stack top in build rest stack' top'
  | TComment d :: rest =>
      let '(stack', top') := addNode (Comment d) stack top in build rest stack' top'
  | TOpen tag attrs :: rest =>
      if member tag voidTags then
        let '(stack', top') := addNode (Elem tag attrs []) stack top in
        build rest stack' top'
      else build rest ((tag, attrs, []) :: stack) top
  | TClose tag :: rest =>
      if existsb (fun o => String.eqb (fst (fst o)) tag) stack then
        let '(stack', top') := closeUntil (length stack) tag stack top in
        build rest stack' top'
      else build rest stack top
  end.

Definition parse (text : string) : list node :=
  let s := list_ascii_of_string text in
  build (tokenize (S (length s)) s) [] [].

(** The child nodes of the first element whose [id] is [__root]. *)
Fixpoint findRoot (n : node) : option (list node) :=
  match n with
  | Elem _ attrs kids =>
      if existsb (fun a => String.eqb (fst a) "id" && String.eqb (snd a) "__root") attrs
      then Some kids
      else
        (fix first (l : list node) : option (list node) :=
           match l with
           | [] => None
           | k :: rest =>
               match findRoot k with
               | Some r => Some r
               | None => first rest
               end
           end) kids
  | _ => None
  end.

Definition loadRoot (text : string) : list node :=
  default [] (findRoot (Elem "body" [] (parse text))).

Definition escapeChar (c : ascii) : string :=
  if Ascii.eqb c "&" then "&amp;"
  else if Ascii.eqb c "<" then "&lt;"
  else if Ascii.eqb c ">" then "&gt;"
  else String c EmptyString.

Definition escape (s : string) : string :=
  String.concat "" (map escapeChar (list_ascii_of_string s)).

Definition showAttr (a : string * string) : string :=
  " " +:+ fst a +:+ "=" +:+ String quote (snd a) +:+ String quote EmptyString.

Fixpoint serialize (n : node) : string :=
  match n with
  | Text d => escape d
  | Comment d => "<!--" +:+ d +:+ "-->"
  | Elem tag attrs kids =>
      "<" +:+ tag +:+ String.concat "" (map showAttr attrs) +:+ ">"
      +:+ (if member tag voidTags then ""
           else String.concat "" (map serialize kids) +:+ "</" +:+ tag +:+ ">")
  end.

Definition cheerio : Cheerio :=
  {| load := loadRoot;
     html := fun nodes => String.concat "" (map serialize nodes) |}.

End MiniHtml.

(** ** Fetching one detail page *)

(** [{ descriptionHtml, descriptionText }] as found by a selector probe. *)
Record Desc := mkDesc { descHtml : string; descText : string }.

(** ** HTML to readable text *)

Module Readable.
Import Html.

Definition nl : ascii := ascii_of_nat 10.
Definition cr : ascii := ascii_of_nat 13.
Definition tab : ascii := ascii_of_nat 9.

Definition blockTags : list string :=
  [ "h1"; "h2"; "h3"; "h4"; "h5"; "h6"; "p"; "li" ].

(** [$(el).text()]: the text nodes below the element, in document order. *)
Fixpoint textOf (n : node) : string :=
  match n with
  | Text d => d
  | Comment _ => ""
  | Elem _ _ kids => String.concat "" (map textOf kids)
  end.

(** [root.find('h1,h2,h3,h4,h5,h6,p,li')]: the matching elements at any
    depth, in document order; a block inside a block is listed too. *)
Fixpoint blocks (n : node) : list node :=
  match n with
  | Elem tag _ kids =>
      (if member tag blockTags then [n] else []) ++ flat_map blocks kids
  | _ => []
  end.

(** The line pushed for one block, if its text is not blank. *)
Definition lineOf (n : node) : option string :=
  let t := Js.trim (textOf n) in
  if negb (Js.truthy t) then None
  else
    match n with
    | Elem tag _ _ =>
        if String.eqb (Js.toLowerCase tag) "li" then Some ("- " +:+ t) else Some t
    | _ => Some t
    end.

(** The [lines] array, with its fallback to the whole text. *)
Definition readableLines (nodes : list node) : list string :=
  let nodes := flat_map removeNoise nodes in
  match omap lineOf (flat_map blocks nodes) with
  | [] =>
      let t := Js.trim (String.concat "" (map textOf nodes)) in
      if Js.truthy t then [t] else []
  | lines => lines
  end.

(** [.replace(/\r/g, '')]. *)
Definition removeCR (s : list ascii) : list ascii :=
  List.filter (fun c => negb (Ascii.eqb c cr)) s.

Definition isBlank (c : ascii) : bool := Ascii.eqb c " " || Ascii.eqb c tab.

Definition startsWithNewline (s : list ascii) : bool :=
  match s with
  | c :: _ => Ascii.eqb c nl
  | [] => false
  end.

(** [.replace(/[ \t]+\n/g, '\n')]: a space or tab goes when what follows it
    is, after any further spaces and tabs, a line feed. *)
Fixpoint dropBlanksBeforeNewline (s : list ascii) : list ascii :=
  match s with
  | [] => []
  | c :: rest =>
      let r := dropBlanksBeforeNewline rest in
      if isBlank c && startsWithNewline r then r else c :: r
  end.

(** [.replace(/\n{3,}/g, '\n\n')]: of a run of line feeds the first two
    stay; [run] counts the line feeds just passed. *)
Fixpoint squeezeNewlines (run : nat) (s : list ascii) : list ascii :=
  match s with
  | [] => []
  | c :: rest =>
      if Ascii.eqb c nl then
        if (2 <=? run)%nat then squeezeNewlines (S run) rest
        else c :: squeezeNewlines (S run) rest
      else c :: squeezeNewlines 0 rest
  end.

Definition notCR (c : ascii) : bool := negb (Ascii.eqb c cr).

(** No space or tab stands right before a line feed. *)
Fixpoint noBlankNewline (l : list ascii) : bool :=
  match l with
  | [] => true
  | c :: rest => negb (isBlank c && startsWithNewline rest) && noBlankNewline rest
  end.

(** The chain of replacements that ends the function, and [trim]. *)
Definition tidy (s : string) : string :=
  Js.trim
    (string_of_list_ascii
       (squeezeNewlines 0
          (dropBlanksBeforeNewline (removeCR (list_ascii_of_string s))))).

Definition htmlToReadableText (ch : Cheerio) (fragment : string) : string :=
  if negb (Js.truthy fragment) then ""
  else
    tidy (String.concat (String nl EmptyString)
            (readableLines (load ch (wrapped fragment)))).

End Readable.

(** ** The description section of a detail page *)

Module CleanSection.

(** What one selector yields on the document: whether [$(selector).first()]
    has an element, its [.text()] and its [.html()]. *)
Record Probe := mkProbe {
  found : bool;
  probeText : string;
  probeHtml : option string
}.

Definition strlen (s : string) : Z := Z.of_nat (String.length s).

Definition isHydration (loweredHtml : string) : bool :=
  Js.includes loweredHtml "__next_f"
  || Js.includes loweredHtml "static.naukimg.com"
  || Js.includes loweredHtml "_next/static".

(** [/this page could not be found|checking your browser|just a moment/i]. *)
Definition isBlockText (text : string) : bool :=
  let t := Js.toLowerCase text in
  Js.includes t "this page could not be found"
  || Js.includes t "checking your browser"
  || Js.includes t "just a moment".

Fixpoint extractCleanSectionFromCheerio (ch : Html.Cheerio)
    (probe : string -> Probe) (selectors : list string) (minTextLength : Z)
    : option Desc :=
  match selectors with
  | [] => None
  | selector :: rest =>
      let next := extractCleanSectionFromCheerio ch probe rest minTextLength in
      let el := probe selector in
      if negb (found el) then next
      else
        let rawText := Js.trim (probeText el) in
        if negb (Js.truthy rawText) || (strlen rawText <? minTextLength) then next
        else
          let rawHtml :=
            match probeHtml el with
            | Some h => Js.trim h
            | None => ""
            end in
          if negb (Js.truthy rawHtml) then next
          else
            let sanitizedHtml := Html.sanitizeHtmlFragment ch rawHtml in
            if negb (Js.truthy sanitizedHtml) || (120000 <? strlen sanitizedHtml)
            then next
            else if isHydration (Js.toLowerCase sanitizedHtml) then next
            else
              let text := Readable.htmlToReadableText ch sanitizedHtml in
              if isBlockText text then next
              else if Js.truthy text && (minTextLength <=? strlen text)
              then Some {| descHtml := sanitizedHtml; descText := text |}
              else next
  end.

(** [extractRawDescription($, selectors)]. *)
Fixpoint extractRawDescription (probe : string -> Probe)
    (selectors : list string) : option Desc :=
  match selectors with
  | [] => None
  | selector :: rest =>
      let el := probe selector in
      if negb (found el) then extractRawDescription probe rest
      else
        let rawHtml :=
          match probeHtml el with
          | Some h => Js.trim h
          | None => ""
          end in
        let rawText := Js.trim (probeText el) in
        if Js.truthy rawText && (100 <=? strlen rawText) && Js.truthy rawHtml
        then Some {| descHtml := rawHtml; descText := rawText |}
        else extractRawDescription probe rest
  end.

(** What [extractRawDescription] asks of the element of a selector. *)
Definition rawAccepts (probe : string -> Probe) (selector : string) : bool :=
  let el := probe selector in
  found el
  && Js.truthy (Js.trim (probeText el))
  && (100 <=? strlen (Js.trim (probeText el)))
  && Js.truthy (Js.trim (default "" (probeHtml el))).

End CleanSection.

(** [src/main.js]: the detail page is opened in a new browser tab. *)
Module Detail.
Import Json.

(** What the tab yields once its title has passed the block check: the
    description found in the window state, and the document, parsed and
    with its noise removed ([$('script, style, noscript, .apply-button,
    .actions').remove()]). *)
Record Content := mkContent {
  windowData : option string;          (* [String(windowData)] when it is truthy *)
  cheerio : Html.Cheerio;              (* the parser and serialiser of the library *)
  query : string -> CleanSection.Probe (* [$(selector).first()] on that document *)
}.

(** What opening the tab yields: the title, or the exception thrown by
    [newPage] / [goto]; then the content, or the exception thrown while
    reading it. *)
Record Tab := mkTab {
  title : res string;
  content : res Content
}.

(** [/Just a moment|Access Denied|Cloudflare|Security check/i.test(title)]. *)
Definition isBlockTitle (title : string) : bool :=
  let t := Js.toLowerCase title in
  Js.includes t "just a moment"
  || Js.includes t "access denied"
  || Js.includes t "cloudflare"
  || Js.includes t "security check".

Definition described (html text : string) : FetchResult :=
  Described {| FullDesc.descriptionHtml := html;
               FullDesc.descriptionText := text;
               FullDesc.experience := None; FullDesc.salary := None;
               FullDesc.jobType := None; FullDesc.title := None;
               FullDesc.company := None; FullDesc.location := None;
               FullDesc.postedDate := None; FullDesc.tags := None;
               FullDesc.jobId := None |}.

Definition ofSection (s : Desc) : FetchResult :=
  described (descHtml s) (descText s).

Definition selectors : list string :=
  [ Js.dq ["div[class*="; "JDC__dang-inner-html"; "]"];
    Js.dq ["div[class*="; "dang-inner-html"; "]"];
    Js.dq ["[itemprop="; "description"; "]"];
    Js.dq ["section[class*="; "jobDesc"; "]"];
    ".jd-desc"; ".job-description"; "#jobDescriptionText" ].

(** The structured data is looked up after the clean extraction, in
    [$('script[type="application/ld+json"]')]; every [script] element has
    gone from the document with the noise, so that selection is empty and
    the loop over it is never entered. *)
Definition fetchFullDescription (tab : Tab) : FetchResult :=
  match title tab with
  | Throw _ => NoContent
  | Ret t =>
      if isBlockTitle t then Blocked
      else
        match content tab with
        | Throw _ => NoContent
        | Ret c =>
            match windowData c with
            | Some desc =>
                if JsonLd.hasTag desc
                then described desc (JsonLd.stripTags desc)
                else described ("<p>" +:+ desc +:+ "</p>") desc
            | None =>
                match CleanSection.extractCleanSectionFromCheerio
                        (cheerio c) (query c) selectors 30 with
                | Some s => ofSection s
                | None =>
                    match CleanSection.extractRawDescription
                            (query c) selectors with
                    | Some s => ofSection s
                    | None => NoContent
                    end
                end
            end
        end
  end.

End Detail.

(** The older variant: a fast HTTP request, then a request through the
    browser session, then the document. *)
Module DetailHttp.
Import Json.

(** The outcome of one HTTP request. *)
Inductive Http :=
| Responded (status : Z) (body : string)
| Failed (message : string).

(** [parseJobPostingJsonLdCandidate] on the first posting of the document,
    for text-valued fields. *)
Record Candidate := mkCandidate {
  candTitle : string;
  candCompany : string;
  candLocation : string;
  candPostedDate : string;
  candJobType : string;
  candExperience : string;
  candSalary : string;
  candTags : string;
  candJobId : string;
  candDescriptionHtml : string;
  candDescriptionText : string
}.

(** What the queries on the loaded document yield. *)
Record Document := mkDocument {
  titleText : string;                 (* [$('title').text()] *)
  bodyText : string;                  (* [$('body').text()] *)
  primarySection : option Desc;    (* [extractCleanSectionFromCheerio($, primarySelectors)] *)
  jsonLdJob : option Candidate;
  fallbackSection : option Desc;   (* [... descriptionSelectors)] *)
  viaPage : res (option Desc);     (* [fetchDescriptionViaPage(jobUrl, page)] *)
  experienceText : string;            (* the three selector probes, trimmed *)
  salaryText : string;
  jobTypeText : string
}.

Record Fetch := mkFetch {
  fast : Http;                        (* [gotScraping(gotOptions)] *)
  session : Http;                     (* [context.request.get(jobUrl, ...)] *)
  load : string -> res Document       (* [cheerio.load(body)] and the queries *)
}.

Definition isBlockStatus (status : Z) : bool :=
  (status =? 403) || (status =? 503) || (status =? 429).

Definition isChallengeTitle (title : string) : bool :=
  Js.includes title "Just a moment"
  || Js.includes title "Cloudflare"
  || Js.includes title "Security check".

Definition isLikelyNotFoundPage (titleText bodyText : string) : bool :=
  let title := Js.toLowerCase titleText in
  let body := Js.toLowerCase bodyText in
  Js.includes title "404"
  || Js.includes body "this page could not be found"
  || Js.includes body "page could not be found".

(** [a || b || null] and [a || null]. *)
Definition firstOf (a b : string) : option string :=
  if Js.truthy a then Some a else if Js.truthy b then Some b else None.

Definition orNull (a : string) : option string :=
  if Js.truthy a then Some a else None.

(** The outer [catch]. *)
Definition caught (message : string) : FetchResult :=
  if Js.includes message "403" || Js.includes message "503"
  then Blocked else NoContent.

(** The part of the function that follows [cheerio.load(body)]. *)
Definition analyse (doc : Document) : FetchResult :=
  if isChallengeTitle (titleText doc) then Blocked
  else if isLikelyNotFoundPage (titleText doc) (bodyText doc) then NoContent
  else
    let descriptionFromHtml :=
      match primarySection doc with
      | Some s => if Js.truthy (descText s) then Some s else None
      | None => None
      end in
    let descriptionFromJsonLd :=
      match jsonLdJob doc with
      | Some c =>
          if Js.truthy (candDescriptionText c)
          then Some {| descHtml := candDescriptionHtml c;
                       descText := candDescriptionText c |}
          else None
      | None => None
      end in
    let description :=
      match descriptionFromHtml with
      | Some s => Some s
      | None => descriptionFromJsonLd
      end in
    let description :=
      match description with
      | Some s => Ret (Some s)
      | None =>
          match fallbackSection doc with
          | Some s => Ret (Some s)
          | None => viaPage doc
          end
      end in
    match description with
    | Throw message => caught message
    | Ret None => NoContent
    | Ret (Some description) =>
        let structured (field : Candidate -> string) : string :=
          match jsonLdJob doc with
          | Some c => field c
          | None => ""
          end in
        Described
          {| FullDesc.descriptionHtml := descHtml description;
             FullDesc.descriptionText := descText description;
             FullDesc.experience :=
               firstOf (experienceText doc) (structured candExperience);
             FullDesc.salary := firstOf (salaryText doc) (structured candSalary);
             FullDesc.jobType := firstOf (jobTypeText doc) (structured candJobType);
             FullDesc.title := orNull (structured candTitle);
             FullDesc.company := orNull (structured candCompany);
             FullDesc.location := orNull (structured candLocation);
             FullDesc.postedDate := orNull (structured candPostedDate);
             FullDesc.tags := orNull (structured candTags);
             FullDesc.jobId := orNull (structured candJobId) |}
    end.

Definition afterBody (f : Fetch) (body : string) : FetchResult :=
  match load f body with
  | Ret doc => analyse doc
  | Throw message => caught message
  end.

(** The [catch (httpErr)] branch: the request through the browser session. *)
Definition viaSession (f : Fetch) : FetchResult :=
  match session f with
  | Failed message => caught message
  | Responded status body =>
      if isBlockStatus status then Blocked
      else if negb (status =? 200) then NoContent
      else afterBody f body
  end.

Definition fetchFullDescription (f : Fetch) : FetchResult :=
  match fast f with
  | Failed _ => viaSession f
  | Responded status body =>
      (* [throw new Error(`blocked_http_${status}`)], caught just below *)
      if isBlockStatus status then viaSession f
      else if negb (status =? 200) then NoContent
      else afterBody f body
  end.

End DetailHttp.

(** ** Detail-page enrichment (merge step) *)

Module Enrich.

(** [src/main.js], [enrichJobsWithFullDescriptions]: the object spread that
    replaces the two description fields. *)
Definition withDescription (job : Job.t) (d : FullDesc.t) : Job.t :=
  {| Job.title := Job.title job;
     Job.company := Job.company job;
     Job.location := Job.location job;
     Job.salary := Job.salary job;
     Job.experience := Job.experience job;
     Job.jobType := Job.jobType job;
     Job.postedDate := Job.postedDate job;
     Job.descriptionHtml := FullDesc.descriptionHtml d;
     Job.descriptionText := FullDesc.descriptionText d;
     Job.url := Job.url job;
     Job.tags := Job.tags job;
     Job.jobId := Job.jobId job;
     Job.scrapedAt := Job.scrapedAt job |}.

(** One iteration of the sequential loop of [src/main.js]: the record pushed
    to [enrichedJobs] and whether [blockedCount] was incremented. *)
Definition enrichJob (fetchFullDescription : string -> FetchResult)
    (job : Job.t) : Job.t * bool :=
  if negb (Js.truthy (Job.url job)) then (job, false)
  else
    match fetchFullDescription (Job.url job) with
    | Blocked => (job, true)
    | Described d =>
        if Js.truthy (FullDesc.descriptionText d)
        then (withDescription job d, false)
        else (job, false)
    | NoContent => (job, false)
    end.

(** The loop: [enrichedJobs] in batch order and the final [blockedCount]. *)
Fixpoint enrichLoop (fetchFullDescription : string -> FetchResult)
    (jobs : list Job.t) : list Job.t * Z :=
  match jobs with
  | [] => ([], 0)
  | job :: rest =>
      let '(j, blocked) := enrichJob fetchFullDescription job in
      let '(js, blockedCount) := enrichLoop fetchFullDescription rest in
      (j :: js, if blocked then blockedCount + 1 else blockedCount)
  end.

Definition enrichJobsWithFullDescriptions
    (fetchFullDescription : string -> FetchResult)
    (jobs : list Job.t) (fullPageDetails : bool) : list Job.t * Z :=
  match jobs with
  | [] => (jobs, 0)
  | _ => if negb fullPageDetails then (jobs, 0)
         else enrichLoop fetchFullDescription jobs
  end.

End Enrich.

(** The older variant of the enricher (HTTP fast path, batches resolved with
    [Promise.all]): a field-by-field merge. *)
Module EnrichHttp.

(** The object literal [{ ...job, title: fullDesc.title || job.title, ... }]. *)
Definition merge (job : Job.t) (d : FullDesc.t) : Job.t :=
  {| Job.title := Js.or_else (FullDesc.title d) (Job.title job);
     Job.company := Js.or_else (FullDesc.company d) (Job.company job);
     Job.location := Js.or_else (FullDesc.location d) (Job.location job);
     Job.salary := Js.or_else (FullDesc.salary d) (Job.salary job);
     Job.experience := Js.or_else (FullDesc.experience d) (Job.experience job);
     Job.jobType := Js.or_else (FullDesc.jobType d) (Job.jobType job);
     Job.postedDate := Js.or_else (FullDesc.postedDate d) (Job.postedDate job);
     Job.descriptionHtml :=
       Js.or_else (Some (FullDesc.descriptionHtml d)) (Job.descriptionHtml job);
     Job.descriptionText :=
       Js.or_else (Some (FullDesc.descriptionText d)) (Job.descriptionText job);
     Job.url := Job.url job;
     Job.tags := Js.or_elseO (FullDesc.tags d) (Job.tags job);
     Job.jobId := Js.or_elseO (FullDesc.jobId d) (Job.jobId job);
     Job.scrapedAt := Job.scrapedAt job |}.

(** The body of [batch.map(async (job) => ...)]. *)
Definition enrichJob (fetchFullDescription : string -> FetchResult)
    (job : Job.t) : Job.t * bool :=
  if negb (Js.truthy (Job.url job)) then (job, false)
  else
    match fetchFullDescription (Job.url job) with
    | Blocked => (job, true)
    | Described d =>
        if Js.truthy (FullDesc.descriptionText d)
           || Js.truthy (FullDesc.descriptionHtml d)
        then (merge job d, false)
        else (job, false)
    | NoContent => (job, false)
    end.

(** [Promise.all] keeps the order of the batch, and the batches are appended
    in order, so the result is a map over [jobs]; [blockedCount] counts the
    blocked fetches. *)
Fixpoint enrichAll (fetchFullDescription : string -> FetchResult)
    (jobs : list Job.t) : list Job.t * Z :=
  match jobs with
  | [] => ([], 0)
  | job :: rest =>
      let '(j, blocked) := enrichJob fetchFullDescription job in
      let '(js, blockedCount) := enrichAll fetchFullDescription rest in
      (j :: js, if blocked then blockedCount + 1 else blockedCount)
  end.

Definition enrichJobsWithFullDescriptions
    (fetchFullDescription : string -> FetchResult)
    (jobs : list Job.t) : list Job.t * Z :=
  match jobs with
  | [] => (jobs, 0)
  | _ => enrichAll fetchFullDescription jobs
  end.

End EnrichHttp.


(** ** The markup extractor *)

Module Markup.

(** The DOM query capability the extractor is given ([cheerio]): selections
    are lists of elements in document order. *)
Record Dom := mkDom {
  El : Type;
  select : string -> list El;            (* [$(selector)] *)
  find : El -> string -> list El;        (* [$(el).find(selector)] *)
  text : El -> string;                   (* [.text()] *)
  attr : El -> string -> option string;  (* [.attr(name)] *)
  closest : El -> string -> option El;   (* [.closest(selector)] *)
  parent : El -> option El;              (* [.parent()] *)
  (* [.clone()], [.find(inner).remove()], then [.text()] / [.html()] *)
  textWithout : list El -> string -> string;
  htmlWithout : list El -> string -> option string;
  now : string                           (* [new Date().toISOString()] *)
}.

Arguments select {_}. Arguments find {_}. Arguments text {_}.
Arguments attr {_}. Arguments closest {_}. Arguments parent {_}.
Arguments textWithout {_}. Arguments htmlWithout {_}.

Section Extract.
Context {dom : Dom}.

(** A selection of at most one element; [None] is the empty selection. *)
Definition findIn (el : option (El dom)) (sel : string) : list (El dom) :=
  match el with
  | Some e => find e sel
  | None => []
  end.

Definition attrOf (el : option (El dom)) (name : string) : option string :=
  match el with
  | Some e => attr e name
  | None => None
  end.

(** The selector cascade of a text field: the trimmed text of the first
    element of the first selector whose first element has text. *)
Fixpoint firstText (el : option (El dom)) (sels : list string) : option string :=
  match sels with
  | [] => None
  | sel :: rest =>
      match findIn el sel with
      | e :: _ =>
          if Js.truthy (Js.trim (text e)) then Some (Js.trim (text e))
          else firstText el rest
      | [] => firstText el rest
      end
  end.

Definition origin : string := "https://www.naukri.com".

Definition absolute (href : string) : string :=
  if Js.startsWith href "http" then href else origin ++ href.

(** The URL cascade: the [href] of the first element of the first selector
    whose first element has one. *)
Fixpoint firstHref (el : option (El dom)) (sels : list string) : string :=
  match sels with
  | [] => ""
  | sel :: rest =>
      match findIn el sel with
      | e :: _ =>
          if Js.truthyO (attr e "href")
          then absolute (default "" (attr e "href"))
          else firstHref el rest
      | [] => firstHref el rest
      end
  end.

(** [($(a).text() || $(a).attr('title') || '').trim()]. *)
Definition linkTitle (a : El dom) : string :=
  Js.trim (if Js.truthy (text a) then text a
           else Js.or_else (attr a "title") "").

(** The scan of [$el.find('a[href]')] for a job-listing link: the URL and
    the title read from the first such link. *)
Fixpoint anchorScan (anchors : list (El dom)) : option (string * string) :=
  match anchors with
  | [] => None
  | a :: rest =>
      let href := Js.trim (Js.or_else (attr a "href") "") in
      if negb (Js.truthy href) then anchorScan rest
      else if negb (Js.includes href "job-listings")
              && negb (Js.startsWith href "/job-listings")
      then anchorScan rest
      else Some (absolute href, linkTitle a)
  end.

Definition titleSelectors : list string :=
  [ Js.dq ["a[href*="; "job-listings"; "]"]; Js.dq ["a[href^="; "/job-listings"; "]"];
    "a.title, .title a"; "a.subtitle, .subtitle a"; Js.dq ["a[class*="; "title"; "]"];
    "h2 a, h3 a"; ".row1 a" ].

Definition urlSelectors : list string :=
  [ Js.dq ["a[href*="; "job-listings"; "]"]; Js.dq ["a[href^="; "/job-listings"; "]"];
    "a.title"; "a.subtitle"; Js.dq ["a[class*="; "title"; "]"]; "h2 a, h3 a"; ".row1 a" ].

Definition companySelectors : list string :=
  [ ".comp-name, .companyInfo"; "a.comp-name"; ".company-name";
    Js.dq ["a[class*="; "company"; "]"]; ".row2 a"; Js.dq ["span[class*="; "comp"; "]"];
    Js.dq ["a[href*="; "company"; "]"] ].

Definition locationSelectors : list string :=
  [ ".loc-wrap .location, .location"; ".locWdth"; Js.dq ["span[class*="; "location"; "]"];
    ".row3 .location"; Js.dq ["[class*="; "loc"; "]"] ].

Definition expSelectors : list string :=
  [ ".exp-wrap .exp, .experience"; Js.dq ["span[class*="; "exp"; "]"]; ".row4 .exp" ].

Definition salarySelectors : list string :=
  [ ".sal-wrap .salary, .salary"; Js.dq ["span[class*="; "sal"; "]"]; ".row5 .salary" ].

Definition dateSelectors : list string :=
  [ ".job-post-day, .date"; Js.dq ["span[class*="; "date"; "]"];
    Js.dq ["span[class*="; "posted"; "]"]; ".postedDate" ].

(** The [fallback] argument: [{}] or [{ title, url }]. *)
Record Fallback := mkFallback { fbTitle : string; fbUrl : string }.
Definition noFallback : Fallback := {| fbTitle := ""; fbUrl := "" |}.

(** The first part of [extractJobFromElement]: the title and the URL found
    for the card, after the selector cascades, the link scan, the [data-]
    attributes and the values handed over by the caller. *)
Definition titleAndUrl (el : option (El dom)) (fallback : Fallback)
    : string * string :=
  let title := default "" (firstText el titleSelectors) in
  let url := firstHref el urlSelectors in
  let '(url, title) :=
    if negb (Js.truthy url) then
      match anchorScan (findIn el "a[href]") with
      | Some (u, t) => (u, if negb (Js.truthy title) then t else title)
      | None => (url, title)
      end
    else (url, title) in
  let url :=
    if negb (Js.truthy url) then
      let dataHref :=
        Js.trim
          (if Js.truthyO (attrOf el "data-href")
           then default "" (attrOf el "data-href")
           else if Js.truthyO (attrOf el "data-url")
           then default "" (attrOf el "data-url")
           else Js.or_else (attrOf el "data-jdurl") "") in
      if Js.truthy dataHref then absolute dataHref else url
    else url in
  let title :=
    if negb (Js.truthy title) && Js.truthy (fbTitle fallback)
    then fbTitle fallback else title in
  let url :=
    if negb (Js.truthy url) && Js.truthy (fbUrl fallback)
    then fbUrl fallback else url in
  (title, url).

Definition extractJobFromElement (el : option (El dom)) (fallback : Fallback)
    : option Job.t :=
  let '(title, url) := titleAndUrl el fallback in
  let company := default "" (firstText el companySelectors) in
  let location := default "" (firstText el locationSelectors) in
  let experience := default "Not specified" (firstText el expSelectors) in
  let salary := default "Not specified" (firstText el salarySelectors) in
  let descEl := findIn el ".job-desc, .desc, .job-description, .snippet" in
  let snippet := Js.trim (textWithout descEl ".similar-jobs, .related-jobs") in
  let snippetHtml :=
    match htmlWithout descEl ".similar-jobs, .related-jobs" with
    | Some h => Js.trim h
    | None => ""
    end in
  let postedDate := default "" (firstText el dateSelectors) in
  if Js.truthy title || Js.truthy url then
    Some {| Job.title := if Js.truthy title then title else "Unknown Title";
            Job.company := company;
            Job.location := location;
            Job.salary := salary;
            Job.experience := experience;
            Job.jobType := "Not specified";
            Job.postedDate := postedDate;
            Job.descriptionHtml := snippetHtml;
            Job.descriptionText := snippet;
            Job.url := url;
            Job.tags := None;
            Job.jobId := None;
            Job.scrapedAt := now dom |}
  else None.

(** The accumulator of the extractor: [seenUrls] and [jobs]. *)
Definition Acc : Type := gset string * list Job.t.

(** [if (job && job.url && !seenUrls.has(job.url)) { seenUrls.add(job.url);
    jobs.push(job); }]. *)
Definition pushJob (acc : Acc) (job : option Job.t) : Acc :=
  match job with
  | Some j =>
      if Js.truthy (Job.url j) && negb (bool_decide (Job.url j ∈ acc.1))
      then ({[Job.url j]} ∪ acc.1, acc.2 ++ [j])
      else acc
  | None => acc
  end.

Definition tupleSelector : string :=
  Js.dq ["article.jobTuple,div.srp-tuple,div.jobCard,article[data-job-id],div[class*="; "tuple"; "],article[class*="; "tuple"; "]"].

Definition nestedTupleSelector : string :=
  Js.dq ["article.jobTuple, div.srp-tuple, div.jobCard, article[data-job-id], div[class*="; "tuple"; "], article[class*="; "tuple"; "]"].

Definition fallbackSelectors : list string :=
  [ Js.dq ["article[class*="; "job"; "]"]; Js.dq ["div[class*="; "jobTuple"; "]"];
    Js.dq ["div[class*="; "srp"; "]"]; "article.row" ].

Definition linkSelector : string :=
  Js.dq ["a[href*="; "job-listings"; "], a[href^="; "/job-listings"; "]"].

(** The cards examined for one fallback container: the tuples nested in it
    if there are any, the container itself otherwise. *)
Definition cardsOf (container : El dom) : list (El dom) :=
  match find container nestedTupleSelector with
  | [] => [container]
  | tuples => tuples
  end.

Definition extractCard (card : El dom) : option Job.t :=
  extractJobFromElement (Some card) noFallback.

(** [elements.each(...)] over the containers matched by one selector. *)
Definition pushContainers (acc : Acc) (containers : list (El dom)) : Acc :=
  foldl (fun acc container =>
           foldl pushJob acc (map extractCard (cardsOf container)))
        acc containers.

(** [for (const selector of fallbackSelectors)], left as soon as [jobs] is
    not empty. *)
Fixpoint fallbackLoop (acc : Acc) (sels : list string) : Acc :=
  match sels with
  | [] => acc
  | sel :: rest =>
      match select sel with
      | [] => fallbackLoop acc rest
      | containers =>
          let acc' := pushContainers acc containers in
          match acc'.2 with
          | [] => fallbackLoop acc' rest
          | _ => acc'
          end
      end
  end.

(** The record built for one job-listing link (link-climbing fallback). *)
Definition extractLink (link : El dom) (absoluteUrl : string) : option Job.t :=
  let container :=
    match closest link "article, div" with
    | Some c => Some c
    | None => parent link
    end in
  extractJobFromElement container
    {| fbTitle := linkTitle link; fbUrl := absoluteUrl |}.

(** One iteration of [for (const el of jobLinkEls)]. *)
Definition pushLink (acc : Acc) (link : El dom) : Acc :=
  let href := Js.or_else (attr link "href") "" in
  if negb (Js.truthy href) then acc
  else
    let absoluteUrl := absolute href in
    if bool_decide (absoluteUrl ∈ acc.1) then acc
    else pushJob acc (extractLink link absoluteUrl).

Definition extractJobDataViaHTML : list Job.t :=
  let start : Acc := (∅, []) in
  let acc :=
    match select tupleSelector with
    | [] => fallbackLoop start fallbackSelectors
    | jobElements => foldl pushJob start (map extractCard jobElements)
    end in
  let acc :=
    match acc.2 with
    | [] => foldl pushLink acc (select linkSelector)
    | _ => acc
    end in
  acc.2.

End Extract.

Arguments extractJobDataViaHTML : clear implicits.
Arguments Acc : clear implicits.

(** *** What the extractor is said to keep

    Of the candidate records that carry a URL, the first one with each URL,
    in the order met. *)

Definition withUrl (cands : list (option Job.t)) : list Job.t :=
  filter (fun j => Job.url j <> "") (omap id cands).

Fixpoint firstByUrl (jobs : list Job.t) : list Job.t :=
  match jobs with
  | [] => []
  | j :: rest =>
      j :: filter (fun j' => Job.url j' <> Job.url j) (firstByUrl rest)
  end.

Definition keptFrom (cands : list (option Job.t)) : list Job.t :=
  firstByUrl (withUrl cands).

(** On the link-climbing path two URLs are read for each link: its own,
    and that of the record built from its container.  A record is kept
    unless one of the two is the URL of a record kept before ([kept]). *)
Fixpoint firstByLink (kept : list string) (pairs : list (string * Job.t))
    : list Job.t :=
  match pairs with
  | [] => []
  | (linkUrl, j) :: rest =>
      if bool_decide (linkUrl ∈ kept) || bool_decide (Job.url j ∈ kept)
      then firstByLink kept rest
      else j :: firstByLink (Job.url j :: kept) rest
  end.

(** Every record carries the URL of its link, or the URL of the record of
    an earlier link.  (So it is in a document: the URL read in the
    container of a link is that of the first job link of the container,
    which is the link itself or comes before it.) *)
Definition urlsFollowLinks (pairs : list (string * Job.t)) : Prop :=
  forall before p after,
    pairs = before ++ p :: after ->
    Job.url p.2 = p.1 \/ Job.url p.2 ∈ map (fun q => Job.url q.2) before.

Section Candidates.
Context {dom : Dom}.

(** The candidates of the primary path, of one fallback selector, and of the
    link-climbing path. *)
Definition primaryCandidates : list (option Job.t) :=
  map extractCard (select (d:=dom) tupleSelector).

Definition fallbackCandidates (sel : string) : list (option Job.t) :=
  flat_map (fun container => map extractCard (cardsOf container))
           (select (d:=dom) sel).

Definition linkCandidates : list (option Job.t) :=
  flat_map (fun link =>
              let href := Js.or_else (attr link "href") "" in
              if Js.truthy href then [extractLink link (absolute href)] else [])
           (select (d:=dom) linkSelector).

(** The links that have an [href], each with its absolute URL and the
    record built for it, when that record carries a URL. *)
Definition linkPairs : list (string * Job.t) :=
  flat_map (fun link =>
              let href := Js.or_else (attr link "href") "" in
              if Js.truthy href then
                match extractLink link (absolute href) with
                | Some j =>
                    if Js.truthy (Job.url j) then [(absolute href, j)] else []
                | None => []
                end
              else [])
           (select (d:=dom) linkSelector).

End Candidates.

Arguments primaryCandidates : clear implicits.
Arguments fallbackCandidates : clear implicits.
Arguments linkCandidates : clear implicits.
Arguments linkPairs : clear implicits.

Section CardStep.
Context {dom : Dom}.

(** The candidates of the card-based step: the primary cards when the
    primary selector group matches anything, else the cards of the first
    fallback selector that yields a record. *)
Definition cardCandidates : list (option Job.t) :=
  match select (d:=dom) tupleSelector with
  | [] =>
      match list_find (fun sel => keptFrom (fallbackCandidates dom sel) <> [])
                      fallbackSelectors with
      | Some (_, sel) => fallbackCandidates dom sel
      | None => []
      end
  | _ => primaryCandidates dom
  end.

End CardStep.

Arguments cardCandidates : clear implicits.

End Markup.

(** ** The page handler: de-duplication, quota and pagination *)

Module Crawler.

(** The module-scope counters and the seen-URL set. *)
Record RunState := mkState {
  totalJobsScraped : Z;
  pagesProcessed : Z;
  extractionMethod : string;
  seenJobUrls : gset string
}.

Definition initialState : RunState :=
  {| totalJobsScraped := 0; pagesProcessed := 0;
     extractionMethod := "None"; seenJobUrls := ∅ |}.

(** The parts of [new URL(page.url())] the handler reads. *)
Record Location := mkLocation {
  pathname : string;
  pageNoParam : option string      (* [searchParams.get('pageNo')] *)
}.

(** Everything one invocation of the handler obtains from the browser page. *)
Record Page := mkPage {
  navigationOk : bool;                     (* [navigateWithRetry] returned *)
  probe : nat -> string * string;          (* title and body text at the i-th check *)
  currentUrl : Location;
  dom : Markup.Dom;                        (* [cheerio.load(await page.content())] *)
  jsonLdJobs : list Job.t;                 (* [extractJobsViaJsonLD(page)] *)
  detailTab : string -> Detail.Tab          (* the tab opened for a detail URL *)
}.

(** What the handler did: the new counters, the batch given to
    [Actor.pushData] (empty when it was not called) and the page number of
    the request given to [crawler.addRequests], if any. *)
Record Handled := mkHandled {
  state : RunState;
  pushed : list Job.t;
  queued : option Z
}.

Definition maxRetries : nat := 3.

Definition isChallenge (title bodyText : string) : bool :=
  Js.includes title "Just a moment"
  || Js.includes title "Cloudflare"
  || Js.includes title "Security check"
  || Js.includes bodyText "unusual traffic"
  || Js.includes bodyText "Checking your browser".

(** The [while (retryCount < maxRetries)] loop; [fuel] is the number of
    iterations left, the result is the final [retryCount]. *)
Fixpoint challengeLoop (probe : nat -> string * string) (fuel retryCount : nat) : nat :=
  match fuel with
  | O => retryCount
  | S fuel' =>
      let '(title, bodyText) := probe retryCount in
      if isChallenge title bodyText
      then challengeLoop probe fuel' (S retryCount)
      else retryCount
  end.

(** The page number read from the loaded URL. *)
Definition currentPageNo (u : Location) : Z :=
  let param := match pageNoParam u with Some s => s | None => "" end in
  let n :=
    match Js.parseInt (if Js.truthy param then param else "1") with
    | Some n => if n <? 1 then 1 else n
    | None => 1
    end in
  if negb (Js.truthy param) then
    match Js.matchPageSuffix (Js.stripTrailingSlash (pathname u)) with
    | Some (_, digits) =>
        match Js.parseInt digits with
        | Some m => if 1 <=? m then m else n
        | None => n
        end
    | None => n
    end
  else n.

(** [jobsToSave.filter(job => ...)] with its side effect on [seenJobUrls]:
    the set after the call and the records kept. *)
Fixpoint filterUnique (seen : gset string) (jobs : list Job.t)
    : gset string * list Job.t :=
  match jobs with
  | [] => (seen, [])
  | job :: rest =>
      if negb (Js.truthy (Job.url job)) then
        let '(seen', kept) := filterUnique seen rest in (seen', job :: kept)
      else if bool_decide (Job.url job ∈ seen) then filterUnique seen rest
      else
        let '(seen', kept) := filterUnique ({[Job.url job]} ∪ seen) rest in
        (seen', job :: kept)
  end.

Definition len {A} (l : list A) : Z := Z.of_nat (length l).

(** [Math.ceil(maxJobs / 20)], or the fixed cap when there is no quota. *)
Definition maxPages (maxJobs : Z) : Z :=
  if maxJobs =? 0 then 50 else Js.ceil_div maxJobs 20.

(** The pagination decision taken after the batch was saved. *)
Definition nextRequest (maxJobs total pageNo saved : Z) : option Z :=
  if (0 <? maxJobs) && (maxJobs <=? total) then None
  else if (maxJobs =? 0) || (total <? maxJobs) then
    let nextPageNo := pageNo + 1 in
    if (nextPageNo <=? maxPages maxJobs) && (0 <? saved)
    then Some nextPageNo
    else None
  else None.

(** Strategy 1 (markup), then strategy 2 (structured data): the candidate
    records of the page and the label of the method that found them. *)
Definition extractJobs (page : Page) : list Job.t * option string :=
  match Markup.extractJobDataViaHTML (dom page) with
  | (_ :: _) as jobs => (jobs, Some "HTML Parsing (Cheerio)")
  | [] =>
      match jsonLdJobs page with
      | (_ :: _) as jobs => (jobs, Some "JSON-LD")
      | [] => ([], None)
      end
  end.

Definition requestHandler (maxJobs : Z) (fullPageDetails : bool)
    (st : RunState) (page : Page) : Handled :=
  let processed := pagesProcessed st + 1 in
  let stopped method :=
    {| state := {| totalJobsScraped := totalJobsScraped st;
                   pagesProcessed := processed;
                   extractionMethod := method;
                   seenJobUrls := seenJobUrls st |};
       pushed := []; queued := None |} in
  if negb (navigationOk page) then stopped (extractionMethod st)
  else if (maxRetries <=? challengeLoop (probe page) maxRetries 0)%nat
  then stopped (extractionMethod st)
  else
    let pageNo := currentPageNo (currentUrl page) in
    let '(jobs, found) := extractJobs page in
    let method := default (extractionMethod st) found in
    match jobs with
    | [] => stopped method
    | _ :: _ =>
        let jobsToSave :=
          if 0 <? maxJobs
          then take (Z.to_nat (Z.max 0 (maxJobs - totalJobsScraped st))) jobs
          else jobs in
        let '(seen, uniqueJobs) := filterUnique (seenJobUrls st) jobsToSave in
        let jobsToSave :=
          if (0 <? len uniqueJobs) && fullPageDetails
          then fst (Enrich.enrichJobsWithFullDescriptions
                      (fun jobUrl => Detail.fetchFullDescription (detailTab page jobUrl))
                      uniqueJobs fullPageDetails)
          else uniqueJobs in
        let total :=
          if 0 <? len jobsToSave
          then totalJobsScraped st + len jobsToSave
          else totalJobsScraped st in
        {| state := {| totalJobsScraped := total;
                       pagesProcessed := processed;
                       extractionMethod := method;
                       seenJobUrls := seen |};
           pushed := jobsToSave;
           queued := nextRequest maxJobs total pageNo (len jobsToSave) |}
    end.

(** [maxRequestsPerCrawl]. *)
Definition maxRequestsPerCrawl (maxJobs : Z) : Z :=
  Z.min 200 (if maxJobs =? 0 then 200 else Js.ceil_div maxJobs 20 + 5).

(** A finished run: the final counters, the batches pushed (oldest first)
    and the number of page requests handled. *)
Record Run := mkRun {
  final : RunState;
  batches : list (list Job.t);
  requests : Z
}.

(** The crawl: [pages] are the pages the site serves for the start URL and
    for each request queued after it, in order.  The crawler opens at most
    [budget] pages and stops when the queue is empty. *)
Fixpoint crawlFrom (maxJobs : Z) (fullPageDetails : bool) (budget : nat)
    (st : RunState) (pages : list Page) : Run :=
  match budget, pages with
  | S budget', page :: rest =>
      let h := requestHandler maxJobs fullPageDetails st page in
      match queued h with
      | Some _ =>
          let r := crawlFrom maxJobs fullPageDetails budget' (state h) rest in
          {| final := final r;
             batches := pushed h :: batches r;
             requests := 1 + requests r |}
      | None =>
          {| final := state h; batches := [pushed h]; requests := 1 |}
      end
  | _, _ => {| final := st; batches := []; requests := 0 |}
  end.

Definition crawl (maxJobs : Z) (fullPageDetails : bool) (pages : list Page) : Run :=
  crawlFrom maxJobs fullPageDetails
    (Z.to_nat (maxRequestsPerCrawl maxJobs)) initialState pages.

(** The handler applied to a sequence of pages, whatever queued them: the
    state after the last call and the batches pushed, oldest first. *)
Fixpoint handleAll (maxJobs : Z) (fullPageDetails : bool)
    (st : RunState) (pages : list Page) : RunState * list (list Job.t) :=
  match pages with
  | [] => (st, [])
  | page :: rest =>
      let h := requestHandler maxJobs fullPageDetails st page in
      let '(st', bs) := handleAll maxJobs fullPageDetails (state h) rest in
      (st', pushed h :: bs)
  end.

(** The non-empty URLs of a list of records, in order. *)
Definition urlsOf (jobs : list Job.t) : list string :=
  filter (fun u => u <> "") (map Job.url jobs).

(** The pages of a run carry consecutive page numbers starting at [p]: the
    URL loaded for each queued request reads back as the page number the
    request was queued for. *)
Fixpoint numberedFrom (p : Z) (pages : list Page) : Prop :=
  match pages with
  | [] => True
  | page :: rest =>
      currentPageNo (currentUrl page) = p /\ numberedFrom (p + 1) rest
  end.

End Crawler.




(** ** The next-page URL built by the handler *)

Module NextPage.
Import Crawler.

(** [u.pathname = path] on an http(s) URL: the path of such a URL always
    begins with a slash.  The text assigned below is a path the parser has
    already produced, cut at its end and followed by a hyphen and digits,
    so nothing in it is re-encoded. *)
Definition setPathname (path : string) : string :=
  if Js.startsWith path "/" then path else "/" +:+ path.

(** [u.pathname.replace(/\/$/, '').replace(/-(\d+)$/, '')]. *)
Definition basePath (pathname : string) : string :=
  let stripped := Js.stripTrailingSlash pathname in
  match Js.matchPageSuffix stripped with
  | Some (before, _) => before
  | None => stripped
  end.

(** The fallback of the handler, used when the page shows no "Next" link:
    [new URL(request.url)] without its [pageNo] parameter and with the
    path [`${basePath}-${nextPageNo}`]. *)
Definition fallbackUrl (request : Location) (nextPageNo : Z) : Location :=
  {| pathname :=
       setPathname (basePath (pathname request) +:+ "-" +:+ pretty nextPageNo);
     pageNoParam := None |}.

End NextPage.

(** ** Start-up: the input and the search URL *)

Module Start.

(** The actor input, as far as the start-up reads it; an absent property
    is [None]. *)
Record Input := mkInput {
  searchUrl : option string;
  searchQuery : option string;
  location : option string;
  experience : option string;
  jobType : option string;
  maxJobs : option Z
}.

(** [!v?.trim()]. *)
Definition blank (v : option string) : bool :=
  match v with
  | Some s => negb (Js.truthy (Js.trim s))
  | None => true
  end.

(** The two checks made before the crawler is built: the quota of the run,
    or the error thrown. *)
Definition validate (input : Input) : Json.res Z :=
  if blank (searchUrl input) && blank (searchQuery input) then
    Json.Throw
      (Js.dq ["Invalid input: Either provide a "; "searchUrl"; " OR provide a ";
              "searchQuery"; ""])
  else
    let maxJobs := default 20 (maxJobs input) in
    if (maxJobs <? 0) || (10000 <? maxJobs)
    then Json.Throw "maxJobs must be between 0 and 10000"
    else Json.Ret maxJobs.

(** [s.replace(/\s+/g, '-')]: every run of white space becomes one hyphen. *)
Fixpoint dashSpaces (afterSpace : bool) (s : list ascii) : list ascii :=
  match s with
  | [] => []
  | c :: rest =>
      if Js.isSpace c then
        if afterSpace then dashSpaces true rest
        else "-"%char :: dashSpaces true rest
      else c :: dashSpaces false rest
  end.

Definition dashed (s : string) : string :=
  string_of_list_ascii (dashSpaces false (list_ascii_of_string s)).

(** [s.toLowerCase().trim().replace(/\s+/g, '-')]. *)
Definition slug (s : string) : string := dashed (Js.trim (Js.toLowerCase s)).

(** [URLSearchParams.prototype.toString]: the bytes of the UTF-8 text,
    letters, digits and [* - . _] as they are, a space as [+], any other
    byte as [%] and two upper-case hexadecimal digits. *)
Definition isAlphanumeric (c : ascii) : bool :=
  let n := nat_of_ascii c in
  Js.isDigit c
  || ((65 <=? n)%nat && (n <=? 90)%nat)
  || ((97 <=? n)%nat && (n <=? 122)%nat).

Definition isUnreserved (c : ascii) : bool :=
  isAlphanumeric c
  || Ascii.eqb c "*" || Ascii.eqb c "-" || Ascii.eqb c "." || Ascii.eqb c "_".

Definition hexDigit (n : nat) : ascii :=
  nth n (list_ascii_of_string "0123456789ABCDEF") "0"%char.

Definition formEncodeChar (c : ascii) : list ascii :=
  if Ascii.eqb c " " then ["+"%char]
  else if isUnreserved c then [c]
  else
    let n := nat_of_ascii c in
    ["%"%char; hexDigit (n / 16); hexDigit (n mod 16)].

Definition formEncode (s : string) : string :=
  string_of_list_ascii (flat_map formEncodeChar (list_ascii_of_string s)).

Definition serializeParams (params : list (string * string)) : string :=
  String.concat "&"
    (map (fun p => formEncode (fst p) +:+ "=" +:+ formEncode (snd p)) params).

(** [if (input.x && input.x !== 'all') params.append(name, input.x)]. *)
Definition filterParam (name : string) (v : option string)
    : list (string * string) :=
  match v with
  | Some s => if Js.truthy s && negb (String.eqb s "all") then [(name, s)] else []
  | None => []
  end.

Definition buildSearchUrl (input : Input) : string :=
  if Js.truthyO (searchUrl input)
     && Js.truthy (Js.trim (default "" (searchUrl input)))
  then Js.trim (default "" (searchUrl input))
  else
    let query := slug (Js.or_else (searchQuery input) "sales") in
    let locationRaw := Js.trim (Js.toLowerCase (Js.or_else (location input) "")) in
    let location := if Js.truthy locationRaw then dashed locationRaw else "" in
    let baseUrl :=
      if Js.truthy location
      then "https://www.naukri.com/" +:+ query +:+ "-jobs-in-" +:+ location
      else "https://www.naukri.com/" +:+ query +:+ "-jobs" in
    let queryString :=
      serializeParams (filterParam "experience" (experience input)
                       ++ filterParam "jobType" (jobType input)) in
    if Js.truthy queryString then baseUrl +:+ "?" +:+ queryString else baseUrl.

(** The start of the run: the quota and the URL given to [crawler.run]. *)
Definition start (input : Input) : Json.res (Z * string) :=
  Json.bind (validate input) (fun maxJobs =>
  Json.Ret (maxJobs, buildSearchUrl input)).

End Start.

(** ** What enrichment may do to one record *)

Module Batch.

(** [src/main.js]: the record is returned as it is, or with the two
    description fields of a fetch of its own URL that found a text. *)
Definition replaced (fetch : string -> FetchResult) (job out : Job.t) : Prop :=
  out = job
  \/ exists d, Job.url job <> ""
               /\ fetch (Job.url job) = Described d
               /\ FullDesc.descriptionText d <> ""
               /\ out = Enrich.withDescription job d.

(** The HTTP variant: the record is returned as it is, or merged with what
    a fetch of its own URL returned. *)
Definition merged (fetch : string -> FetchResult) (job out : Job.t) : Prop :=
  out = job
  \/ exists d, Job.url job <> ""
               /\ fetch (Job.url job) = Described d
               /\ out = EnrichHttp.merge job d.

End Batch.

(** ** Properties of texts *)

Module Text.

(** [s.trim()] on the characters of [s]. *)
Definition trimL (l : list ascii) : list ascii :=
  rev (Js.dropWhile Js.isSpace (rev (Js.dropWhile Js.isSpace l))).

(** The text contains no white space. *)
Definition noSpace (s : string) : bool :=
  forallb (fun c => negb (Js.isSpace c)) (list_ascii_of_string s).

(** No tag is left in the text: no [<] is followed, anywhere later, by a
    [>] (so [/<[^>]*>/] matches nowhere). *)
Fixpoint tagFreeL (s : list ascii) : bool :=
  match s with
  | [] => true
  | c :: rest =>
      negb (Ascii.eqb c "<" && existsb (Ascii.eqb ">") rest) && tagFreeL rest
  end.

Definition tagFree (s : string) : bool := tagFreeL (list_ascii_of_string s).

(** White space is normalised: every white-space character is a space, and
    none follows another ([afterSpace]: nor opens the text). *)
Fixpoint singleSpacedL (afterSpace : bool) (s : list ascii) : bool :=
  match s with
  | [] => true
  | c :: rest =>
      if Js.isSpace c
      then Ascii.eqb c " " && negb afterSpace && singleSpacedL true rest
      else singleSpacedL false rest
  end.

(** The text neither begins nor ends with white space. *)
Definition trimmedL (l : list ascii) : bool :=
  match l with
  | [] => true
  | c :: _ => negb (Js.isSpace c)
  end
  && match rev l with
     | [] => true
     | c :: _ => negb (Js.isSpace c)
     end.

Definition singleSpaced (s : string) : bool :=
  singleSpacedL false (list_ascii_of_string s)
  && trimmedL (list_ascii_of_string s).

(** A URL that is absent or absolute. *)
Definition httpOrEmpty (u : string) : Prop :=
  u = "" \/ Js.startsWith u "http" = true.

(** A non-empty run of decimal digits. *)
Definition isNumeral (s : string) : bool :=
  match list_ascii_of_string s with
  | [] => false
  | ds => forallb Js.isDigit ds
  end.

(** The four forms of an experience string. *)
Definition experienceShape (r : string) : Prop :=
  r = "Not specified"
  \/ r = "0-1 years"
  \/ (exists n, isNumeral n = true /\ r = n +:+ "+ years")
  \/ (exists lo hi, isNumeral lo = true /\ isNumeral hi = true
                     /\ r = lo +:+ "-" +:+ hi +:+ " years").

(** An expression without capturing group. *)
Fixpoint capFree (r : Regex.re) : bool :=
  match r with
  | Regex.Seq a b | Regex.Alt a b => capFree a && capFree b
  | Regex.Opt a => capFree a
  | Regex.Cap _ => false
  | _ => true
  end.

End Text.


(** ** The parts of the two experience patterns *)

Module ExperienceParts.
Import Regex.

(** [(\d+)] *)
Definition digits : re := Cap (Many 1 Js.isDigit).

(** [[\s]*(?:years?|yrs?)] *)
Definition unit : re := Seq (Many 0 Js.isSpace) yearsWord.

(** [[\s-]+(?:to|-)[\s]*], what separates the two numbers of a range. *)
Definition separator : re :=
  Seq (Many 1 spaceOrDash)
  (Seq (Alt (lit "to") (chr "-"))
  (Seq (Many 0 Js.isSpace) Eps)).

(** [[\s-]+(?:to|-)[\s]*(\d+)[\s]*(?:years?|yrs?)] *)
Definition rangeTail : re :=
  Seq (Many 1 spaceOrDash)
  (Seq (Alt (lit "to") (chr "-"))
  (Seq (Many 0 Js.isSpace)
  (Seq digits unit))).

(** [[\s]*(?:\+)?[\s]*(?:years?|yrs?)] *)
Definition singleTail : re :=
  Seq (Many 0 Js.isSpace)
  (Seq (Opt (chr "+"))
  (Seq (Many 0 Js.isSpace) yearsWord)).

(** The text does not begin with a digit. *)
Definition notDigitHead (s : list ascii) : Prop :=
  match s with
  | [] => True
  | c :: _ => Js.isDigit c = false
  end.

(** The unit that ends the sample texts. *)
Definition years : list ascii := list_ascii_of_string " years".

End ExperienceParts.

(** ** Location and salary of a posting in structured data *)

Module Normalize.
Import Json JsonLd.

(** What [if (v) parts.push(v)] adds. *)
Definition pushIf (v : jsval) : list value :=
  match v with
  | Some x => if truthy v then [x] else []
  | None => []
  end.

(** [items.filter(Boolean)] on the items of an array. *)
Definition filterTruthy (items : list value) : list value :=
  filterBoolean (map Some items).

(** [if (t) locations.push(t)]. *)
Definition pushText (t : string) (locations : list string) : list string :=
  if Js.truthy t then locations ++ [t] else locations.

(** The closure [addLocation]: the [locations] array after the call. *)
Definition addLocation (locations : list string) (loc : value)
    : res (list string) :=
  if negb (truthy (Some loc)) then Ret locations
  else
    match loc with
    | Str s => Ret (pushText (Js.trim s) locations)
    | _ =>
        do a <- get loc "address" ;
        let address := orElse a loc in
        do locality <- get address "addressLocality" ;
        do region <- get address "addressRegion" ;
        do country <- get address "addressCountry" ;
        do first <-
          match locality with
          | Some (Arr items) =>
              do s <- join ", " (filterTruthy items) ; Ret [Str s]
          | _ => Ret (pushIf locality)
          end ;
        let parts := first ++ pushIf region ++ pushIf country in
        do s <- join ", " (filterTruthy parts) ;
        Ret (pushText (Js.trim s) locations)
    end.

(** [jobLocation.forEach(addLocation)]. *)
Fixpoint forEachLocation (locations : list string) (items : list value)
    : res (list string) :=
  match items with
  | [] => Ret locations
  | loc :: rest =>
      do locations <- addLocation locations loc ;
      forEachLocation locations rest
  end.

(** [[...new Set(l)]]: each text once, at the place where it comes
    first. *)
Fixpoint distinctFrom (seen l : list string) : list string :=
  match l with
  | [] => []
  | x :: rest =>
      if bool_decide (x ∈ seen) then distinctFrom seen rest
      else x :: distinctFrom (x :: seen) rest
  end.

Definition distinct (l : list string) : list string := distinctFrom [] l.

Definition normalizeLocationFromJsonLd (jobLocation : jsval) : res string :=
  if negb (truthy jobLocation) then Ret ""
  else
    match jobLocation with
    | Some (Arr items) =>
        do locations <- forEachLocation [] items ;
        Ret (String.concat " | " (distinct locations))
    | Some loc =>
        do locations <- addLocation [] loc ;
        Ret (String.concat " | " (distinct locations))
    | None => Ret ""
    end.

(** [a ?? b] with [b] a value. *)
Definition orDefault (a : jsval) (b : value) : value :=
  match a with
  | Some v => if nullish a then b else v
  | None => b
  end.

(** [min && max ? `${min}-${max}` : `${min}${max ? `-${max}` : ''}`]. *)
Definition rangeText (min max : value) : res string :=
  if truthy (Some min) && truthy (Some max) then
    do a <- toString min ;
    do b <- toString max ;
    Ret (a +:+ "-" +:+ b)
  else
    do a <- toString min ;
    do t <- (if truthy (Some max)
             then do b <- toString max ; Ret ("-" +:+ b)
             else Ret "") ;
    Ret (a +:+ t).

Definition normalizeSalaryFromJsonLd (baseSalary : jsval) : res string :=
  if negb (truthy baseSalary) then Ret ""
  else
    let b := orElse baseSalary Null in
    match b with
    | Str s => Ret (Js.trim s)
    | _ =>
        do value <- get b "value" ;
        match value with
        | Some (Str s) => Ret (Js.trim s)
        | Some v =>
            if truthy value && isObject v then
              do minValue <- get v "minValue" ;
              do inner <- get v "value" ;
              let min := orDefault minValue (orDefault inner (Str "")) in
              do maxValue <- get v "maxValue" ;
              let max := orDefault maxValue (Str "") in
              do c <- get b "currency" ;
              let currency := orDefault c (Str "") in
              do unitText <- get v "unitText" ;
              let unit := orDefault unitText (Str "") in
              do range <- rangeText min max ;
              do s <- join " " (filterTruthy [Str range; currency; unit]) ;
              Ret (Js.trim s)
            else Ret ""
        | None => Ret ""
        end
    end.

(** A piece of a location text: not empty, and trimmed. *)
Definition goodPiece (p : string) : Prop := p <> "" /\ Js.trim p = p.

(** The trimmed texts of a list that are not empty. *)
Definition trimmedNames (names : list string) : list string :=
  List.filter Js.truthy (map Js.trim names).

End Normalize.

(** ** Sample inputs *)

Module Sample.

Definition job (title url : string) : Job.t :=
  {| Job.title := title; Job.company := "Acme"; Job.location := "Mumbai";
     Job.salary := "Not specified"; Job.experience := "2-5 Yrs";
     Job.jobType := "Not specified"; Job.postedDate := "";
     Job.descriptionHtml := ""; Job.descriptionText := "snippet";
     Job.url := url; Job.tags := None; Job.jobId := None;
     Job.scrapedAt := "2025-01-01T00:00:00.000Z" |}.

(** A toy document: every card is an element with a title link; the link
    of a card is the card itself.  Only the selectors used below match. *)
Record Card := mkCard { cardTitle : string; cardHref : option string }.

Definition cardsDom (cards : list Card) : Markup.Dom :=
  {| Markup.El := Card;
     Markup.select := fun sel =>
       if String.eqb sel Markup.tupleSelector then cards else [];
     Markup.find := fun card sel =>
       if String.eqb sel (Js.dq ["a[href*="; "job-listings"; "]"])
       then [card] else [];
     Markup.text := cardTitle;
     Markup.attr := fun card name =>
       if String.eqb name "href" then cardHref card else None;
     Markup.closest := fun _ _ => None;
     Markup.parent := fun _ => None;
     Markup.textWithout := fun _ _ => "snippet";
     Markup.htmlWithout := fun _ _ => None;
     Markup.now := "2025-01-01T00:00:00.000Z" |}.

Definition card (title path : string) : Card :=
  {| cardTitle := title; cardHref := Some path |}.

(** A rendered listing page at [path] with the given cards; detail pages
    have no description. *)
Definition listing (path : string) (cards : list Card) : Crawler.Page :=
  {| Crawler.navigationOk := true;
     Crawler.probe := fun _ => ("Sales Jobs - Naukri.com", "");
     Crawler.currentUrl :=
       {| Crawler.pathname := path; Crawler.pageNoParam := None |};
     Crawler.dom := cardsDom cards;
     Crawler.jsonLdJobs := [];
     Crawler.detailTab := fun _ =>
       {| Detail.title := Json.Ret "Job details";
          Detail.content := Json.Throw "Timeout 25000ms exceeded" |} |}.

(** Two pages numbered 1 and 2. *)
Definition numberedSite : list Crawler.Page :=
  [ listing "/sales-jobs" [card "A" "/job-listings-a"; card "B" "/job-listings-b"];
    listing "/sales-jobs-2" [card "C" "/job-listings-c"] ].

(** A site whose "Next" link carries an offset ([?start=20], [?start=40])
    instead of a page number: every page it serves reads as page 1. *)
Definition offsetSite : list Crawler.Page :=
  [ listing "/sales-jobs" [card "A" "/job-listings-a"];
    listing "/sales-jobs" [card "B" "/job-listings-b"];
    listing "/sales-jobs" [card "C" "/job-listings-c"] ].

(** Structured-data blocks: the parsed values and the texts they come from. *)
Definition posting (title url : string) : Json.value :=
  Json.Obj [("@type", Json.Str "JobPosting");
            ("title", Json.Str title);
            ("url", Json.Str url);
            ("description", Json.Str "<p>3+ years in field sales</p>")].



(** [{"@type":"JobPosting","experienceRequirements":{"monthsOfExperience":30}}] *)
Definition monthsPosting : Json.value :=
  Json.Obj [("@type", Json.Str "JobPosting");
            ("experienceRequirements",
             Json.Obj [("monthsOfExperience", Json.Num (Number.ofZ 30))])].










(** Detail fetches of the HTTP variant. *)
Definition detailDocument : DetailHttp.Document :=
  {| DetailHttp.titleText := "Sales Manager - Acme - Naukri.com";
     DetailHttp.bodyText := "Sales Manager Acme Mumbai";
     DetailHttp.primarySection :=
       Some {| descHtml := "<p>Own the regional sales plan.</p>";
               descText := "Own the regional sales plan." |};
     DetailHttp.jsonLdJob := None;
     DetailHttp.fallbackSection := None;
     DetailHttp.viaPage := Json.Ret None;
     DetailHttp.experienceText := "5 years";
     DetailHttp.salaryText := "";
     DetailHttp.jobTypeText := "" |}.

Definition challengeDocument : DetailHttp.Document :=
  {| DetailHttp.titleText := "Just a moment...";
     DetailHttp.bodyText := "Checking your browser";
     DetailHttp.primarySection := None;
     DetailHttp.jsonLdJob := None;
     DetailHttp.fallbackSection := None;
     DetailHttp.viaPage := Json.Ret None;
     DetailHttp.experienceText := "";
     DetailHttp.salaryText := "";
     DetailHttp.jobTypeText := "" |}.

(** The fast request is answered 403, the session request 200 with the
    real document. *)
Definition fastBlocked : DetailHttp.Fetch :=
  {| DetailHttp.fast := DetailHttp.Responded 403 "";
     DetailHttp.session := DetailHttp.Responded 200 "detail page";
     DetailHttp.load := fun _ => Json.Ret detailDocument |}.

(** Both requests are answered 403. *)
Definition bothBlocked : DetailHttp.Fetch :=
  {| DetailHttp.fast := DetailHttp.Responded 403 "";
     DetailHttp.session := DetailHttp.Responded 403 "";
     DetailHttp.load := fun _ => Json.Ret detailDocument |}.

(** A challenge page served with status 404. *)
Definition challenge404 : DetailHttp.Fetch :=
  {| DetailHttp.fast := DetailHttp.Responded 404 "challenge page";
     DetailHttp.session := DetailHttp.Responded 404 "challenge page";
     DetailHttp.load := fun _ => Json.Ret challengeDocument |}.

(** What the detail page of a card says when it is fetched. *)
Definition detailed : FullDesc.t :=
  {| FullDesc.descriptionHtml := "<p>Own the regional sales plan.</p>";
     FullDesc.descriptionText := "Own the regional sales plan.";
     FullDesc.experience := Some "5 years";
     FullDesc.salary := None;
     FullDesc.jobType := None;
     FullDesc.title := None;
     FullDesc.company := None;
     FullDesc.location := None;
     FullDesc.postedDate := None;
     FullDesc.tags := None;
     FullDesc.jobId := None |}.

End Sample.

(** ** More sample inputs *)

Module Fixtures.

(** A fragment of a job advert, as parsed. *)
Import Html.
Definition advert : list node :=
  [ Elem "div" [("class", "jd")]
      [ Elem "h2" [("style", "color:red")] [Text "Role"];
        Elem "script" [] [Text "track()"];
        Elem "p" [] [Text "Build "; Elem "span" [] [Text "things"];
                     Elem "a" [("href", "/apply"); ("target", "_blank")]
                          [Text "apply"]] ] ].

(** The text of such a fragment, and its sanitised form. *)
Definition advertText : string :=
  "<div class='jd'><h2 style='color:red'>Role</h2><script>track()</script><p>Build things <a href='/apply' target='_blank'>apply</a></p></div>".

Definition advertClean : string :=
  Js.dq ["<h2>Role</h2><p>Build things <a href="; "/apply"; ">apply</a></p>"].

(** An input with a query, a location and one filter. *)
Import Start.
Definition engineer : Input :=
  {| searchUrl := None; searchQuery := Some "Data  Engineer";
     location := Some " New Delhi"; experience := Some "2";
     jobType := Some "all"; maxJobs := None |}.

Import Crawler.
(** A listing page that shows the challenge at every check. *)
Definition challenged : Page :=
  {| navigationOk := true;
     probe := fun _ => ("Just a moment...", "Checking your browser");
     currentUrl := {| pathname := "/sales-jobs"; pageNoParam := None |};
     dom := Sample.cardsDom [Sample.card "A" "/job-listings-a"];
     jsonLdJobs := [];
     detailTab := fun _ =>
       {| Detail.title := Json.Ret "Job details";
          Detail.content := Json.Throw "Timeout 25000ms exceeded" |} |}.

(** The description section of a detail page, found by one selector. *)
Import CleanSection.
Definition detailProbe (selector : string) : Probe :=
  if String.eqb selector ".jd-desc" then
    {| found := true;
       probeText := "Own the regional sales plan for the west zone.";
       probeHtml :=
         Some "<div class='x'><p>Own the regional sales plan for the west zone.</p></div>" |}
  else {| found := false; probeText := ""; probeHtml := None |}.

Definition detailSection : Desc :=
  {| descHtml := "<p>Own the regional sales plan for the west zone.</p>";
     descText := "Own the regional sales plan for the west zone." |}.

(** A monthly pay range in rupees. *)
Definition payRange : list (string * Json.value) :=
  [ ("@type", Json.Str "QuantitativeValue"); ("minValue", Json.Num (Number.ofZ 40000));
    ("maxValue", Json.Num (Number.ofZ 60000)); ("unitText", Json.Str "MONTH") ].

Definition monthlyPay : Json.value :=
  Json.Obj [ ("@type", Json.Str "MonetaryAmount"); ("currency", Json.Str "INR");
             ("value", Json.Obj payRange) ].

End Fixtures.

(* ===================================================================== *)
(** * Properties *)
(* ===================================================================== *)

Module JsFacts.

Lemma truthy_true s : Js.truthy s = true <-> s <> "".
Proof.
  unfold Js.truthy. rewrite negb_true_iff.
  destruct (String.eqb_spec s ""); split; congruence.
Qed.

Lemma truthy_false s : Js.truthy s = false <-> s = "".
Proof.
  unfold Js.truthy. rewrite negb_false_iff. apply String.eqb_eq.
Qed.

Lemma ceil_div_spec a b :
  0 < b -> b * (Js.ceil_div a b - 1) < a <= b * Js.ceil_div a b.
Proof.
  intros Hb. unfold Js.ceil_div.
  pose proof (Z.mul_div_le (- a) b Hb).
  pose proof (Z.mul_succ_div_gt (- a) b Hb).
  lia.
Qed.

Lemma ceil_div_pos a b : 0 < b -> 0 < a -> 1 <= Js.ceil_div a b.
Proof.
  intros Hb Ha. pose proof (ceil_div_spec a b Hb). nia.
Qed.

Lemma ceil_div_nonneg a b : 0 < b -> 0 <= a -> 0 <= Js.ceil_div a b.
Proof.
  intros Hb Ha. pose proof (ceil_div_spec a b Hb). nia.
Qed.


End JsFacts.

(** ** Enrichment keeps the batch aligned with its input *)

Module EnrichFacts.

Lemma enrichJob_url fetch job :
  Job.url (fst (Enrich.enrichJob fetch job)) = Job.url job.
Proof.
  unfold Enrich.enrichJob.
  destruct (negb (Js.truthy (Job.url job))); [done|].
  destruct (fetch (Job.url job)) as [| |d]; try done.
  by destruct (Js.truthy (FullDesc.descriptionText d)).
Qed.

Lemma enrichLoop_urls fetch jobs :
  map Job.url (fst (Enrich.enrichLoop fetch jobs)) = map Job.url jobs.
Proof.
  induction jobs as [|job rest IH]; [done|].
  cbn [Enrich.enrichLoop].
  pose proof (enrichJob_url fetch job) as Hj.
  destruct (Enrich.enrichJob fetch job) as [j b].
  destruct (Enrich.enrichLoop fetch rest) as [js n].
  cbn in *. by rewrite Hj, IH.
Qed.

Lemma enrich_urls fetch jobs full :
  map Job.url (fst (Enrich.enrichJobsWithFullDescriptions fetch jobs full))
  = map Job.url jobs.
Proof.
  unfold Enrich.enrichJobsWithFullDescriptions.
  destruct jobs as [|job rest]; [done|].
  destruct (negb full); [done|]. apply enrichLoop_urls.
Qed.

Lemma enrich_length fetch jobs full :
  length (fst (Enrich.enrichJobsWithFullDescriptions fetch jobs full))
  = length jobs.
Proof.
  rewrite <- (length_map Job.url), enrich_urls. apply length_map.
Qed.

End EnrichFacts.

(** ** The de-duplication filter *)

Module DedupFacts.
Import Crawler.

Lemma urlsOf_cons job jobs :
  urlsOf (job :: jobs) =
  if Js.truthy (Job.url job) then Job.url job :: urlsOf jobs else urlsOf jobs.
Proof.
  unfold urlsOf. cbn [map]. rewrite filter_cons.
  destruct (Js.truthy (Job.url job)) eqn:E.
  - apply JsFacts.truthy_true in E. by rewrite decide_True.
  - apply JsFacts.truthy_false in E. by rewrite decide_False by tauto.
Qed.

Lemma urlsOf_app l1 l2 : urlsOf (l1 ++ l2) = urlsOf l1 ++ urlsOf l2.
Proof. unfold urlsOf. by rewrite map_app, filter_app. Qed.

Lemma elem_of_urlsOf u jobs :
  u ∈ urlsOf jobs <-> u <> "" /\ exists j, j ∈ jobs /\ Job.url j = u.
Proof.
  unfold urlsOf. rewrite list_elem_of_filter, list_elem_of_fmap.
  split; intros [? [j [? ?]]]; split; eauto.
Qed.

(** The filter adds exactly the non-empty URLs it keeps; each of them was
    new, and they are pairwise distinct. *)
Lemma filterUnique_spec jobs : forall seen,
  let '(seen', kept) := filterUnique seen jobs in
  seen' = seen ∪ list_to_set (urlsOf kept)
  /\ (forall u, u ∈ urlsOf kept -> u ∉ seen)
  /\ NoDup (urlsOf kept)
  /\ kept `sublist_of` jobs.
Proof.
  induction jobs as [|job rest IH]; intros seen; cbn [filterUnique].
  - repeat split; [set_solver | by intros u Hu%not_elem_of_nil | constructor | constructor].
  - destruct (Js.truthy (Job.url job)) eqn:Et; cbn [negb].
    + case_bool_decide as Hin.
      * specialize (IH seen). destruct (filterUnique seen rest) as [seen' kept].
        destruct IH as (? & ? & ? & ?). repeat split; auto.
        by apply sublist_cons.
      * specialize (IH ({[Job.url job]} ∪ seen)).
        destruct (filterUnique _ rest) as [seen' kept].
        destruct IH as (Hs & Hnew & Hnd & Hsub).
        rewrite urlsOf_cons, Et. repeat split.
        -- rewrite Hs. set_solver.
        -- intros u Hu. apply elem_of_cons in Hu as [->|Hu]; [done|].
           specialize (Hnew u Hu). set_solver.
        -- constructor; [|done]. intros Hu. specialize (Hnew _ Hu). set_solver.
        -- by apply sublist_skip.
    + specialize (IH seen). destruct (filterUnique seen rest) as [seen' kept].
      destruct IH as (? & ? & ? & ?).
      rewrite urlsOf_cons, Et. repeat split; auto. by apply sublist_skip.
Qed.

(** A record without a URL always passes the filter. *)
Lemma filterUnique_keeps_no_url jobs : forall seen job,
  job ∈ jobs -> Job.url job = "" -> job ∈ (filterUnique seen jobs).2.
Proof.
  induction jobs as [|j rest IH]; intros seen job Hin Hurl.
  - by apply not_elem_of_nil in Hin.
  - cbn [filterUnique]. apply elem_of_cons in Hin as [<-|Hin].
    + assert (Js.truthy (Job.url job) = false) as -> by by apply JsFacts.truthy_false.
      cbn. destruct (filterUnique seen rest). cbn. left.
    + destruct (negb (Js.truthy (Job.url j))).
      * specialize (IH seen job Hin Hurl).
        destruct (filterUnique seen rest). cbn in *. by right.
      * case_bool_decide; [by apply IH|].
        specialize (IH ({[Job.url j]} ∪ seen) job Hin Hurl).
        destruct (filterUnique _ rest). cbn in *. by right.
Qed.

End DedupFacts.

(** ** The seen-URL set across a run *)

Module RunFacts.
Import Crawler DedupFacts.

Section Run.
Variable maxJobs : Z.
Variable fullPageDetails : bool.

(** One call: the batch pushed carries exactly the URLs the filter kept. *)
Lemma requestHandler_seen st page :
  let h := requestHandler maxJobs fullPageDetails st page in
  seenJobUrls (state h) = seenJobUrls st ∪ list_to_set (urlsOf (pushed h))
  /\ (forall u, u ∈ urlsOf (pushed h) -> u ∉ seenJobUrls st)
  /\ NoDup (urlsOf (pushed h)).
Proof.
  assert (forall m, let h := {| state := {| totalJobsScraped := totalJobsScraped st;
                     pagesProcessed := pagesProcessed st + 1;
                     extractionMethod := m; seenJobUrls := seenJobUrls st |};
                     pushed := []; queued := None |} in
          seenJobUrls (state h) = seenJobUrls st ∪ list_to_set (urlsOf (pushed h))
          /\ (forall u, u ∈ urlsOf (pushed h) -> u ∉ seenJobUrls st)
          /\ NoDup (urlsOf (pushed h))) as Hstop.
  { intros m. cbn. repeat split; [set_solver | by intros u Hu%not_elem_of_nil | constructor]. }
  unfold requestHandler.
  destruct (negb (navigationOk page)); [apply Hstop|].
  destruct (_ <=? _)%nat; [apply Hstop|].
  destruct (extractJobs page) as [jobs found].
  destruct jobs as [|j0 jobs]; [apply Hstop|].
  set (cands := if 0 <? maxJobs then _ else _).
  pose proof (filterUnique_spec cands (seenJobUrls st)) as Hf.
  destruct (filterUnique (seenJobUrls st) cands) as [seen uniq].
  destruct Hf as (Hs & Hnew & Hnd & _).
  set (saved := if (0 <? len uniq) && fullPageDetails then _ else _).
  assert (urlsOf saved = urlsOf uniq) as Hu.
  { unfold saved, urlsOf. destruct (_ && _); [|done].
    by rewrite EnrichFacts.enrich_urls. }
  cbv zeta. cbn [state pushed seenJobUrls]. rewrite Hu. auto.
Qed.

Lemma handleAll_seen pages : forall st,
  let '(st', bs) := handleAll maxJobs fullPageDetails st pages in
  seenJobUrls st' = seenJobUrls st ∪ list_to_set (urlsOf (concat bs))
  /\ (forall u, u ∈ urlsOf (concat bs) -> u ∉ seenJobUrls st)
  /\ NoDup (urlsOf (concat bs)).
Proof.
  induction pages as [|page rest IH]; intros st; cbn [handleAll].
  - cbn. repeat split; [set_solver | by intros u Hu%not_elem_of_nil | constructor].
  - destruct (requestHandler_seen st page) as (Hs & Hnew & Hnd).
    set (h := requestHandler maxJobs fullPageDetails st page) in *.
    specialize (IH (state h)).
    destruct (handleAll maxJobs fullPageDetails (state h) rest) as [st' bs].
    destruct IH as (Hs' & Hnew' & Hnd').
    cbn [concat]. rewrite urlsOf_app. repeat split.
    + rewrite Hs', Hs, list_to_set_app_L. set_solver.
    + intros u [Hu|Hu]%elem_of_app; [by apply Hnew|].
      specialize (Hnew' u Hu). rewrite Hs in Hnew'. set_solver.
    + apply NoDup_app. repeat split; [done| |done].
      intros u Hu Hu'. specialize (Hnew' u Hu'). rewrite Hs in Hnew'.
      set_solver.
Qed.

End Run.

(** C1.  Across any sequence of handler calls of one run, starting from any
    seen-URL set: no URL is pushed twice, no pushed URL was already in the
    set when the sequence started, the set only grows and holds every URL
    pushed; and a record with an empty URL always passes the duplicate
    filter. *)
Theorem C1_seen_set_dedup :
  forall maxJobs fullPageDetails st pages,
    let '(st', bs) := handleAll maxJobs fullPageDetails st pages in
    NoDup (urlsOf (concat bs))
    /\ (forall u, u ∈ urlsOf (concat bs) -> u ∉ seenJobUrls st)
    /\ seenJobUrls st ⊆ seenJobUrls st'
    /\ (forall u, u ∈ urlsOf (concat bs) -> u ∈ seenJobUrls st')
    /\ (forall seen jobs job,
          job ∈ jobs -> Job.url job = "" -> job ∈ (filterUnique seen jobs).2).
Proof.
  intros maxJobs fullPageDetails st pages.
  pose proof (handleAll_seen maxJobs fullPageDetails pages st) as H.
  destruct (handleAll maxJobs fullPageDetails st pages) as [st' bs].
  destruct H as (Hs & Hnew & Hnd).
  repeat split; [done | done | set_solver | set_solver |].
  intros seen jobs job. apply DedupFacts.filterUnique_keeps_no_url.
Qed.

End RunFacts.

(** ** Pagination *)

Module PaginationFacts.
Import Crawler.

Lemma currentPageNo_ge_1 u : 1 <= currentPageNo u.
Proof.
  unfold currentPageNo.
  set (n := match Js.parseInt _ with Some n => _ | None => 1 end).
  assert (1 <= n) as Hn.
  { unfold n. destruct (Js.parseInt _) as [k|]; [|lia].
    destruct (Z.ltb_spec k 1); lia. }
  destruct (negb _); [|done].
  destruct (Js.matchPageSuffix _) as [[? digits]|]; [|done].
  destruct (Js.parseInt digits) as [m|]; [|done].
  destruct (Z.leb_spec 1 m); lia.
Qed.

(** With a quota, the decision is [None] exactly in the three stop cases. *)
Lemma nextRequest_None maxJobs total pageNo saved :
  0 < maxJobs -> 0 <= saved ->
  nextRequest maxJobs total pageNo saved = None
  <-> maxJobs <= total \/ maxPages maxJobs < pageNo + 1 \/ saved = 0.
Proof.
  intros HQ Hs. unfold nextRequest.
  destruct (Z.ltb_spec 0 maxJobs); [|lia].
  destruct (Z.leb_spec maxJobs total); cbn [andb].
  { split; auto. }
  destruct (Z.eqb_spec maxJobs 0); [lia|].
  destruct (Z.ltb_spec total maxJobs); [|lia]. cbn [orb].
  destruct (Z.leb_spec (pageNo + 1) (maxPages maxJobs));
    destruct (Z.ltb_spec 0 saved); cbn [andb]; split;
    try done; try (intros _; lia); intros [?|[?|?]]; lia.
Qed.

Lemma nextRequest_Some maxJobs total pageNo saved n :
  nextRequest maxJobs total pageNo saved = Some n ->
  n = pageNo + 1 /\ n <= maxPages maxJobs /\ 0 < saved.
Proof.
  unfold nextRequest.
  destruct (_ && _); [done|]. destruct (_ || _); [|done].
  destruct (Z.leb_spec (pageNo + 1) (maxPages maxJobs));
    destruct (Z.ltb_spec 0 saved); cbn [andb]; try done.
  intros [= <-]. lia.
Qed.

Lemma len_nonneg {A} (l : list A) : 0 <= len l.
Proof. unfold len. lia. Qed.

Lemma len_zero {A} (l : list A) : len l = 0 <-> l = [].
Proof. unfold len. destruct l; cbn; split; try done; lia. Qed.

(** The handler either stopped before saving anything, or took the
    pagination decision on the counters it has just updated. *)
Lemma requestHandler_queued maxJobs fullPageDetails st page :
  let h := requestHandler maxJobs fullPageDetails st page in
  (queued h = None /\ pushed h = [])
  \/ queued h = nextRequest maxJobs (totalJobsScraped (state h))
                  (currentPageNo (currentUrl page)) (len (pushed h)).
Proof.
  unfold requestHandler.
  destruct (negb (navigationOk page)); [by left|].
  destruct (_ <=? _)%nat; [by left|].
  destruct (extractJobs page) as [jobs found].
  destruct jobs as [|j0 jobs]; [by left|].
  destruct (filterUnique _ _) as [seen uniq]. by right.
Qed.

Section Quota.
Variable maxJobs : Z.
Variable fullPageDetails : bool.
Hypothesis quota : 0 < maxJobs.

Lemma requestHandler_stops st page :
  let h := requestHandler maxJobs fullPageDetails st page in
  queued h = None
  <-> maxJobs <= totalJobsScraped (state h)
      \/ maxPages maxJobs < currentPageNo (currentUrl page) + 1
      \/ len (pushed h) = 0.
Proof.
  cbv zeta.
  destruct (requestHandler_queued maxJobs fullPageDetails st page) as [[Hq Hp]|Hq].
  - rewrite Hq, Hp. split; auto.
  - rewrite Hq. apply nextRequest_None; [done | apply len_nonneg].
Qed.

Lemma requestHandler_next st page n :
  queued (requestHandler maxJobs fullPageDetails st page) = Some n ->
  n = currentPageNo (currentUrl page) + 1 /\ n <= maxPages maxJobs.
Proof.
  intros Hn.
  destruct (requestHandler_queued maxJobs fullPageDetails st page) as [[Hq _]|Hq].
  - congruence.
  - rewrite Hq in Hn. apply nextRequest_Some in Hn. tauto.
Qed.

Lemma maxPages_quota : maxPages maxJobs = Js.ceil_div maxJobs 20.
Proof. unfold maxPages. destruct (Z.eqb_spec maxJobs 0); [lia|done]. Qed.

Lemma crawlFrom_bound budget : forall pages st p,
  numberedFrom p pages ->
  requests (crawlFrom maxJobs fullPageDetails budget st pages)
  <= Z.max 1 (maxPages maxJobs - p + 1).
Proof.
  induction budget as [|budget IH]; intros pages st p Hnum; cbn [crawlFrom].
  { cbn. lia. }
  destruct pages as [|page rest]; [cbn; lia|].
  destruct Hnum as [Hp Hrest].
  destruct (queued _) as [n|] eqn:Hq; cbn [requests]; [|lia].
  apply requestHandler_next in Hq as [-> Hle].
  specialize (IH rest (state (requestHandler maxJobs fullPageDetails st page))
                 _ Hrest).
  lia.
Qed.

End Quota.

(** C2 (amended).  With a quota [Q > 0]: when every page of the run reads
    back the page number it was queued for, the crawl handles at most
    [ceil(Q/20)] pages; and on every page the handler queues no next page
    exactly when the cumulative total has reached [Q], or the next page
    number exceeds [ceil(Q/20)], or nothing was saved from this page.  A
    queued request is always for the next page number. *)
Theorem C2_pagination_ceiling :
  forall maxJobs fullPageDetails p pages,
    0 < maxJobs ->
    numberedFrom p pages ->
    requests (crawl maxJobs fullPageDetails pages) <= Js.ceil_div maxJobs 20
    /\ maxPages maxJobs = Js.ceil_div maxJobs 20
    /\ maxPages 0 = 50
    /\ forall st page,
         let h := requestHandler maxJobs fullPageDetails st page in
         (queued h = None
          <-> maxJobs <= totalJobsScraped (state h)
              \/ maxPages maxJobs < currentPageNo (currentUrl page) + 1
              \/ len (pushed h) = 0)
         /\ (forall n, queued h = Some n ->
               n = currentPageNo (currentUrl page) + 1).
Proof.
  intros maxJobs fullPageDetails p pages HQ Hnum.
  pose proof (maxPages_quota maxJobs HQ) as HM.
  repeat split; try done.
  - unfold crawl.
    pose proof (crawlFrom_bound maxJobs fullPageDetails
                  (Z.to_nat (maxRequestsPerCrawl maxJobs)) pages initialState p Hnum) as Hb.
    pose proof (JsFacts.ceil_div_pos maxJobs 20 ltac:(lia) HQ).
    destruct pages as [|page rest].
    + destruct (Z.to_nat _); cbn; lia.
    + destruct Hnum as [Hp _]. pose proof (currentPageNo_ge_1 (currentUrl page)). lia.
  - apply (requestHandler_stops maxJobs fullPageDetails HQ st page).
  - apply (requestHandler_stops maxJobs fullPageDetails HQ st page).
  - intros n Hn. by apply (requestHandler_next maxJobs fullPageDetails st page n) in Hn as [-> _].
Qed.

End PaginationFacts.

Module PaginationExamples.
Import Crawler.

Lemma C2_pagination_ceiling_witness :
  0 < 40 /\ numberedFrom 1 Sample.numberedSite
  /\ requests (crawl 40 true Sample.numberedSite) <= Js.ceil_div 40 20.
Proof.
  assert (0 < 40) as HQ by lia.
  assert (numberedFrom 1 Sample.numberedSite) as Hnum
    by (cbn; repeat split; reflexivity).
  split; [exact HQ|]. split; [exact Hnum|].
  exact (proj1 (PaginationFacts.C2_pagination_ceiling 40 true 1
                  Sample.numberedSite HQ Hnum)).
Defined.

(** C2 as stated fails: with quota 40 the ceiling is 2 pages, yet three pages
    are handled when the pages served do not carry increasing page numbers. *)
Lemma C2_counterexample :
  Js.ceil_div 40 20 = 2
  /\ requests (crawl 40 true Sample.offsetSite) = 3.
Proof. split; vm_compute; reflexivity. Qed.

End PaginationExamples.

(** ** The markup extractor: one record per URL *)

Module MarkupFacts.
Import Markup.

(** The accumulator invariant: [seenUrls] is the set of URLs of [jobs],
    which are non-empty and pairwise distinct. *)
Definition accOk (acc : gset string * list Job.t) : Prop :=
  acc.1 = list_to_set (map Job.url acc.2)
  /\ NoDup (map Job.url acc.2)
  /\ Forall (fun j => Job.url j <> "") acc.2.

Lemma accOk_start : accOk (∅, []).
Proof. repeat split; cbn; [constructor | constructor]. Qed.

Lemma accOk_nil seen : accOk (seen, []) -> seen = ∅.
Proof. by intros [H _]. Qed.

Lemma pushJob_ok acc job : accOk acc -> accOk (pushJob acc job).
Proof.
  intros (Hs & Hnd & Hne). unfold pushJob.
  destruct job as [j|]; [|done].
  destruct (Js.truthy (Job.url j)) eqn:Et; [|done].
  case_bool_decide as Hin; cbn [negb andb]; [done|].
  apply JsFacts.truthy_true in Et.
  repeat split; cbn [fst snd].
  - rewrite map_app, list_to_set_app_L, Hs. cbn. set_solver.
  - rewrite map_app. apply NoDup_app. repeat split; [done| |apply NoDup_singleton].
    intros u Hu [->|[]%not_elem_of_nil]%elem_of_cons.
    apply Hin. rewrite Hs. by apply elem_of_list_to_set.
  - apply Forall_app. split; [done|]. by constructor.
Qed.

Lemma foldl_pushJob_ok cands : forall acc, accOk acc -> accOk (foldl pushJob acc cands).
Proof.
  induction cands as [|c rest IH]; intros acc Hok; [done|].
  cbn [foldl]. by apply IH, pushJob_ok.
Qed.

Lemma keptFrom_cons_skip c cands :
  (forall j, c = Some j -> Job.url j = "") ->
  keptFrom (c :: cands) = keptFrom cands.
Proof.
  intros Hc. unfold keptFrom, withUrl. destruct c as [j|]; [|done].
  change (omap id (Some j :: cands)) with (j :: omap id cands).
  rewrite filter_cons_False; [done|]. intros Hne. by apply Hne, Hc.
Qed.

Lemma keptFrom_cons_url j cands :
  Job.url j <> "" ->
  keptFrom (Some j :: cands)
  = j :: filter (fun j' => Job.url j' <> Job.url j) (keptFrom cands).
Proof.
  intros Hj. unfold keptFrom, withUrl.
  change (omap id (Some j :: cands)) with (j :: omap id cands).
  by rewrite filter_cons_True.
Qed.

(** The accumulator loop appends, to what it already holds, the first
    occurrences among the candidates whose URL it has not seen. *)
Lemma foldl_pushJob_kept cands : forall acc,
  (foldl pushJob acc cands).2
  = acc.2 ++ filter (fun j => Job.url j ∉ acc.1) (keptFrom cands).
Proof.
  induction cands as [|c rest IH]; intros acc; cbn [foldl].
  { unfold keptFrom, withUrl. cbn. by rewrite app_nil_r. }
  rewrite IH. unfold pushJob.
  destruct c as [j|]; [|by rewrite keptFrom_cons_skip].
  destruct (Js.truthy (Job.url j)) eqn:Et; cbn [andb].
  2:{ rewrite keptFrom_cons_skip; [done|].
      intros ? [= <-]. by apply JsFacts.truthy_false. }
  apply JsFacts.truthy_true in Et. rewrite keptFrom_cons_url by done.
  case_bool_decide as Hin; cbn [negb fst snd].
  - rewrite filter_cons_False by tauto. f_equal.
    rewrite list_filter_filter. apply list_filter_iff. intros j'.
    split; [|tauto]. intros Hj'. split; [done|]. congruence.
  - rewrite filter_cons_True by done. rewrite <- app_assoc. cbn [app]. do 2 f_equal.
    rewrite list_filter_filter. apply list_filter_iff. intros j'. set_solver.
Qed.

Lemma foldl_pushJob_start cands :
  (foldl pushJob (∅, []) cands).2 = keptFrom cands.
Proof.
  rewrite foldl_pushJob_kept. cbn [fst snd app].
  induction (keptFrom cands) as [|j l IH]; [done|].
  rewrite filter_cons_True by set_solver. by rewrite IH.
Qed.

Section Paths.
Context {dom : Dom}.

Lemma pushContainers_flat containers : forall acc,
  pushContainers (dom:=dom) acc containers
  = foldl pushJob acc
      (flat_map (fun container => map extractCard (cardsOf container)) containers).
Proof.
  induction containers as [|c rest IH]; intros acc; [done|].
  unfold pushContainers in *. cbn [foldl flat_map].
  by rewrite foldl_app, IH.
Qed.

(** The fallback loop started empty stops at the first selector that yields
    a record, and returns what that selector alone yields. *)
Lemma fallbackLoop_start sels :
  (fallbackLoop (dom:=dom) (∅, []) sels).2
  = match list_find (fun sel => keptFrom (fallbackCandidates dom sel) <> []) sels with
    | Some (_, sel) => keptFrom (fallbackCandidates dom sel)
    | None => []
    end
  /\ accOk (fallbackLoop (dom:=dom) (∅, []) sels).
Proof.
  induction sels as [|sel rest IH]; [split; [done | apply accOk_start]|].
  cbn [fallbackLoop list_find].
  assert (pushContainers (dom:=dom) (∅, []) (select sel)
          = foldl pushJob (∅, []) (fallbackCandidates dom sel)) as Hpc
    by apply pushContainers_flat.
  pose proof (foldl_pushJob_start (fallbackCandidates dom sel)) as Hk.
  pose proof (foldl_pushJob_ok (fallbackCandidates dom sel) _ accOk_start) as Hok.
  destruct (select sel) as [|c cs] eqn:Hsel.
  - assert (keptFrom (fallbackCandidates dom sel) = []) as ->.
    { unfold fallbackCandidates. by rewrite Hsel. }
    rewrite decide_False by tauto.
    destruct IH as [-> ?]. split; [|done].
    by destruct (list_find _ rest) as [[? ?]|].
  - rewrite Hpc, Hk.
    destruct (keptFrom (fallbackCandidates dom sel)) as [|j l] eqn:Hkept.
    + rewrite decide_False by tauto.
      destruct (foldl pushJob _ _) as [seen jobs]. cbn [snd] in Hk. subst jobs.
      apply accOk_nil in Hok as ->.
      destruct IH as [-> ?]. split; [|done].
      by destruct (list_find _ rest) as [[? ?]|].
    + rewrite decide_True by done. cbn. by rewrite Hk.
Qed.

Lemma pushLink_ok acc link : accOk acc -> accOk (pushLink (dom:=dom) acc link).
Proof.
  intros Hok. unfold pushLink.
  destruct (negb _); [done|]. case_bool_decide; [done|]. by apply pushJob_ok.
Qed.

Lemma pushJob_sublist acc job :
  exists l, (pushJob acc job).2 = acc.2 ++ l /\ l `sublist_of` withUrl [job].
Proof.
  unfold pushJob. destruct job as [j|].
  2:{ exists []. rewrite app_nil_r. split; [done | constructor]. }
  destruct (Js.truthy (Job.url j)) eqn:Et; cbn [andb].
  2:{ exists []. rewrite app_nil_r. split; [done | apply sublist_nil_l]. }
  apply JsFacts.truthy_true in Et.
  case_bool_decide; cbn [negb snd].
  - exists []. rewrite app_nil_r. split; [done | apply sublist_nil_l].
  - exists [j]. split; [done|]. unfold withUrl.
    change (omap id [Some j]) with [j].
    by rewrite filter_cons_True.
Qed.

Lemma withUrl_app l1 l2 : withUrl (l1 ++ l2) = withUrl l1 ++ withUrl l2.
Proof. unfold withUrl. by rewrite omap_app, filter_app. Qed.

(** The link-climbing loop keeps candidates in link order. *)
Lemma foldl_pushLink_sublist links : forall acc,
  exists l, (foldl (pushLink (dom:=dom)) acc links).2 = acc.2 ++ l
    /\ l `sublist_of`
         withUrl (flat_map (fun link =>
                    let href := Js.or_else (attr link "href") "" in
                    if Js.truthy href then [extractLink link (absolute href)] else [])
                  links).
Proof.
  induction links as [|link rest IH]; intros acc; cbn [foldl flat_map].
  { exists []. rewrite app_nil_r. split; [done | constructor]. }
  destruct (IH (pushLink acc link)) as (l & -> & Hl).
  rewrite withUrl_app. unfold pushLink.
  destruct (Js.truthy _) eqn:Eh; cbn [negb].
  - case_bool_decide.
    + exists l. split; [done|]. by apply sublist_inserts_l.
    + destruct (pushJob_sublist acc (extractLink link (absolute (Js.or_else (attr link "href") ""))))
        as (l0 & -> & Hl0).
      exists (l0 ++ l). rewrite app_assoc. split; [done|]. by apply sublist_app.
  - exists l. split; [done|]. by cbn.
Qed.

Lemma foldl_pushLink_ok links : forall acc,
  accOk acc -> accOk (foldl (pushLink (dom:=dom)) acc links).
Proof.
  induction links as [|link rest IH]; intros acc Hok; [done|].
  cbn [foldl]. by apply IH, pushLink_ok.
Qed.

(** The link-climbing loop keeps exactly the records of [firstByLink]. *)
Lemma foldl_pushLink_first links : forall acc kept,
  (forall u, u ∈ acc.1 <-> u ∈ kept) ->
  (foldl (pushLink (dom:=dom)) acc links).2
  = acc.2 ++ firstByLink kept
               (flat_map (fun link =>
                  let href := Js.or_else (attr link "href") "" in
                  if Js.truthy href then
                    match extractLink link (absolute href) with
                    | Some j =>
                        if Js.truthy (Job.url j) then [(absolute href, j)] else []
                    | None => []
                    end
                  else []) links).
Proof.
  induction links as [|link rest IH]; intros acc kept Hk; cbn [foldl flat_map].
  { cbn. by rewrite app_nil_r. }
  cbv zeta. unfold pushLink at 2. cbv zeta.
  set (href := Js.or_else (attr link "href") "").
  destruct (Js.truthy href) eqn:Eh; cbn [negb]; [|by apply IH].
  destruct (extractLink link (absolute href)) as [j|] eqn:Ej.
  2:{ case_bool_decide; cbn [app pushJob]; by apply IH. }
  destruct (Js.truthy (Job.url j)) eqn:Eu.
  2:{ case_bool_decide; cbn [app]; [by apply IH|].
      unfold pushJob. rewrite Eu. cbn [andb]. by apply IH. }
  cbn [app firstByLink].
  case_bool_decide as Hlink.
  { rewrite bool_decide_eq_true_2 by (by apply Hk). cbn [orb]. by apply IH. }
  rewrite (bool_decide_eq_false_2 (absolute href ∈ kept))
    by (intros ?; by apply Hlink, Hk).
  unfold pushJob. rewrite Eu. cbn [andb orb].
  case_bool_decide as Hurl; cbn [negb].
  { rewrite bool_decide_eq_true_2 by (by apply Hk). by apply IH. }
  rewrite (bool_decide_eq_false_2 (Job.url j ∈ kept))
    by (intros ?; by apply Hurl, Hk).
  rewrite (IH _ (Job.url j :: kept)); cbn [fst snd].
  - by rewrite <- app_assoc.
  - intros u. rewrite elem_of_union, elem_of_singleton, elem_of_cons, Hk. done.
Qed.

(** The accumulator after the card-based step. *)
Lemma cardStep_kept :
  let acc :=
    match select (d:=dom) tupleSelector with
    | [] => fallbackLoop (dom:=dom) (∅, []) fallbackSelectors
    | jobElements => foldl pushJob (∅, []) (map extractCard jobElements)
    end in
  acc.2 = keptFrom (cardCandidates dom) /\ accOk acc.
Proof.
  unfold cardCandidates, primaryCandidates.
  destruct (select tupleSelector) as [|e es].
  - destruct (fallbackLoop_start fallbackSelectors) as [-> Hok].
    split; [|done]. by destruct (list_find _ _) as [[? ?]|].
  - split; [apply foldl_pushJob_start | apply foldl_pushJob_ok, accOk_start].
Qed.

Lemma extractJobDataViaHTML_paths :
  NoDup (map Job.url (extractJobDataViaHTML dom))
  /\ Forall (fun j => Job.url j <> "") (extractJobDataViaHTML dom)
  /\ (keptFrom (cardCandidates dom) <> [] ->
      extractJobDataViaHTML dom = keptFrom (cardCandidates dom))
  /\ (keptFrom (cardCandidates dom) = [] ->
      extractJobDataViaHTML dom `sublist_of` withUrl (linkCandidates dom))
  /\ (keptFrom (cardCandidates dom) = [] ->
      extractJobDataViaHTML dom = firstByLink [] (linkPairs dom)).
Proof.
  unfold extractJobDataViaHTML. destruct cardStep_kept as [Hk Hok].
  set (acc := match select tupleSelector with [] => _ | _ => _ end) in *.
  clearbody acc. destruct acc as [seen jobs]. cbn [snd] in *. subst jobs.
  destruct (keptFrom (cardCandidates dom)) as [|j l] eqn:Hkept.
  - apply accOk_nil in Hok as ->.
    pose proof (foldl_pushLink_ok (select linkSelector) _ accOk_start) as (_ & Hnd & Hne).
    destruct (foldl_pushLink_sublist (select linkSelector) (∅, [])) as (l & Hl & Hsub).
    repeat split; try done; intros _; [by rewrite Hl|].
    rewrite (foldl_pushLink_first (select linkSelector) (∅, []) []); [done|].
    intros u. cbn [fst]. split; [by intros ?%not_elem_of_empty|].
    by intros ?%not_elem_of_nil.
  - destruct Hok as (_ & Hnd & Hne). cbn [snd] in *. repeat split; done.
Qed.

(** The records of the link pairs are the link candidates that carry a
    URL. *)
Lemma linkPairs_records :
  map snd (linkPairs dom) = withUrl (linkCandidates dom).
Proof.
  unfold linkPairs, linkCandidates.
  induction (select linkSelector) as [|link rest IH]; [done|].
  cbn [flat_map]. rewrite map_app, withUrl_app, IH. f_equal.
  cbv zeta. destruct (Js.truthy (Js.or_else _ _)); [|done].
  destruct (extractLink _ _) as [j|]; [|done].
  unfold withUrl. cbn [omap list_omap id].
  destruct (Js.truthy (Job.url j)) eqn:Eu.
  - rewrite filter_cons_True by (by apply JsFacts.truthy_true). done.
  - rewrite filter_cons_False; [done|].
    intros H. by apply JsFacts.truthy_true in H; congruence.
Qed.

End Paths.

(** *** The selection of the link-climbing path *)

Lemma firstByLink_ext pairs : forall kept kept',
  (forall u, u ∈ kept <-> u ∈ kept') ->
  firstByLink kept pairs = firstByLink kept' pairs.
Proof.
  induction pairs as [|[a j] rest IH]; intros kept kept' H; [done|].
  cbn [firstByLink].
  rewrite (bool_decide_ext (a ∈ kept) (a ∈ kept')) by apply H.
  rewrite (bool_decide_ext (Job.url j ∈ kept) (Job.url j ∈ kept')) by apply H.
  destruct (_ || _); [by apply IH|]. f_equal. apply IH.
  intros u. rewrite !elem_of_cons, H. done.
Qed.

(** A kept record stands where neither the URL of its link nor its own is
    the URL of a record kept before it. *)
Lemma firstByLink_first pairs : forall kept j,
  j ∈ firstByLink kept pairs ->
  exists before linkUrl after,
    pairs = before ++ (linkUrl, j) :: after
    /\ Forall (fun j' => Job.url j' <> linkUrl /\ Job.url j' <> Job.url j)
              (firstByLink kept before)
    /\ (linkUrl ∉ kept) /\ (Job.url j ∉ kept).
Proof.
  induction pairs as [|[a j0] rest IH]; intros kept j; cbn [firstByLink].
  { by intros ?%not_elem_of_nil. }
  destruct (bool_decide (a ∈ kept) || bool_decide (Job.url j0 ∈ kept)) eqn:Eskip.
  - intros Hj. destruct (IH kept j Hj) as (before & l & after & -> & Hb & Hl & Hu).
    exists ((a, j0) :: before), l, after. split; [done|].
    cbn [firstByLink]. by rewrite Eskip.
  - apply orb_false_iff in Eskip as [Ha Hu0].
    apply bool_decide_eq_false in Ha, Hu0.
    intros [->|Hj]%elem_of_cons.
    + exists [], a, rest. repeat split; [constructor|done..].
    + destruct (IH _ j Hj) as (before & l & after & -> & Hb & Hl & Hu).
      exists ((a, j0) :: before), l, after. split; [done|].
      cbn [firstByLink].
      rewrite (bool_decide_eq_false_2 (a ∈ kept)) by done.
      rewrite (bool_decide_eq_false_2 (Job.url j0 ∈ kept)) by done.
      cbn [orb]. rewrite not_elem_of_cons in Hl, Hu.
      repeat split; try tauto.
      constructor; [|done].
      split; intros E; [apply (proj1 Hl)|apply (proj1 Hu)]; exact (eq_sym E).
Qed.

(** Every link is represented: its own URL, or that of its record, is the
    URL of a kept record. *)
Lemma firstByLink_complete pairs : forall kept p,
  p ∈ pairs ->
  let urls := map Job.url (firstByLink kept pairs) ++ kept in
  p.1 ∈ urls \/ Job.url p.2 ∈ urls.
Proof.
  induction pairs as [|[a j0] rest IH]; intros kept p; cbv zeta.
  { by intros ?%not_elem_of_nil. }
  cbn [firstByLink].
  destruct (bool_decide (a ∈ kept) || bool_decide (Job.url j0 ∈ kept)) eqn:Eskip.
  - intros [->|Hp]%elem_of_cons; [|by apply IH].
    apply orb_true_iff in Eskip as [H|H]; apply bool_decide_eq_true in H;
      cbn [fst snd]; rewrite !elem_of_app; tauto.
  - intros [->|Hp]%elem_of_cons.
    + right. cbn [map fst snd app]. left.
    + specialize (IH (Job.url j0 :: kept) p Hp). cbv zeta in IH.
      cbn [map app]. rewrite !elem_of_cons, !elem_of_app in *.
      rewrite !elem_of_cons in IH. tauto.
Qed.

(** When the URLs follow the links, the selection is the first occurrence
    of each URL among the records. *)
Lemma firstByLink_firstByUrl pairs : forall kept,
  (forall before p after,
      pairs = before ++ p :: after ->
      Job.url p.2 = p.1
      \/ Job.url p.2 ∈ map (fun q => Job.url q.2) before
      \/ Job.url p.2 ∈ kept) ->
  firstByLink kept pairs
  = filter (fun j => Job.url j ∉ kept) (firstByUrl (map snd pairs)).
Proof.
  induction pairs as [|[a j0] rest IH]; intros kept H; [done|].
  cbn [firstByLink map firstByUrl snd].
  destruct (bool_decide (a ∈ kept) || bool_decide (Job.url j0 ∈ kept)) eqn:Eskip.
  - assert (Job.url j0 ∈ kept) as Hin.
    { apply orb_true_iff in Eskip as [Ha|Hu]; apply bool_decide_eq_true in Ha || idtac.
      - destruct (H [] (a, j0) rest eq_refl) as [E|[E|E]]; cbn [fst snd] in E.
        + by rewrite E.
        + by apply not_elem_of_nil in E.
        + done.
      - by apply bool_decide_eq_true in Hu. }
    rewrite filter_cons_False by tauto.
    rewrite IH.
    + rewrite list_filter_filter. apply list_filter_iff. intros j'.
      split; [|tauto]. intros Hj'. split; [done|]. congruence.
    + intros before p after ->.
      destruct (H ((a, j0) :: before) p after eq_refl) as [E|[E|E]]; auto.
      cbn [map snd] in E. apply elem_of_cons in E as [E|E]; auto.
      right. right. by rewrite E.
  - apply orb_false_iff in Eskip as [Ha Hu0].
    apply bool_decide_eq_false in Ha, Hu0.
    rewrite filter_cons_True by done. f_equal.
    rewrite IH.
    + rewrite list_filter_filter. apply list_filter_iff. intros j'.
      rewrite not_elem_of_cons. tauto.
    + intros before p after ->.
      destruct (H ((a, j0) :: before) p after eq_refl) as [E|[E|E]]; auto.
      * cbn [map snd] in E. apply elem_of_cons in E as [E|E]; auto.
        right. right. rewrite E. left.
      * right. right. by right.
Qed.

(** *** The reference selection: first occurrence, order kept *)

Lemma firstByUrl_subseteq jobs j : j ∈ firstByUrl jobs -> j ∈ jobs.
Proof.
  revert j. induction jobs as [|j0 rest IH]; intros j; cbn [firstByUrl]; [done|].
  intros [->|Hj]%elem_of_cons; [left|].
  right. apply IH. by apply list_elem_of_filter in Hj as [_ ?].
Qed.

Lemma firstByUrl_sublist jobs : firstByUrl jobs `sublist_of` jobs.
Proof.
  induction jobs as [|j0 rest IH]; cbn [firstByUrl]; [constructor|].
  apply sublist_skip. etrans; [apply sublist_filter|done].
Qed.

Lemma firstByUrl_NoDup jobs : NoDup (map Job.url (firstByUrl jobs)).
Proof.
  induction jobs as [|j0 rest IH]; cbn [firstByUrl map]; constructor.
  - intros (j & Hu & Hj)%list_elem_of_fmap.
    apply list_elem_of_filter in Hj as [Hne _]. congruence.
  - refine (sublist_NoDup _ _ IH _).
    apply (fmap_sublist Job.url), sublist_filter.
Qed.

(** Every URL among the input records is represented in the selection. *)
Lemma firstByUrl_complete jobs j :
  j ∈ jobs -> exists j', j' ∈ firstByUrl jobs /\ Job.url j' = Job.url j.
Proof.
  induction jobs as [|j0 rest IH]; [by intros ?%not_elem_of_nil|].
  intros [->|Hj]%elem_of_cons; cbn [firstByUrl].
  - exists j0. split; [left|done].
  - destruct (decide (Job.url j = Job.url j0)) as [E|E].
    + exists j0. split; [left|done].
    + destruct (IH Hj) as (j' & Hj' & Hu). exists j'. split; [|done].
      right. apply list_elem_of_filter. split; [congruence|done].
Qed.

(** The record selected for a URL is the first input record carrying it. *)
Lemma firstByUrl_first jobs j :
  j ∈ firstByUrl jobs ->
  exists before after,
    jobs = before ++ j :: after
    /\ Forall (fun j' => Job.url j' <> Job.url j) before.
Proof.
  revert j. induction jobs as [|j0 rest IH]; intros j; cbn [firstByUrl].
  { by intros ?%not_elem_of_nil. }
  intros [->|Hj]%elem_of_cons.
  - exists [], rest. split; [done|constructor].
  - apply list_elem_of_filter in Hj as [Hne Hj].
    destruct (IH j Hj) as (before & after & -> & Hb).
    exists (j0 :: before), after. split; [done|]. constructor; [congruence|done].
Qed.

(** C9.  The records returned for a page have pairwise distinct URLs.  When
    the card-based step yields anything, the result is exactly the first
    occurrence of each URL among the URL-bearing card records, in card
    order.  Otherwise the records are built from the job links, in link
    order, and a record is kept exactly when neither the URL of its link
    nor its own URL is the URL of a record kept before it; every link is
    then represented in the result, and when the URLs follow the links (as
    they do in a document) the result is again exactly the first occurrence
    of each URL among the URL-bearing records.  The document is the only
    input: the seen-set of the run plays no part. *)
Theorem C9_markup_one_record_per_url :
  forall dom : Dom,
    NoDup (map Job.url (extractJobDataViaHTML dom))
    /\ (keptFrom (cardCandidates dom) <> [] ->
        extractJobDataViaHTML dom = firstByUrl (withUrl (cardCandidates dom)))
    /\ (keptFrom (cardCandidates dom) = [] ->
        extractJobDataViaHTML dom `sublist_of` withUrl (linkCandidates dom))
    /\ (forall jobs, NoDup (map Job.url (firstByUrl jobs))
                     /\ firstByUrl jobs `sublist_of` jobs)
    /\ (forall jobs j, j ∈ firstByUrl jobs ->
          exists before after,
            jobs = before ++ j :: after
            /\ Forall (fun j' => Job.url j' <> Job.url j) before)
    /\ (forall jobs j, j ∈ jobs ->
          exists j', j' ∈ firstByUrl jobs /\ Job.url j' = Job.url j)
    /\ (keptFrom (cardCandidates dom) = [] ->
        extractJobDataViaHTML dom = firstByLink [] (linkPairs dom))
    /\ map snd (linkPairs dom) = withUrl (linkCandidates dom)
    /\ (keptFrom (cardCandidates dom) = [] ->
        urlsFollowLinks (linkPairs dom) ->
        extractJobDataViaHTML dom = firstByUrl (withUrl (linkCandidates dom)))
    /\ (forall pairs j,
          j ∈ firstByLink [] pairs ->
          exists before linkUrl after,
            pairs = before ++ (linkUrl, j) :: after
            /\ Forall (fun j' => Job.url j' <> linkUrl
                                 /\ Job.url j' <> Job.url j)
                      (firstByLink [] before))
    /\ (forall pairs p,
          p ∈ pairs ->
          exists j, j ∈ firstByLink [] pairs
                    /\ (Job.url j = p.1 \/ Job.url j = Job.url p.2)).
Proof.
  intros dom.
  destruct (extractJobDataViaHTML_paths (dom:=dom))
    as (Hnd & _ & Hcards & Hlinks & Hfirst).
  split; [done|]. split; [done|]. split; [done|].
  split; [split; [apply firstByUrl_NoDup|apply firstByUrl_sublist]|].
  split; [apply firstByUrl_first|]. split; [apply firstByUrl_complete|].
  split; [done|]. split; [apply linkPairs_records|].
  split; [|split].
  - intros Hnone Hfollow. rewrite (Hfirst Hnone), <- linkPairs_records.
    rewrite (firstByLink_firstByUrl (linkPairs dom) []).
    + induction (firstByUrl _) as [|j l IH]; [done|].
      rewrite filter_cons_True by apply not_elem_of_nil. by rewrite IH.
    + intros before p after Hsplit.
      destruct (Hfollow before p after Hsplit); auto.
  - intros pairs j Hj.
    destruct (firstByLink_first pairs [] j Hj)
      as (before & l & after & Hsplit & Hb & _).
    by exists before, l, after.
  - intros pairs p Hp.
    pose proof (firstByLink_complete pairs [] p Hp) as H. cbv zeta in H.
    rewrite app_nil_r in H.
    destruct H as [(j & Hu & Hj)%list_elem_of_fmap
                  |(j & Hu & Hj)%list_elem_of_fmap];
      exists j; split; auto.
Qed.

(** What per-card field extraction retains: a record exactly when a title
    or a URL was found, carrying that URL, and the title or a placeholder. *)
Lemma extractJobFromElement_retains {dom : Dom} (el : option (El dom)) fb :
  match extractJobFromElement el fb with
  | Some j =>
      ((titleAndUrl el fb).1 <> "" \/ (titleAndUrl el fb).2 <> "")
      /\ Job.url j = (titleAndUrl el fb).2
      /\ Job.title j = (if Js.truthy (titleAndUrl el fb).1
                        then (titleAndUrl el fb).1 else "Unknown Title")
  | None => (titleAndUrl el fb).1 = "" /\ (titleAndUrl el fb).2 = ""
  end.
Proof.
  unfold extractJobFromElement.
  destruct (titleAndUrl el fb) as [title url]. cbn [fst snd].
  destruct (Js.truthy title) eqn:Et; destruct (Js.truthy url) eqn:Eu;
    cbn [orb Job.url Job.title];
    rewrite ?JsFacts.truthy_true, ?JsFacts.truthy_false in *; auto.
Qed.

Lemma extractJobFromElement_Some {dom : Dom} (el : option (El dom)) fb j :
  extractJobFromElement el fb = Some j ->
  Job.title j <> "" /\ (Job.title j <> "" \/ Job.url j <> "").
Proof.
  intros Hj. pose proof (extractJobFromElement_retains el fb) as H.
  rewrite Hj in H. destruct H as (_ & _ & Ht).
  assert (Job.title j <> "") as Hne; [|auto].
  rewrite Ht. destruct (Js.truthy _) eqn:E; [|done].
  by apply JsFacts.truthy_true.
Qed.

(** C10.  Every record returned by the markup extractor has a non-empty URL;
    a record that per-card extraction retains on the strength of its title
    alone never reaches the output. *)
Theorem C10_markup_url_required :
  forall dom : Dom,
    (forall j, j ∈ extractJobDataViaHTML dom -> Job.url j <> "")
    /\ (forall (el : option (El dom)) fb j,
          extractJobFromElement el fb = Some j ->
          Job.url j = "" ->
          Job.title j <> "" /\ j ∉ extractJobDataViaHTML dom).
Proof.
  intros dom.
  destruct (extractJobDataViaHTML_paths (dom:=dom)) as (_ & Hne & _).
  rewrite Forall_forall in Hne. split; [done|].
  intros el fb j Hj Hu. split.
  - by apply extractJobFromElement_Some in Hj as [? _].
  - intros Hin. by apply Hne in Hin.
Qed.

End MarkupFacts.

(** ** The structured-data extractor: one record per posting *)

Module JsonLdFacts.
Import Json JsonLd.

(** Induction over parsed JSON, through arrays and objects. *)
Section ValueInduction.
Variable P : value -> Prop.
Hypothesis HNull : P Null.
Hypothesis HBool : forall b, P (Bool b).
Hypothesis HNum : forall n, P (Num n).
Hypothesis HStr : forall s, P (Str s).
Hypothesis HArr : forall items, Forall P items -> P (Arr items).
Hypothesis HObj : forall fields, Forall (fun kv => P (snd kv)) fields -> P (Obj fields).

Fixpoint value_induction (v : value) : P v :=
  match v with
  | Null => HNull
  | Bool b => HBool b
  | Num n => HNum n
  | Str s => HStr s
  | Arr items =>
      HArr items
        ((fix go (l : list value) : Forall P l :=
            match l with
            | [] => List.Forall_nil P
            | x :: r => @List.Forall_cons _ P x r (value_induction x) (go r)
            end) items)
  | Obj fields =>
      HObj fields
        ((fix go (l : list (string * value)) : Forall (fun kv => P (snd kv)) l :=
            match l with
            | [] => List.Forall_nil _
            | (k, x) :: r =>
                @List.Forall_cons _ (fun kv => P (snd kv)) (k, x) r (value_induction x) (go r)
            end) fields)
  end.
End ValueInduction.

Lemma lookup_plain fields key v :
  plain (Obj fields) = true -> lookup key fields = Some v -> plain v = true.
Proof.
  cbn [plain]. intros [_ Hall]%andb_true_iff.
  induction fields as [|[k x] rest IH]; cbn [lookup]; [done|].
  cbn [forallb snd] in Hall. apply andb_true_iff in Hall as [Hx Hrest].
  destruct (String.eqb k key); [by intros [= <-]|by apply IH].
Qed.

(** A plain value converts to a string. *)
Lemma plain_toString v : plain v = true -> exists s, toString v = Ret s.
Proof.
  induction v as [|b|n|s|items IH|fields IH] using value_induction;
    intros Hp; cbn [toString]; eauto.
  - destruct b; eauto.
  - cbn [plain] in Hp.
    induction IH as [|x rest Hx _ IHrest]; [eauto|].
    cbn [forallb] in Hp. apply andb_true_iff in Hp as [Hpx Hprest].
    destruct (IHrest Hprest) as [sr Hsr].
    assert (exists sx, match x with Null => Ret "" | _ => toString x end = Ret sx)
      as [sx Hsx] by (destruct x; eauto).
    rewrite Hsx. cbn [bind]. destruct rest; [eauto|].
    rewrite Hsr. cbn [bind]. eauto.
  - cbn [plain] in Hp. apply andb_true_iff in Hp as [Hno _].
    destruct (lookup "toString" fields) as [x|] eqn:Hl; [|eauto].
    exfalso. clear IH. induction fields as [|[k y] rest IHf]; [done|].
    cbn [existsb lookup fst] in *.
    destruct (String.eqb k "toString"); [done|]. by apply IHf.
Qed.

Lemma plain_join sep parts :
  forallb plain parts = true -> exists s, join sep parts = Ret s.
Proof.
  induction parts as [|x rest IH]; cbn [join forallb]; [eauto|].
  intros [Hx Hrest]%andb_true_iff.
  destruct (plain_toString x Hx) as [sx ->]. cbn [bind].
  destruct rest; [eauto|]. destruct (IH Hrest) as [sr ->]. cbn [bind]. eauto.
Qed.

(** Reading a property of a value that is not [null] does not throw, and a
    property of a plain value is plain. *)
Lemma get_not_null v key :
  isNull v = false ->
  exists r, get v key = Ret r /\ (plain v = true -> forall x, r = Some x -> plain x = true).
Proof.
  destruct v; try done; cbn [get]; intros _; eexists; (split; [done|]); try done.
  intros Hp x Hx. by eapply lookup_plain.
Qed.

Lemma orElse_not_null a b : isNull b = false -> isNull (orElse a b) = false.
Proof.
  intros Hb. unfold orElse. destruct a as [v|]; [|done].
  destruct (truthy (Some v)) eqn:Ht; [|done]. by destruct v.
Qed.

Lemma orElse_plain a b :
  (forall x, a = Some x -> plain x = true) -> plain b = true ->
  plain (orElse a b) = true.
Proof.
  intros Ha Hb. unfold orElse. destruct a as [v|]; [|done].
  destruct (truthy (Some v)); [by apply Ha|done].
Qed.

Lemma filterBoolean_plain parts :
  Forall (fun p => forall x, p = Some x -> plain x = true) parts ->
  forallb plain (filterBoolean parts) = true.
Proof.
  induction 1 as [|p rest Hp _ IH]; [done|].
  unfold filterBoolean in *. cbn [omap list_omap].
  destruct (truthy p); [|done]. destruct p as [x|]; [|done].
  cbn [forallb]. rewrite IH. by rewrite (Hp x).
Qed.




















(** The listing-level mapper copies title and URL, or leaves them empty,
    and reads the experience from the description only. *)
Lemma parseJobPosting_fields now fields job :
  parseJobPosting now (Obj fields) = Ret job ->
  Posting.title job = orElse (lookup "title" fields) (Str "")
  /\ Posting.url job = orElse (lookup "url" fields) (Str "")
  /\ extractExperience (orElse (lookup "description" fields) (Str ""))
     = Ret (Posting.experience job).
Proof.
  unfold parseJobPosting. cbn [get bind].
  repeat match goal with
         | |- bind ?m _ = _ -> _ =>
             let E := fresh "E" in destruct m eqn:E; cbn [bind]; [|discriminate]
         end.
  intros [= <-]. cbn. done.
Qed.

End JsonLdFacts.

Module JsonLdExamples.
Import Json JsonLd.



End JsonLdExamples.

(** ** Experience from structured data *)

Module ExperienceFacts.
Import Json JsonLd.

(** [roundDiv a b] is the integer nearest to [a / b], ties upwards. *)
Lemma roundDiv_nearest a b :
  0 < b -> 2 * b * roundDiv a b - b <= 2 * a < 2 * b * roundDiv a b + b.
Proof.
  intros Hb. unfold roundDiv.
  pose proof (Z.mul_div_le (2 * a + b) (2 * b) ltac:(lia)).
  pose proof (Z.mul_succ_div_gt (2 * a + b) (2 * b) ltac:(lia)).
  lia.
Qed.

(** With a number under [monthsOfExperience] the function returns the
    text computed from that number, whatever else the object holds. *)
Lemma normalizeExperience_number StringToNumber fields m :
  lookup "monthsOfExperience" fields = Some (Num m) ->
  normalizeExperienceFromJsonLd StringToNumber (Some (Obj fields))
  = Ret (yearsText m).
Proof.
  intros Hl. unfold normalizeExperienceFromJsonLd.
  cbn [truthy negb orElse get bind]. rewrite Hl. reflexivity.
Qed.

Lemma roundsExactly_to_1200 : forallb roundsExactly (seqZ 1 1200) = true.
Proof. vm_compute. reflexivity. Qed.

(** C8 (amended).  For an [experienceRequirements] object carrying a
    number [monthsOfExperience = m], finite and above 0,
    [normalizeExperienceFromJsonLd] returns
    [`${Math.max(0, Math.round((m / 12) * 10) / 10)} years`], computed as
    JavaScript computes on numbers.  For whole months from 1 to 1200 that
    is the numeral of [k / 10], where [k] is the integer nearest to
    [m / 12 * 10] (the upper one of two equally near); 30 months give
    "2.5 years".  It is not so for every number: 6.6 months give
    "0.5 years", because [(6.6 / 12) * 10] is a number just below 5.5.  The
    listing-level mapper [parseJobPosting] does not read
    [experienceRequirements]: the experience of its record is always the
    outcome of the pattern match on the description. *)
Theorem C8_months_to_years :
  forall StringToNumber fields m,
    lookup "monthsOfExperience" fields = Some (Num m) ->
    Number.isFinite m = true ->
    PrimFloat.leb m PrimFloat.zero = false ->
    normalizeExperienceFromJsonLd StringToNumber (Some (Obj fields))
    = Ret (Number.toString (years m) +:+ " years")
    /\ (forall k,
          1 <= k <= 1200 ->
          normalizeExperienceFromJsonLd StringToNumber
            (Some (Obj [("monthsOfExperience", Num (Number.ofZ k))]))
          = Ret (showTenths (roundDiv (k * 10) 12) +:+ " years")
          /\ 12 * roundDiv (k * 10) 12 - 6 <= 10 * k
             < 12 * roundDiv (k * 10) 12 + 6)
    /\ normalizeExperienceFromJsonLd StringToNumber
         (Some (Obj [("monthsOfExperience", Num (Number.ofZ 30))]))
       = Ret "2.5 years"
    /\ normalizeExperienceFromJsonLd StringToNumber
         (Some (Obj [("monthsOfExperience",
                      Num (PrimFloat.div (Number.ofZ 66) (Number.ofZ 10)))]))
       = Ret "0.5 years"
    /\ (forall now posting job,
          parseJobPosting now (Obj posting) = Ret job ->
          extractExperience (orElse (lookup "description" posting) (Str ""))
          = Ret (Posting.experience job)).
Proof.
  intros StringToNumber fields m Hl Hfin Hpos. split; [|split; [|split; [|split]]].
  - rewrite (normalizeExperience_number _ _ _ Hl). unfold yearsText.
    by rewrite Hfin, Hpos.
  - intros k Hk. split.
    + rewrite (normalizeExperience_number _ _ (Number.ofZ k)) by reflexivity.
      f_equal. apply String.eqb_eq.
      pose proof roundsExactly_to_1200 as Hall.
      rewrite forallb_forall in Hall. apply (Hall k).
      apply list_elem_of_In, elem_of_seqZ. lia.
    + pose proof (roundDiv_nearest (k * 10) 12 ltac:(lia)). lia.
  - rewrite (normalizeExperience_number _ _ (Number.ofZ 30)) by reflexivity.
    vm_compute. reflexivity.
  - rewrite (normalizeExperience_number _ _ (PrimFloat.div (Number.ofZ 66) (Number.ofZ 10)))
      by reflexivity.
    vm_compute. reflexivity.
  - intros now posting job Hjob.
    by apply JsonLdFacts.parseJobPosting_fields in Hjob as (_ & _ & ?).
Qed.

Lemma C8_months_to_years_witness :
  lookup "monthsOfExperience" [("monthsOfExperience", Num (Number.ofZ 18))]
  = Some (Num (Number.ofZ 18))
  /\ Number.isFinite (Number.ofZ 18) = true
  /\ PrimFloat.leb (Number.ofZ 18) PrimFloat.zero = false
  /\ normalizeExperienceFromJsonLd (fun _ => PrimFloat.nan)
       (Some (Obj [("monthsOfExperience", Num (Number.ofZ 18))]))
     = Ret "1.5 years".
Proof.
  assert (lookup "monthsOfExperience"
            [("monthsOfExperience", Num (Number.ofZ 18))]
          = Some (Num (Number.ofZ 18))) as Hl by reflexivity.
  assert (Number.isFinite (Number.ofZ 18) = true) as Hfin
    by (vm_compute; reflexivity).
  assert (PrimFloat.leb (Number.ofZ 18) PrimFloat.zero = false) as Hpos
    by (vm_compute; reflexivity).
  split; [exact Hl|]. split; [exact Hfin|]. split; [exact Hpos|].
  rewrite (proj1 (C8_months_to_years (fun _ => PrimFloat.nan) _ _ Hl Hfin Hpos)).
  vm_compute. reflexivity.
Defined.

(** C8 as stated fails for the structured-data extractor: the posting of
    scenario D gets no experience from its 30 months. *)
Lemma C8_counterexample :
  exists job,
    parseJobPosting "now" Sample.monthsPosting = Ret job
    /\ Posting.experience job = "Not specified"
    /\ Posting.experience job <> "2.5 years".
Proof. eexists. split; [reflexivity|]. split; [reflexivity|discriminate]. Qed.

End ExperienceFacts.

(** ** Which records are retained *)

Module RetentionFacts.
Import Markup MarkupFacts.

Lemma keptFrom_elem cands j : j ∈ keptFrom cands -> Some j ∈ cands.
Proof.
  unfold keptFrom, withUrl. intros Hj%firstByUrl_subseteq.
  apply list_elem_of_filter in Hj as [_ Hj].
  apply list_elem_of_omap in Hj as (c & Hc & Hid). unfold id in Hid. by subst c.
Qed.

Lemma withUrl_elem cands j : j ∈ withUrl cands -> Some j ∈ cands.
Proof.
  unfold withUrl. intros [_ Hj]%list_elem_of_filter.
  apply list_elem_of_omap in Hj as (c & Hc & Hid). unfold id in Hid. by subst c.
Qed.

Section Provenance.
Context {dom : Dom}.





End Provenance.



End RetentionFacts.

(** ** Detail fetch: classification and its effect on the batch *)

Module DetailFacts.

(** A blocked fetch leaves the record as it is and counts one block. *)
Lemma enrichLoop_blocked fetch job rest :
  Job.url job <> "" ->
  fetch (Job.url job) = Blocked ->
  Enrich.enrichLoop fetch (job :: rest)
  = (job :: (Enrich.enrichLoop fetch rest).1,
     (Enrich.enrichLoop fetch rest).2 + 1).
Proof.
  intros Hu Hb. cbn [Enrich.enrichLoop]. unfold Enrich.enrichJob.
  apply JsFacts.truthy_true in Hu. rewrite Hu, Hb. cbn [negb].
  by destruct (Enrich.enrichLoop fetch rest).
Qed.

Lemma enrichAll_blocked fetch job rest :
  Job.url job <> "" ->
  fetch (Job.url job) = Blocked ->
  EnrichHttp.enrichAll fetch (job :: rest)
  = (job :: (EnrichHttp.enrichAll fetch rest).1,
     (EnrichHttp.enrichAll fetch rest).2 + 1).
Proof.
  intros Hu Hb. cbn [EnrichHttp.enrichAll]. unfold EnrichHttp.enrichJob.
  apply JsFacts.truthy_true in Hu. rewrite Hu, Hb. cbn [negb].
  by destruct (EnrichHttp.enrichAll fetch rest).
Qed.

(** A fetch that is not blocked does not change the counter. *)
Lemma enrichLoop_not_blocked fetch job rest :
  (Job.url job = "" \/ fetch (Job.url job) <> Blocked) ->
  (Enrich.enrichLoop fetch (job :: rest)).2 = (Enrich.enrichLoop fetch rest).2.
Proof.
  intros H. cbn [Enrich.enrichLoop]. unfold Enrich.enrichJob.
  destruct (Js.truthy (Job.url job)) eqn:Et; cbn [negb].
  - destruct H as [H|H]; [by apply JsFacts.truthy_true in Et|].
    destruct (fetch (Job.url job)) as [| |d]; [done| |].
    + by destruct (Enrich.enrichLoop fetch rest).
    + destruct (Js.truthy (FullDesc.descriptionText d));
        by destruct (Enrich.enrichLoop fetch rest).
  - by destruct (Enrich.enrichLoop fetch rest).
Qed.

Lemma enrichAll_not_blocked fetch job rest :
  (Job.url job = "" \/ fetch (Job.url job) <> Blocked) ->
  (EnrichHttp.enrichAll fetch (job :: rest)).2 = (EnrichHttp.enrichAll fetch rest).2.
Proof.
  intros H. cbn [EnrichHttp.enrichAll]. unfold EnrichHttp.enrichJob.
  destruct (Js.truthy (Job.url job)) eqn:Et; cbn [negb].
  - destruct H as [H|H]; [by apply JsFacts.truthy_true in Et|].
    destruct (fetch (Job.url job)) as [| |d]; [done| |].
    + by destruct (EnrichHttp.enrichAll fetch rest).
    + destruct (Js.truthy (FullDesc.descriptionText d) || _);
        by destruct (EnrichHttp.enrichAll fetch rest).
  - by destruct (EnrichHttp.enrichAll fetch rest).
Qed.

Import DetailHttp.

Lemma viaSession_blocked f status body :
  session f = Responded status body ->
  isBlockStatus status = true ->
  viaSession f = Blocked.
Proof. intros Hs Hb. unfold viaSession. by rewrite Hs, Hb. Qed.

Lemma afterBody_challenge f body doc :
  load f body = Json.Ret doc ->
  isChallengeTitle (titleText doc) = true ->
  afterBody f body = Blocked.
Proof. intros Hl Ht. unfold afterBody, analyse. by rewrite Hl, Ht. Qed.

(** C4 (amended).  In the HTTP variant: a 403, 503 or 429 on the fast
    request only hands the fetch over to the request made through the
    browser session; when that request answers 403, 503 or 429 the fetch
    is Blocked; and a document answered with status 200 (on either
    request) whose title contains "Just a moment", "Cloudflare" or
    "Security check" is Blocked.  In the browser variant the status is never
    consulted: a tab whose title matches a challenge signature, in any
    letter case, is Blocked.  In both variants a Blocked fetch keeps the
    record unchanged in its place and adds exactly one to the block
    counter, and only a Blocked fetch adds to it. *)
Theorem C4_blocked_classification :
  (forall f status body,
      fast f = Responded status body ->
      isBlockStatus status = true ->
      fetchFullDescription f = viaSession f)
  /\ (forall f status body,
        session f = Responded status body ->
        isBlockStatus status = true ->
        viaSession f = Blocked)
  /\ (forall f body doc,
        load f body = Json.Ret doc ->
        isChallengeTitle (titleText doc) = true ->
        (fast f = Responded 200 body -> fetchFullDescription f = Blocked)
        /\ (session f = Responded 200 body -> viaSession f = Blocked))
  /\ (forall tab t,
        Detail.title tab = Json.Ret t ->
        Detail.isBlockTitle t = true ->
        Detail.fetchFullDescription tab = Blocked)
  /\ (forall fetch job rest,
        Job.url job <> "" ->
        fetch (Job.url job) = Blocked ->
        Enrich.enrichLoop fetch (job :: rest)
        = (job :: (Enrich.enrichLoop fetch rest).1,
           (Enrich.enrichLoop fetch rest).2 + 1)
        /\ EnrichHttp.enrichAll fetch (job :: rest)
           = (job :: (EnrichHttp.enrichAll fetch rest).1,
              (EnrichHttp.enrichAll fetch rest).2 + 1))
  /\ (forall fetch job rest,
        (Job.url job = "" \/ fetch (Job.url job) <> Blocked) ->
        (Enrich.enrichLoop fetch (job :: rest)).2
        = (Enrich.enrichLoop fetch rest).2
        /\ (EnrichHttp.enrichAll fetch (job :: rest)).2
           = (EnrichHttp.enrichAll fetch rest).2).
Proof.
  repeat apply conj.
  - intros f status body Hf Hb. unfold fetchFullDescription. by rewrite Hf, Hb.
  - apply viaSession_blocked.
  - intros f body doc Hl Ht. split.
    + intros Hf. unfold fetchFullDescription. rewrite Hf. cbn.
      by apply afterBody_challenge with doc.
    + intros Hs. unfold viaSession. rewrite Hs. cbn.
      by apply afterBody_challenge with doc.
  - intros tab t Ht Hb. unfold Detail.fetchFullDescription. by rewrite Ht, Hb.
  - intros fetch job rest Hu Hb. split;
      [by apply enrichLoop_blocked | by apply enrichAll_blocked].
  - intros fetch job rest H. split;
      [by apply enrichLoop_not_blocked | by apply enrichAll_not_blocked].
Qed.

End DetailFacts.

Module DetailExamples.
Import DetailHttp.

Lemma C4_blocked_classification_witness :
  session Sample.bothBlocked = Responded 403 ""
  /\ isBlockStatus 403 = true
  /\ fetchFullDescription Sample.bothBlocked = Blocked.
Proof.
  assert (fast Sample.bothBlocked = Responded 403 "") as Hf by reflexivity.
  assert (session Sample.bothBlocked = Responded 403 "") as Hs by reflexivity.
  assert (isBlockStatus 403 = true) as Hb by reflexivity.
  split; [exact Hs|]. split; [exact Hb|].
  destruct DetailFacts.C4_blocked_classification as (Hfast & Hsession & _).
  rewrite (Hfast _ _ _ Hf Hb). exact (Hsession _ _ _ Hs Hb).
Defined.

(** C4 as stated fails: a 403 answered to the fast request does not make
    the fetch Blocked when the session request succeeds, and a challenge
    title is not looked at when the status is not 200. *)
Lemma C4_counterexample :
  fast Sample.fastBlocked = Responded 403 ""
  /\ fetchFullDescription Sample.fastBlocked <> Blocked
  /\ isChallengeTitle (titleText Sample.challengeDocument) = true
  /\ fetchFullDescription Sample.challenge404 = NoContent.
Proof. repeat split; try reflexivity. discriminate. Qed.

End DetailExamples.

(** ** The merge of a fetched description into a record *)

Module StringAppend.

Lemma append_cons_nonempty' c a b : String c a +:+ b <> "".
Proof. done. Qed.

End StringAppend.

Module MergeFacts.

Lemma or_else_nonempty a b : b <> "" -> Js.or_else a b <> "".
Proof.
  intros Hb. unfold Js.or_else. destruct a as [s|]; [|done].
  destruct (Js.truthy s) eqn:E; [|done]. by apply JsFacts.truthy_true.
Qed.

Lemma or_else_cases a b :
  Js.or_else a b = match a with
                   | Some s => if Js.truthy s then s else b
                   | None => b
                   end.
Proof. done. Qed.

(** The markup of a description found by the selectors is never empty. *)
Lemma extractCleanSection_html ch probe sels minTextLength d :
  CleanSection.extractCleanSectionFromCheerio ch probe sels minTextLength
  = Some d ->
  descHtml d <> "".
Proof.
  induction sels as [|sel rest IH];
    cbn [CleanSection.extractCleanSectionFromCheerio]; [done|].
  cbv zeta.
  repeat (case_match; try exact IH).
  intros [= <-]. cbn [descHtml].
  match goal with
  | H : negb (Js.truthy ?h) || _ = false |- ?h <> "" =>
      apply orb_false_iff in H as [H _]; apply negb_false_iff in H;
      by apply JsFacts.truthy_true
  end.
Qed.

Lemma extractRawDescription_html probe sels d :
  CleanSection.extractRawDescription probe sels = Some d -> descHtml d <> "".
Proof.
  induction sels as [|sel rest IH];
    cbn [CleanSection.extractRawDescription]; [done|].
  cbv zeta.
  repeat (case_match; try exact IH).
  all: intros [= <-]; cbn [descHtml];
    match goal with
    | H : _ && Js.truthy ?h = true |- ?h <> "" =>
        apply andb_true_iff in H as [_ H]; by apply JsFacts.truthy_true
    end.
Qed.

Lemma hasTag_nonempty desc : JsonLd.hasTag desc = true -> desc <> "".
Proof. by intros H ->. Qed.

(** The fetcher of [src/main.js] never returns a description without
    markup. *)
Lemma fetchFullDescription_html tab d :
  Detail.fetchFullDescription tab = Described d ->
  FullDesc.descriptionHtml d <> "".
Proof.
  unfold Detail.fetchFullDescription, Detail.ofSection, Detail.described.
  repeat case_match; try done; intros [= <-]; cbn [FullDesc.descriptionHtml].
  - by apply hasTag_nonempty.
  - apply StringAppend.append_cons_nonempty'.
  - by eapply extractCleanSection_html.
  - by eapply extractRawDescription_html.
Qed.

(** C7 (amended).  In the field-by-field merge, every field of the merged
    record is the fetched value when that value is non-empty and the
    listing value otherwise, so no non-empty listing value is replaced by
    an empty one; the URL and the capture time are never touched.  The
    fetched experience, salary and job type follow the same rule: when
    non-empty they replace the listing value, empty or not.  In
    [src/main.js] the enrichment of a record replaces the two description
    fields together, only when the fetched text is non-empty, and nothing
    else; the markup its fetcher returns is never empty, so there too no
    non-empty field is replaced by an empty one. *)
Theorem C7_merge_never_blanks :
  forall job d,
    let merged := EnrichHttp.merge job d in
    (Job.title merged = Js.or_else (FullDesc.title d) (Job.title job)
     /\ Job.company merged = Js.or_else (FullDesc.company d) (Job.company job)
     /\ Job.location merged = Js.or_else (FullDesc.location d) (Job.location job)
     /\ Job.postedDate merged = Js.or_else (FullDesc.postedDate d) (Job.postedDate job)
     /\ Job.experience merged = Js.or_else (FullDesc.experience d) (Job.experience job)
     /\ Job.salary merged = Js.or_else (FullDesc.salary d) (Job.salary job)
     /\ Job.jobType merged = Js.or_else (FullDesc.jobType d) (Job.jobType job)
     /\ Job.descriptionHtml merged
        = Js.or_else (Some (FullDesc.descriptionHtml d)) (Job.descriptionHtml job)
     /\ Job.descriptionText merged
        = Js.or_else (Some (FullDesc.descriptionText d)) (Job.descriptionText job)
     /\ Job.tags merged = Js.or_elseO (FullDesc.tags d) (Job.tags job)
     /\ Job.jobId merged = Js.or_elseO (FullDesc.jobId d) (Job.jobId job)
     /\ Job.url merged = Job.url job
     /\ Job.scrapedAt merged = Job.scrapedAt job)
    /\ ((Job.title job <> "" -> Job.title merged <> "")
        /\ (Job.company job <> "" -> Job.company merged <> "")
        /\ (Job.location job <> "" -> Job.location merged <> "")
        /\ (Job.postedDate job <> "" -> Job.postedDate merged <> "")
        /\ (Job.experience job <> "" -> Job.experience merged <> "")
        /\ (Job.salary job <> "" -> Job.salary merged <> "")
        /\ (Job.jobType job <> "" -> Job.jobType merged <> "")
        /\ (Job.descriptionHtml job <> "" -> Job.descriptionHtml merged <> "")
        /\ (Job.descriptionText job <> "" -> Job.descriptionText merged <> "")
        /\ (Js.truthyO (Job.tags job) = true -> Js.truthyO (Job.tags merged) = true)
        /\ (Js.truthyO (Job.jobId job) = true -> Js.truthyO (Job.jobId merged) = true))
    /\ (forall s, FullDesc.experience d = Some s -> s <> "" ->
                  Job.experience merged = s)
    /\ (forall s, FullDesc.salary d = Some s -> s <> "" -> Job.salary merged = s)
    /\ (forall s, FullDesc.jobType d = Some s -> s <> "" -> Job.jobType merged = s)
    /\ (let replaced := Enrich.withDescription job d in
        Job.descriptionHtml replaced = FullDesc.descriptionHtml d
        /\ Job.descriptionText replaced = FullDesc.descriptionText d
        /\ Job.title replaced = Job.title job
        /\ Job.company replaced = Job.company job
        /\ Job.location replaced = Job.location job
        /\ Job.postedDate replaced = Job.postedDate job
        /\ Job.experience replaced = Job.experience job
        /\ Job.salary replaced = Job.salary job
        /\ Job.jobType replaced = Job.jobType job
        /\ Job.url replaced = Job.url job)
    /\ (forall tabs : string -> Detail.Tab,
        let fetch := fun jobUrl => Detail.fetchFullDescription (tabs jobUrl) in
        let enriched := (Enrich.enrichJob fetch job).1 in
        (enriched = job
         \/ exists fetched,
              fetch (Job.url job) = Described fetched
              /\ FullDesc.descriptionText fetched <> ""
              /\ enriched = Enrich.withDescription job fetched)
        /\ (Job.descriptionHtml job <> "" -> Job.descriptionHtml enriched <> "")
        /\ (Job.descriptionText job <> "" -> Job.descriptionText enriched <> "")
        /\ Job.title enriched = Job.title job
        /\ Job.company enriched = Job.company job
        /\ Job.location enriched = Job.location job
        /\ Job.postedDate enriched = Job.postedDate job
        /\ Job.experience enriched = Job.experience job
        /\ Job.salary enriched = Job.salary job
        /\ Job.jobType enriched = Job.jobType job
        /\ Job.tags enriched = Job.tags job
        /\ Job.jobId enriched = Job.jobId job
        /\ Job.url enriched = Job.url job
        /\ Job.scrapedAt enriched = Job.scrapedAt job).
Proof.
  intros job d. cbv zeta.
  assert (Hmain : forall tabs : string -> Detail.Tab,
    let fetch := fun jobUrl => Detail.fetchFullDescription (tabs jobUrl) in
    let enriched := (Enrich.enrichJob fetch job).1 in
    (enriched = job
     \/ exists fetched,
          fetch (Job.url job) = Described fetched
          /\ FullDesc.descriptionText fetched <> ""
          /\ enriched = Enrich.withDescription job fetched)
    /\ (Job.descriptionHtml job <> "" -> Job.descriptionHtml enriched <> "")
    /\ (Job.descriptionText job <> "" -> Job.descriptionText enriched <> "")
    /\ Job.title enriched = Job.title job
    /\ Job.company enriched = Job.company job
    /\ Job.location enriched = Job.location job
    /\ Job.postedDate enriched = Job.postedDate job
    /\ Job.experience enriched = Job.experience job
    /\ Job.salary enriched = Job.salary job
    /\ Job.jobType enriched = Job.jobType job
    /\ Job.tags enriched = Job.tags job
    /\ Job.jobId enriched = Job.jobId job
    /\ Job.url enriched = Job.url job
    /\ Job.scrapedAt enriched = Job.scrapedAt job).
  { intros tabs. cbv zeta. unfold Enrich.enrichJob.
    destruct (negb (Js.truthy (Job.url job))); cbn [fst];
      [by repeat split; auto|].
    destruct (Detail.fetchFullDescription (tabs (Job.url job))) as [| |fetched]
      eqn:Hfetch; cbn [fst]; [by repeat split; auto..|].
    destruct (Js.truthy (FullDesc.descriptionText fetched)) eqn:Htext; cbn [fst];
      [|by repeat split; auto].
    apply JsFacts.truthy_true in Htext.
    pose proof (fetchFullDescription_html _ _ Hfetch) as Hhtml.
    split; [right; by exists fetched|].
    unfold Enrich.withDescription.
    cbn [Job.title Job.company Job.location Job.postedDate Job.experience
         Job.salary Job.jobType Job.descriptionHtml Job.descriptionText
         Job.tags Job.jobId Job.url Job.scrapedAt].
    repeat split; auto. }
  assert (forall a s, a = Some s -> s <> "" -> forall b, Js.or_else a b = s) as Hwin.
  { intros a s -> Hs b. cbn. by apply JsFacts.truthy_true in Hs as ->. }
  assert (forall a b, Js.truthyO b = true -> Js.truthyO (Js.or_elseO a b) = true)
    as HO.
  { intros a b Hb. unfold Js.or_elseO. by destruct (Js.truthyO a) eqn:E. }
  unfold EnrichHttp.merge, Enrich.withDescription.
  cbn [Job.title Job.company Job.location Job.postedDate Job.experience
       Job.salary Job.jobType Job.descriptionHtml Job.descriptionText
       Job.tags Job.jobId Job.url Job.scrapedAt].
  split; [|split; [|split; [|split; [|split; [|split; [|exact Hmain]]]]]].
  - repeat split.
  - repeat apply conj; try apply or_else_nonempty; apply HO.
  - intros s Hs Hne. by apply Hwin.
  - intros s Hs Hne. by apply Hwin.
  - intros s Hs Hne. by apply Hwin.
  - repeat split.
Qed.

(** C7 as stated fails: the experience probed from the detail page replaces
    a listing value that was not empty. *)
Lemma C7_counterexample :
  Job.experience (Sample.job "Sales Manager" "https://www.naukri.com/job-listings-a")
  = "2-5 Yrs"
  /\ Job.experience
       (EnrichHttp.merge
          (Sample.job "Sales Manager" "https://www.naukri.com/job-listings-a")
          Sample.detailed)
     = "5 years".
Proof. split; reflexivity. Qed.

End MergeFacts.

(** ** The sanitiser *)

Module SanitizeFacts.
Import Html.

(** Induction on a node with the property known of its children. *)
Fixpoint node_induction (P : node -> Prop)
    (HE : forall tag attrs kids, Forall P kids -> P (Elem tag attrs kids))
    (HT : forall d, P (Text d)) (HC : forall d, P (Comment d))
    (n : node) : P n :=
  match n with
  | Elem tag attrs kids =>
      HE tag attrs kids
        ((fix all (l : list node) : Forall P l :=
            match l with
            | [] => List.Forall_nil P
            | k :: r =>
                @List.Forall_cons _ P k r (node_induction P HE HT HC k) (all r)
            end) kids)
  | Text d => HT d
  | Comment d => HC d
  end.

Lemma forallb_flat_map {A B} (p : A -> bool) (q : B -> bool)
    (f : A -> list B) (l : list A) :
  Forall (fun x => p x = true -> forallb q (f x) = true) l ->
  forallb p l = true -> forallb q (flat_map f l) = true.
Proof.
  induction 1 as [|x l Hx _ IH]; cbn [forallb flat_map]; [reflexivity|].
  intros [Hp Hl]%andb_true_iff.
  rewrite forallb_app, (Hx Hp), (IH Hl). reflexivity.
Qed.

Lemma forallb_map_with {A B} (p : A -> bool) (q : B -> bool)
    (f : A -> B) (l : list A) :
  Forall (fun x => p x = true -> q (f x) = true) l ->
  forallb p l = true -> forallb q (map f l) = true.
Proof.
  induction 1 as [|x l Hx _ IH]; cbn [forallb map]; [reflexivity|].
  intros [Hp Hl]%andb_true_iff.
  rewrite (Hx Hp), (IH Hl). reflexivity.
Qed.

Lemma flat_map_single {A} (p : A -> bool) (f : A -> list A) (l : list A) :
  Forall (fun x => p x = true -> f x = [x]) l ->
  forallb p l = true -> flat_map f l = l.
Proof.
  induction 1 as [|x l Hx _ IH]; cbn [forallb flat_map]; [reflexivity|].
  intros [Hp Hl]%andb_true_iff.
  rewrite (Hx Hp), (IH Hl). reflexivity.
Qed.

Lemma map_same {A} (p : A -> bool) (f : A -> A) (l : list A) :
  Forall (fun x => p x = true -> f x = x) l ->
  forallb p l = true -> map f l = l.
Proof.
  induction 1 as [|x l Hx _ IH]; cbn [forallb map]; [reflexivity|].
  intros [Hp Hl]%andb_true_iff.
  rewrite (Hx Hp), (IH Hl). reflexivity.
Qed.

Lemma Forall_drop_premise {A} (P : A -> Prop) (l : list A) :
  Forall P l -> forall (p : A -> bool), Forall (fun x => p x = true -> P x) l.
Proof. intros H p. eapply Forall_impl; [exact H|]. auto. Qed.

(** *** The passes, one by one *)

Lemma removeNoise_named (n : node) :
  named n = true -> forallb named (removeNoise n) = true.
Proof.
  induction n as [tag attrs kids IH| |] using node_induction;
    [|reflexivity|reflexivity].
  cbn [named removeNoise]. intros [Ht Hk]%andb_true_iff.
  destruct (member tag noiseTags); [reflexivity|].
  cbn [forallb named]. rewrite Ht, (forallb_flat_map _ _ _ _ IH Hk).
  reflexivity.
Qed.

Lemma unwrap_tagsOk (n : node) :
  named n = true -> forallb tagsOk (unwrap n) = true.
Proof.
  induction n as [tag attrs kids IH| |] using node_induction;
    [|reflexivity|reflexivity].
  cbn [named unwrap]. intros [Ht Hk]%andb_true_iff.
  pose proof (forallb_flat_map _ _ _ _ IH Hk) as Hkids.
  cbv zeta. destruct (kept tag) eqn:Hkept; [|exact Hkids].
  cbn [forallb tagsOk]. rewrite Hkids.
  unfold kept in Hkept. cbv zeta in Hkept. rewrite Ht in Hkept.
  cbn [negb orb] in Hkept.
  rewrite Hkept. reflexivity.
Qed.

Lemma keepHref_ok (attrs : list (string * string)) :
  forallb isHref (keepHref attrs) = true.
Proof.
  unfold keepHref. induction attrs as [|a attrs IH]; [reflexivity|].
  cbn [List.filter]. destruct (String.eqb _ _) eqn:Ha; [|exact IH].
  cbn [forallb]. unfold isHref at 1. rewrite Ha, IH. reflexivity.
Qed.

Lemma stripAttrs_tagsOk (n : node) :
  tagsOk n = true -> tagsOk (stripAttrs n) = true.
Proof.
  induction n as [tag attrs kids IH| |] using node_induction;
    [|reflexivity|reflexivity].
  cbn [tagsOk stripAttrs]. intros [Ht Hk]%andb_true_iff.
  rewrite Ht, (forallb_map_with _ _ _ _ IH Hk). reflexivity.
Qed.

Lemma stripAttrs_attrsOk (n : node) : attrsOk (stripAttrs n) = true.
Proof.
  induction n as [tag attrs kids IH| |] using node_induction;
    [|reflexivity|reflexivity].
  cbn [attrsOk stripAttrs]. rewrite keepHref_ok. cbn [andb].
  apply (forallb_map_with (fun _ => true) attrsOk stripAttrs kids).
  - apply Forall_drop_premise, IH.
  - clear. induction kids; [reflexivity | assumption].
Qed.

Lemma dropEmpty_tagsOk (n : node) :
  tagsOk n = true -> forallb tagsOk (dropEmpty n) = true.
Proof.
  induction n as [tag attrs kids IH| |] using node_induction;
    [|reflexivity|reflexivity].
  cbn [tagsOk dropEmpty]. intros [Ht Hk]%andb_true_iff.
  destruct (isEmpty kids); [reflexivity|].
  cbn [forallb tagsOk]. rewrite Ht, (forallb_flat_map _ _ _ _ IH Hk).
  reflexivity.
Qed.

Lemma dropEmpty_attrsOk (n : node) :
  attrsOk n = true -> forallb attrsOk (dropEmpty n) = true.
Proof.
  induction n as [tag attrs kids IH| |] using node_induction;
    [|reflexivity|reflexivity].
  cbn [attrsOk dropEmpty]. intros [Ht Hk]%andb_true_iff.
  destruct (isEmpty kids); [reflexivity|].
  cbn [forallb attrsOk]. rewrite Ht, (forallb_flat_map _ _ _ _ IH Hk).
  reflexivity.
Qed.

Lemma Forall_all {A} (P : A -> Prop) (l : list A) :
  (forall x, P x) -> Forall P l.
Proof. intros H. induction l; constructor; auto. Qed.

(** The output of the four passes holds allow-listed tags and [href]
    attributes only, whatever the fragment (its elements having names). *)
Lemma sanitizeNodes_clean (nodes : list node) :
  forallb named nodes = true -> clean (sanitizeNodes nodes) = true.
Proof.
  intros Hn. unfold clean, sanitizeNodes.
  assert (H1 : forallb named (flat_map removeNoise nodes) = true).
  { apply (forallb_flat_map named); [|exact Hn].
    apply Forall_all, removeNoise_named. }
  assert (H2 : forallb tagsOk (flat_map unwrap (flat_map removeNoise nodes)) = true).
  { apply (forallb_flat_map named); [|exact H1].
    apply Forall_all, unwrap_tagsOk. }
  set (l := flat_map unwrap (flat_map removeNoise nodes)) in *.
  assert (H3 : forallb tagsOk (map stripAttrs l) = true).
  { apply (forallb_map_with tagsOk); [|exact H2].
    apply Forall_all, stripAttrs_tagsOk. }
  assert (H4 : forallb attrsOk (map stripAttrs l) = true).
  { clear. induction l as [|x l IH]; [reflexivity|].
    cbn [map forallb]. rewrite stripAttrs_attrsOk, IH. reflexivity. }
  apply andb_true_iff. split.
  - apply (forallb_flat_map tagsOk); [|exact H3].
    apply Forall_all, dropEmpty_tagsOk.
  - apply (forallb_flat_map attrsOk); [|exact H4].
    apply Forall_all, dropEmpty_attrsOk.
Qed.

(** *** The passes on a clean fragment *)

Lemma allowed_not_noise (tag : string) :
  member (Js.toLowerCase tag) allowedTags = true ->
  member tag noiseTags = false.
Proof.
  intros H. destruct (member tag noiseTags) eqn:E; [|reflexivity].
  unfold member, noiseTags in E. cbn [existsb] in E.
  repeat (apply orb_true_iff in E;
          destruct E as [E|E];
          [apply String.eqb_eq in E; subst tag; vm_compute in H; discriminate|]).
  discriminate.
Qed.

Lemma removeNoise_tagsOk (n : node) : tagsOk n = true -> removeNoise n = [n].
Proof.
  induction n as [tag attrs kids IH| |] using node_induction;
    [|reflexivity|reflexivity].
  cbn [tagsOk removeNoise]. intros [Ht Hk]%andb_true_iff.
  rewrite (allowed_not_noise _ Ht), (flat_map_single _ _ _ IH Hk).
  reflexivity.
Qed.

Lemma unwrap_tagsOk_same (n : node) : tagsOk n = true -> unwrap n = [n].
Proof.
  induction n as [tag attrs kids IH| |] using node_induction;
    [|reflexivity|reflexivity].
  cbn [tagsOk unwrap]. intros [Ht Hk]%andb_true_iff.
  cbv zeta. unfold kept. rewrite Ht, orb_true_r.
  rewrite (flat_map_single _ _ _ IH Hk). reflexivity.
Qed.

Lemma keepHref_same (attrs : list (string * string)) :
  forallb isHref attrs = true -> keepHref attrs = attrs.
Proof.
  unfold keepHref. induction attrs as [|a attrs IH]; [reflexivity|].
  cbn [forallb List.filter]. intros [Ha Hr]%andb_true_iff.
  unfold isHref in Ha. rewrite Ha, (IH Hr). reflexivity.
Qed.

Lemma stripAttrs_attrsOk_same (n : node) :
  attrsOk n = true -> stripAttrs n = n.
Proof.
  induction n as [tag attrs kids IH| |] using node_induction;
    [|reflexivity|reflexivity].
  cbn [attrsOk stripAttrs]. intros [Ha Hk]%andb_true_iff.
  rewrite (keepHref_same _ Ha), (map_same _ _ _ IH Hk). reflexivity.
Qed.

Lemma dropEmpty_solid (n : node) : solid n = true -> dropEmpty n = [n].
Proof.
  induction n as [tag attrs kids IH| |] using node_induction;
    [|reflexivity|reflexivity].
  cbn [solid dropEmpty]. intros [He Hk]%andb_true_iff.
  apply negb_true_iff in He. rewrite He.
  rewrite (flat_map_single _ _ _ IH Hk). reflexivity.
Qed.

(** On a clean fragment only the last pass can change anything. *)
Lemma sanitizeNodes_of_clean (nodes : list node) :
  clean nodes = true -> sanitizeNodes nodes = flat_map dropEmpty nodes.
Proof.
  intros [Ht Ha]%andb_true_iff. unfold sanitizeNodes.
  rewrite (flat_map_single tagsOk removeNoise nodes);
    [|apply Forall_all, removeNoise_tagsOk|exact Ht].
  rewrite (flat_map_single tagsOk unwrap nodes);
    [|apply Forall_all, unwrap_tagsOk_same|exact Ht].
  rewrite (map_same attrsOk stripAttrs nodes);
    [|apply Forall_all, stripAttrs_attrsOk_same|exact Ha].
  reflexivity.
Qed.

(** Sanitising a sanitised fragment runs the last pass once more on it. *)
Lemma sanitizeNodes_twice (nodes : list node) :
  forallb named nodes = true ->
  sanitizeNodes (sanitizeNodes nodes) = flat_map dropEmpty (sanitizeNodes nodes).
Proof. intros H. apply sanitizeNodes_of_clean, sanitizeNodes_clean, H. Qed.

(** So the second run changes nothing when the first left no empty
    element. *)
Lemma sanitizeNodes_twice_solid (nodes : list node) :
  forallb named nodes = true ->
  forallb solid (sanitizeNodes nodes) = true ->
  sanitizeNodes (sanitizeNodes nodes) = sanitizeNodes nodes.
Proof.
  intros Hn Hs. rewrite (sanitizeNodes_twice _ Hn).
  apply (flat_map_single solid); [|exact Hs].
  apply Forall_all, dropEmpty_solid.
Qed.

(** The last pass leaves an element it has just emptied. *)
Lemma sanitizeNodes_leaves_empty :
  sanitizeNodes [Elem "p" [] [Elem "br" [] []]] = [Elem "p" [] []]
  /\ sanitizeNodes [Elem "p" [] []] = [].
Proof. split; reflexivity. Qed.

(** C6 (sanitising is idempotent, and the output holds allow-listed tags
    and [href] attributes only).  The second half holds of the code
    ([sanitizeNodes_clean]); the first does not.  A paragraph holding only a
    line break, [<p><br></p>], is read as a [p] element with a [br] child.
    The pass that removes empty nodes visits the [p] first, while it still
    has its child, and keeps it; it then removes the [br], and the result
    is the empty paragraph [<p></p>].  Sanitised again, that paragraph is
    empty when visited and is removed: the second result is the empty
    string.  This holds with any parser and serialiser that read and write
    these two fragments as HTML does. *)
Theorem C6_sanitize_twice_differs (ch : Cheerio) :
  load ch (wrapped "<p><br></p>") = [Elem "p" [] [Elem "br" [] []]] ->
  load ch (wrapped "<p></p>") = [Elem "p" [] []] ->
  html ch [Elem "p" [] []] = "<p></p>" ->
  html ch [] = "" ->
  sanitizeHtmlFragment ch "<p><br></p>" = "<p></p>"
  /\ sanitizeHtmlFragment ch (sanitizeHtmlFragment ch "<p><br></p>") = "".
Proof.
  intros L1 L2 H1 H0.
  assert (E1 : sanitizeHtmlFragment ch "<p><br></p>" = "<p></p>").
  { unfold sanitizeHtmlFragment. cbn [Js.truthy negb].
    change (negb (Js.truthy "<p><br></p>")) with false. cbv iota.
    rewrite L1. rewrite (proj1 sanitizeNodes_leaves_empty), H1. reflexivity. }
  split; [exact E1|].
  rewrite E1. unfold sanitizeHtmlFragment.
  change (negb (Js.truthy "<p></p>")) with false. cbv iota.
  rewrite L2. rewrite (proj2 sanitizeNodes_leaves_empty), H0. reflexivity.
Qed.

End SanitizeFacts.

Module SanitizeExamples.
Import Html.

Lemma C6_sanitize_twice_differs_witness :
  sanitizeHtmlFragment MiniHtml.cheerio "<p><br></p>" = "<p></p>"
  /\ sanitizeHtmlFragment MiniHtml.cheerio
       (sanitizeHtmlFragment MiniHtml.cheerio "<p><br></p>") = "".
Proof.
  apply (SanitizeFacts.C6_sanitize_twice_differs MiniHtml.cheerio);
    reflexivity.
Defined.

End SanitizeExamples.

(** ** Strings and characters *)

Module StringFacts.
Import Text.

Lemma list_ascii_app (a b : string) :
  list_ascii_of_string (a +:+ b) = list_ascii_of_string a ++ list_ascii_of_string b.
Proof.
  induction a as [|c a IH]; [done|].
  simpl. by rewrite IH.
Qed.

Lemma string_of_list_app (a b : list ascii) :
  string_of_list_ascii (a ++ b) = string_of_list_ascii a +:+ string_of_list_ascii b.
Proof. induction a as [|c a IH]; [done|]. simpl. by rewrite IH. Qed.

Lemma append_assoc (a b c : string) : (a +:+ b) +:+ c = a +:+ b +:+ c.
Proof.
  induction a as [|x a IH]; [done|].
  change (String x ((a +:+ b) +:+ c) = String x (a +:+ b +:+ c)).
  by rewrite IH.
Qed.

Lemma string_nonempty (s : string) :
  s <> "" <-> list_ascii_of_string s <> [].
Proof. by destruct s. Qed.

Lemma isDigit_cases c :
  Js.isDigit c = true ->
  c ∈ ["0"; "1"; "2"; "3"; "4"; "5"; "6"; "7"; "8"; "9"]%char.
Proof.
  destruct c as [[] [] [] [] [] [] [] []]; vm_compute; intros H;
    try discriminate H; set_solver.
Qed.

(** White space is none of the characters the program looks for. *)
Lemma isSpace_other c :
  Js.isSpace c = true ->
  Ascii.eqb c "<" = false /\ Ascii.eqb c ">" = false
  /\ Js.isDigit c = false /\ Js.lowerChar c = c.
Proof.
  destruct c as [[] [] [] [] [] [] [] []]; vm_compute; intros H;
    try discriminate H; done.
Qed.

Lemma isSpace_lower c : Js.isSpace (Js.lowerChar c) = Js.isSpace c.
Proof. by destruct c as [[] [] [] [] [] [] [] []]. Qed.

(** *** [takeWhile] and [dropWhile] *)

Lemma takeWhile_app {A} (p : A -> bool) l x rest :
  forallb p l = true -> p x = false ->
  Js.takeWhile p (l ++ x :: rest) = l
  /\ Js.dropWhile p (l ++ x :: rest) = x :: rest.
Proof.
  intros Hl Hx. induction l as [|a l IH]; cbn in *; [by rewrite Hx|].
  apply andb_true_iff in Hl as [-> Hl]. destruct (IH Hl) as [-> ->]. done.
Qed.

Lemma takeWhile_all {A} (p : A -> bool) l :
  forallb p l = true -> Js.takeWhile p l = l.
Proof.
  induction l as [|a l IH]; [done|]. cbn.
  intros [-> Hl]%andb_true_iff. by rewrite IH.
Qed.

Lemma takeWhile_forallb {A} (p : A -> bool) l :
  forallb p (Js.takeWhile p l) = true.
Proof.
  induction l as [|a l IH]; [done|]. cbn.
  destruct (p a) eqn:Ha; [|done]. cbn. by rewrite Ha.
Qed.

Lemma takeWhile_dropWhile {A} (p : A -> bool) l :
  Js.takeWhile p l ++ Js.dropWhile p l = l.
Proof.
  induction l as [|a l IH]; [done|]. cbn.
  destruct (p a); [|done]. cbn. by rewrite IH.
Qed.

Lemma dropWhile_head {A} (p : A -> bool) l :
  match Js.dropWhile p l with
  | [] => True
  | x :: _ => p x = false
  end.
Proof.
  induction l as [|a l IH]; [done|]. cbn.
  destruct (p a) eqn:Ha; [done|]. exact Ha.
Qed.

Lemma dropWhile_same {A} (p : A -> bool) x l :
  p x = false -> Js.dropWhile p (x :: l) = x :: l.
Proof. intros H. cbn. by rewrite H. Qed.

Lemma forallb_rev {A} (p : A -> bool) l :
  forallb p l = true -> forallb p (rev l) = true.
Proof.
  rewrite !forallb_forall. intros H x Hx. apply H. by apply in_rev.
Qed.

(** *** [trim] *)

Lemma trim_list s :
  list_ascii_of_string (Js.trim s) = trimL (list_ascii_of_string s).
Proof. unfold Js.trim. by rewrite list_ascii_of_string_of_list_ascii. Qed.

(** The text is the trimmed text between two runs of white space; the
    trimmed text is empty or has a first and a last character that are not
    white space. *)
Lemma trimL_split l :
  exists before after,
    l = before ++ trimL l ++ after
    /\ forallb Js.isSpace before = true
    /\ forallb Js.isSpace after = true
    /\ trimmedL (trimL l) = true.
Proof.
  unfold trimL.
  set (m := Js.dropWhile Js.isSpace l).
  set (r := Js.dropWhile Js.isSpace (rev m)).
  exists (Js.takeWhile Js.isSpace l), (rev (Js.takeWhile Js.isSpace (rev m))).
  assert (m = rev r ++ rev (Js.takeWhile Js.isSpace (rev m))) as Hm.
  { rewrite <- rev_app_distr. unfold r. rewrite takeWhile_dropWhile.
    by rewrite rev_involutive. }
  split; [|split; [|split]].
  - rewrite <- Hm. unfold m. by rewrite takeWhile_dropWhile.
  - apply takeWhile_forallb.
  - apply forallb_rev, takeWhile_forallb.
  - unfold trimmedL. rewrite rev_involutive.
    pose proof (dropWhile_head Js.isSpace (rev m)) as Hr. fold r in Hr.
    pose proof (dropWhile_head Js.isSpace l) as Hh. fold m in Hh.
    apply andb_true_iff. split.
    + destruct (rev r) as [|c t] eqn:Hrr; [done|].
      rewrite Hm in Hh. cbn in Hh. by rewrite Hh.
    + destruct r as [|c t]; [done|]. by rewrite Hr.
Qed.

Lemma trimL_trimmed l : trimmedL l = true -> trimL l = l.
Proof.
  unfold trimmedL, trimL. intros [Hh Hl]%andb_true_iff.
  destruct l as [|c l]; [done|].
  apply negb_true_iff in Hh. rewrite (dropWhile_same _ _ _ Hh).
  destruct (rev (c :: l)) as [|d t] eqn:Hr.
  { apply (f_equal (@length _)) in Hr. rewrite length_rev in Hr. done. }
  apply negb_true_iff in Hl. rewrite (dropWhile_same _ _ _ Hl).
  by rewrite <- Hr, rev_involutive.
Qed.

Lemma trimL_idem l : trimL (trimL l) = trimL l.
Proof.
  destruct (trimL_split l) as (_ & _ & _ & _ & _ & H). by apply trimL_trimmed.
Qed.

Lemma trim_idem s : Js.trim (Js.trim s) = Js.trim s.
Proof.
  change (Js.trim (Js.trim s))
    with (string_of_list_ascii (trimL (list_ascii_of_string (Js.trim s)))).
  by rewrite trim_list, trimL_idem.
Qed.

Lemma trimL_nil l : trimL l = [] <-> forallb Js.isSpace l = true.
Proof.
  split.
  - intros H. destruct (trimL_split l) as (b & a & Hl & Hb & Ha & _).
    rewrite H in Hl. cbn in Hl. rewrite Hl, forallb_app. by rewrite Hb, Ha.
  - intros H. unfold trimL.
    assert (forall l, forallb Js.isSpace l = true -> Js.dropWhile Js.isSpace l = [])
      as Hd.
    { clear. induction l as [|c l IH]; [done|]. cbn.
      intros [-> Hl]%andb_true_iff. auto. }
    by rewrite (Hd l H).
Qed.

Lemma trimL_map_lower l :
  trimL (map Js.lowerChar l) = map Js.lowerChar (trimL l).
Proof.
  assert (forall l, Js.dropWhile Js.isSpace (map Js.lowerChar l)
                    = map Js.lowerChar (Js.dropWhile Js.isSpace l)) as Hd.
  { clear. induction l as [|c l IH]; [done|]. cbn.
    rewrite isSpace_lower. by destruct (Js.isSpace c). }
  unfold trimL. by rewrite Hd, <- map_rev, Hd, map_rev.
Qed.

(** *** Prefixes *)

Lemma startsWithL_app a b : Js.startsWithL a (a ++ b) = true.
Proof.
  induction a as [|c a IH]; [done|]. cbn. by rewrite Ascii.eqb_refl.
Qed.

Lemma startsWith_append a b : Js.startsWith (a +:+ b) a = true.
Proof. unfold Js.startsWith. rewrite list_ascii_app. apply startsWithL_app. Qed.

End StringFacts.

(** ** The handler: quota, counters and where saved records come from *)

Module QuotaFacts.
Import Crawler DedupFacts.

Lemma take_len {A} (n : Z) (l : list A) :
  len (take (Z.to_nat (Z.max 0 n)) l) <= Z.max 0 n.
Proof. unfold len. rewrite length_take. lia. Qed.

Lemma sublist_len {A} (l1 l2 : list A) : l1 `sublist_of` l2 -> len l1 <= len l2.
Proof. intros H%sublist_length. unfold len. lia. Qed.

(** What one call of the handler does to the counters and where the batch
    it saves comes from. *)
Lemma requestHandler_batch maxJobs fullPageDetails st page :
  let h := requestHandler maxJobs fullPageDetails st page in
  totalJobsScraped (state h) = totalJobsScraped st + len (pushed h)
  /\ pagesProcessed (state h) = pagesProcessed st + 1
  /\ map Job.url (pushed h) `sublist_of` map Job.url (extractJobs page).1
  /\ (0 < maxJobs -> len (pushed h) <= Z.max 0 (maxJobs - totalJobsScraped st)).
Proof.
  assert (forall m, let h := {| state := {| totalJobsScraped := totalJobsScraped st;
                     pagesProcessed := pagesProcessed st + 1;
                     extractionMethod := m; seenJobUrls := seenJobUrls st |};
                     pushed := []; queued := None |} in
          totalJobsScraped (state h) = totalJobsScraped st + len (pushed h)
          /\ pagesProcessed (state h) = pagesProcessed st + 1
          /\ map Job.url (pushed h) `sublist_of` map Job.url (extractJobs page).1
          /\ (0 < maxJobs -> len (pushed h) <= Z.max 0 (maxJobs - totalJobsScraped st)))
    as Hstop.
  { intros m. cbn. unfold len. cbn [length]. split; [lia|]. split; [done|].
    split; [apply sublist_nil_l | lia]. }
  unfold requestHandler.
  destruct (negb (navigationOk page)); [apply Hstop|].
  destruct (_ <=? _)%nat; [apply Hstop|].
  destruct (extractJobs page) as [jobs found]. cbn [fst] in *.
  destruct jobs as [|j0 jobs]; [apply Hstop|].
  set (all := j0 :: jobs) in *.
  set (cands := if 0 <? maxJobs then _ else _).
  assert (cands `sublist_of` all) as Hc.
  { unfold cands. destruct (0 <? maxJobs); [apply sublist_take | done]. }
  assert (0 < maxJobs -> len cands <= Z.max 0 (maxJobs - totalJobsScraped st)) as Hq.
  { intros HQ. unfold cands. destruct (Z.ltb_spec 0 maxJobs); [|lia].
    apply take_len. }
  pose proof (filterUnique_spec cands (seenJobUrls st)) as Hf.
  destruct (filterUnique (seenJobUrls st) cands) as [seen uniq].
  destruct Hf as (_ & _ & _ & Hsub).
  set (saved := if (0 <? len uniq) && fullPageDetails then _ else _).
  assert (map Job.url saved = map Job.url uniq) as Hu.
  { unfold saved. destruct (_ && _); [|done]. apply EnrichFacts.enrich_urls. }
  assert (len saved = len uniq) as Hl.
  { unfold len. by rewrite <- (length_map Job.url saved), Hu, length_map. }
  cbv zeta. cbn [state pushed totalJobsScraped pagesProcessed].
  split; [|split; [done|split]].
  - destruct (Z.ltb_spec 0 (len saved)); [done|].
    pose proof (PaginationFacts.len_nonneg saved). lia.
  - rewrite Hu. etrans; [|apply (fmap_sublist Job.url), Hc].
    by apply (fmap_sublist Job.url).
  - intros HQ. rewrite Hl. specialize (Hq HQ).
    pose proof (sublist_len _ _ Hsub). lia.
Qed.

Lemma len_app {A} (l1 l2 : list A) : len (l1 ++ l2) = len l1 + len l2.
Proof. unfold len. rewrite length_app. lia. Qed.

Lemma handleAll_counters maxJobs fullPageDetails pages : forall st,
  let '(st', bs) := handleAll maxJobs fullPageDetails st pages in
  totalJobsScraped st' = totalJobsScraped st + len (concat bs)
  /\ pagesProcessed st' = pagesProcessed st + len pages.
Proof.
  induction pages as [|page rest IH]; intros st; cbn [handleAll].
  - unfold len. cbn [concat length]. lia.
  - destruct (requestHandler_batch maxJobs fullPageDetails st page)
      as (Ht & Hp & _).
    set (h := requestHandler maxJobs fullPageDetails st page) in *.
    specialize (IH (state h)).
    destruct (handleAll maxJobs fullPageDetails (state h) rest) as [st' bs].
    destruct IH as [Ht' Hp']. cbn [concat]. rewrite len_app.
    unfold len in *. cbn [length]. lia.
Qed.

Lemma handleAll_quota maxJobs fullPageDetails pages : forall st,
  0 < maxJobs -> totalJobsScraped st <= maxJobs ->
  totalJobsScraped (handleAll maxJobs fullPageDetails st pages).1 <= maxJobs.
Proof.
  induction pages as [|page rest IH]; intros st HQ Hst; cbn [handleAll]; [done|].
  destruct (requestHandler_batch maxJobs fullPageDetails st page)
    as (Ht & _ & _ & Hle).
  set (h := requestHandler maxJobs fullPageDetails st page) in *.
  specialize (IH (state h) HQ).
  destruct (handleAll maxJobs fullPageDetails (state h) rest) as [st' bs].
  cbn [fst] in *. apply IH. specialize (Hle HQ). lia.
Qed.

(** X1.  With a quota [Q > 0], the run never saves more than [Q] records:
    whatever pages the handler is called on, from a state whose total is
    within the quota, the total stays within the quota and the batches
    saved hold at most what was left of it. *)
Theorem quota_never_exceeded :
  forall maxJobs fullPageDetails st pages,
    0 < maxJobs ->
    totalJobsScraped st <= maxJobs ->
    let '(st', bs) := handleAll maxJobs fullPageDetails st pages in
    totalJobsScraped st' <= maxJobs
    /\ len (concat bs) <= maxJobs - totalJobsScraped st.
Proof.
  intros maxJobs fullPageDetails st pages HQ Hst.
  pose proof (handleAll_quota maxJobs fullPageDetails pages st HQ Hst) as Hq.
  pose proof (handleAll_counters maxJobs fullPageDetails pages st) as Hc.
  destruct (handleAll maxJobs fullPageDetails st pages) as [st' bs].
  cbn [fst] in Hq. destruct Hc as [Ht _]. lia.
Qed.

(** X2.  The statistics are exact: after any sequence of handler calls,
    [totalJobsScraped] has grown by the number of records given to
    [Actor.pushData] and [pagesProcessed] by the number of calls. *)
Theorem counters_exact :
  forall maxJobs fullPageDetails st pages,
    let '(st', bs) := handleAll maxJobs fullPageDetails st pages in
    totalJobsScraped st' = totalJobsScraped st + len (concat bs)
    /\ pagesProcessed st' = pagesProcessed st + len pages.
Proof. intros. apply handleAll_counters. Qed.

(** X3.  The batch saved from a page comes from one extractor: from the
    markup extractor whenever it returns a record, from the structured data
    only when it returns none; and the URLs of the batch are URLs of that
    extractor's records, in the extractor's order. *)
Theorem batch_from_one_extractor :
  forall maxJobs fullPageDetails st page,
    let h := requestHandler maxJobs fullPageDetails st page in
    let markup := Markup.extractJobDataViaHTML (dom page) in
    map Job.url (pushed h)
      `sublist_of` map Job.url (if bool_decide (markup = [])
                                then jsonLdJobs page else markup).
Proof.
  intros maxJobs fullPageDetails st page. cbv zeta.
  destruct (requestHandler_batch maxJobs fullPageDetails st page)
    as (_ & _ & Hsub & _).
  unfold extractJobs in Hsub.
  destruct (Markup.extractJobDataViaHTML (dom page)) as [|j js] eqn:Hm.
  - rewrite bool_decide_eq_true_2 by done.
    by destruct (jsonLdJobs page).
  - by rewrite bool_decide_eq_false_2.
Qed.

End QuotaFacts.

Module QuotaExamples.
Import Crawler.

Lemma quota_never_exceeded_witness :
  0 < 1 /\ totalJobsScraped initialState <= 1
  /\ len (concat (handleAll 1 true initialState Sample.numberedSite).2) <= 1.
Proof.
  assert (0 < 1) as HQ by lia.
  assert (totalJobsScraped initialState <= 1) as Hst by (cbn; lia).
  split; [exact HQ|]. split; [exact Hst|].
  pose proof (QuotaFacts.quota_never_exceeded 1 true initialState
                Sample.numberedSite HQ Hst) as H.
  destruct (handleAll 1 true initialState Sample.numberedSite) as [st' bs].
  cbn [snd]. destruct H as [_ H]. cbn in H. lia.
Defined.

End QuotaExamples.

(** ** Enrichment: what a batch looks like afterwards *)

Module BatchFacts.
Import Batch.

Lemma enrichJob_replaced fetch job :
  replaced fetch job (Enrich.enrichJob fetch job).1.
Proof.
  unfold Enrich.enrichJob.
  destruct (Js.truthy (Job.url job)) eqn:Hu; cbn [negb]; [|by left].
  apply JsFacts.truthy_true in Hu.
  destruct (fetch (Job.url job)) as [| |d] eqn:Hf; [by left|by left|].
  destruct (Js.truthy (FullDesc.descriptionText d)) eqn:Ht; [|by left].
  apply JsFacts.truthy_true in Ht. right. by exists d.
Qed.

Lemma enrichJob_merged fetch job :
  merged fetch job (EnrichHttp.enrichJob fetch job).1.
Proof.
  unfold EnrichHttp.enrichJob.
  destruct (Js.truthy (Job.url job)) eqn:Hu; cbn [negb]; [|by left].
  apply JsFacts.truthy_true in Hu.
  destruct (fetch (Job.url job)) as [| |d] eqn:Hf; [by left|by left|].
  destruct (_ || _); [|by left]. right. by exists d.
Qed.

Lemma enrichLoop_aligned fetch jobs :
  Forall2 (replaced fetch) jobs (Enrich.enrichLoop fetch jobs).1
  /\ 0 <= (Enrich.enrichLoop fetch jobs).2 <= Crawler.len jobs.
Proof.
  unfold Crawler.len.
  induction jobs as [|job rest [IH Hn]]; cbn [Enrich.enrichLoop].
  - split; [constructor | cbn; lia].
  - pose proof (enrichJob_replaced fetch job) as Hj.
    destruct (Enrich.enrichJob fetch job) as [j b].
    destruct (Enrich.enrichLoop fetch rest) as [js n]. cbn [fst snd] in *.
    split; [by constructor|]. destruct b; cbn [length]; lia.
Qed.

Lemma enrichAll_aligned fetch jobs :
  Forall2 (merged fetch) jobs (EnrichHttp.enrichAll fetch jobs).1
  /\ 0 <= (EnrichHttp.enrichAll fetch jobs).2 <= Crawler.len jobs.
Proof.
  unfold Crawler.len.
  induction jobs as [|job rest [IH Hn]]; cbn [EnrichHttp.enrichAll].
  - split; [constructor | cbn; lia].
  - pose proof (enrichJob_merged fetch job) as Hj.
    destruct (EnrichHttp.enrichJob fetch job) as [j b].
    destruct (EnrichHttp.enrichAll fetch rest) as [js n]. cbn [fst snd] in *.
    split; [by constructor|]. destruct b; cbn [length]; lia.
Qed.

Lemma Forall2_same {A} (R : A -> A -> Prop) (l : list A) :
  (forall x, R x x) -> Forall2 R l l.
Proof. intros H. induction l; constructor; auto. Qed.

(** X4.  Enrichment never drops, adds or reorders records.  In both
    variants the batch returned has one record for each record given, in
    the same order; each is the record given, or that record merged with
    the description fetched for its own URL (in [src/main.js] only when
    the fetched text is not empty); a record without a URL is returned as
    it is; and the block counter lies between 0 and the batch size. *)
Theorem enrichment_keeps_batch_aligned :
  forall fetch jobs fullPageDetails,
    let r := Enrich.enrichJobsWithFullDescriptions fetch jobs fullPageDetails in
    let r' := EnrichHttp.enrichJobsWithFullDescriptions fetch jobs in
    Forall2 (replaced fetch) jobs r.1
    /\ Forall2 (merged fetch) jobs r'.1
    /\ 0 <= r.2 <= Crawler.len jobs
    /\ 0 <= r'.2 <= Crawler.len jobs
    /\ map Job.url r.1 = map Job.url jobs
    /\ map Job.url r'.1 = map Job.url jobs
    /\ map Job.scrapedAt r.1 = map Job.scrapedAt jobs
    /\ map Job.scrapedAt r'.1 = map Job.scrapedAt jobs.
Proof.
  intros fetch jobs full. cbv zeta.
  assert (Forall2 (replaced fetch) jobs
            (Enrich.enrichJobsWithFullDescriptions fetch jobs full).1
          /\ 0 <= (Enrich.enrichJobsWithFullDescriptions fetch jobs full).2
             <= Crawler.len jobs) as [H1 H2].
  { unfold Enrich.enrichJobsWithFullDescriptions.
    destruct jobs as [|job rest];
      [cbn [fst snd]; split; [constructor | unfold Crawler.len; cbn; lia]|].
    destruct (negb full); [|apply enrichLoop_aligned].
    split; [apply Forall2_same; by left|].
    unfold Crawler.len. cbn [snd length]. lia. }
  assert (Forall2 (merged fetch) jobs
            (EnrichHttp.enrichJobsWithFullDescriptions fetch jobs).1
          /\ 0 <= (EnrichHttp.enrichJobsWithFullDescriptions fetch jobs).2
             <= Crawler.len jobs) as [H3 H4].
  { unfold EnrichHttp.enrichJobsWithFullDescriptions.
    destruct jobs as [|job rest];
      [cbn [fst snd]; split; [constructor | unfold Crawler.len; cbn; lia]|].
    apply enrichAll_aligned. }
  assert (forall (R : Job.t -> Job.t -> Prop) (f : Job.t -> string) l l',
            (forall a b, R a b -> f b = f a) ->
            Forall2 R l l' -> map f l' = map f l) as Hmap.
  { intros R f l l' HR Hl. induction Hl as [|a b l l' Hab _ IH]; [done|].
    cbn. by rewrite (HR _ _ Hab), IH. }
  split; [exact H1|]. split; [exact H3|]. split; [exact H2|]. split; [exact H4|].
  split; [|split; [|split]].
  - apply (Hmap (replaced fetch)); [|done].
    by intros a b [->|(d & _ & _ & _ & ->)].
  - apply (Hmap (merged fetch)); [|done].
    by intros a b [->|(d & _ & _ & ->)].
  - apply (Hmap (replaced fetch)); [|done].
    by intros a b [->|(d & _ & _ & _ & ->)].
  - apply (Hmap (merged fetch)); [|done].
    by intros a b [->|(d & _ & _ & ->)].
Qed.

End BatchFacts.

(** ** Detail fetch: when a fetch is Blocked *)

Module BlockedFacts.
Import Json DetailHttp.

Lemma caught_blocked message :
  caught message = Blocked ->
  Js.includes message "403" || Js.includes message "503" = true.
Proof. unfold caught. by destruct (_ || _). Qed.

Lemma analyse_blocked doc :
  analyse doc = Blocked ->
  isChallengeTitle (titleText doc) = true
  \/ exists message,
       viaPage doc = Throw message
       /\ Js.includes message "403" || Js.includes message "503" = true.
Proof.
  unfold analyse. destruct (isChallengeTitle (titleText doc)); [by left|].
  destruct (isLikelyNotFoundPage _ _); [done|].
  cbv zeta.
  destruct (match primarySection doc with
            | Some s => if Js.truthy (descText s) then Some s else None
            | None => None
            end) as [s|]; [done|].
  destruct (match jsonLdJob doc with
            | Some c => if Js.truthy (candDescriptionText c) then Some _ else None
            | None => None
            end) as [s|]; [done|].
  destruct (fallbackSection doc) as [s|]; [done|].
  destruct (viaPage doc) as [[s|]|message] eqn:Hv; [done|done|].
  intros Hc%caught_blocked. right. by exists message.
Qed.

Lemma afterBody_blocked f body :
  afterBody f body = Blocked ->
  (exists doc, load f body = Ret doc /\ isChallengeTitle (titleText doc) = true)
  \/ exists message,
       Js.includes message "403" || Js.includes message "503" = true
       /\ (load f body = Throw message
           \/ exists doc, load f body = Ret doc /\ viaPage doc = Throw message).
Proof.
  unfold afterBody. destruct (load f body) as [doc|message] eqn:Hl.
  - intros [Ht|(message & Hv & Hm)]%analyse_blocked.
    + left. by exists doc.
    + right. exists message. split; [done|]. right. by exists doc.
  - intros Hc%caught_blocked. right. exists message. by split; [|left].
Qed.

(** X5.  In the HTTP variant a fetch is Blocked for three reasons only: the
    request made through the browser session was answered 403, 503 or 429;
    a document answered with status 200 carries a challenge title; or an
    exception was thrown (by the session request, by the parser, or by the
    browser-page fallback) whose message contains "403" or "503".  A
    refusal of the fast request alone never makes a fetch Blocked. *)
Theorem blocked_has_a_cause :
  forall f,
    fetchFullDescription f = Blocked ->
    (exists status body,
        session f = Responded status body /\ isBlockStatus status = true)
    \/ (exists body doc,
          (fast f = Responded 200 body \/ session f = Responded 200 body)
          /\ load f body = Ret doc
          /\ isChallengeTitle (titleText doc) = true)
    \/ (exists message,
          Js.includes message "403" || Js.includes message "503" = true
          /\ (session f = Failed message
              \/ exists body,
                   (fast f = Responded 200 body \/ session f = Responded 200 body)
                   /\ (load f body = Throw message
                       \/ exists doc, load f body = Ret doc
                                      /\ viaPage doc = Throw message))).
Proof.
  intros f.
  assert (viaSession f = Blocked ->
          (exists status body,
              session f = Responded status body /\ isBlockStatus status = true)
          \/ (exists body doc,
                (fast f = Responded 200 body \/ session f = Responded 200 body)
                /\ load f body = Ret doc
                /\ isChallengeTitle (titleText doc) = true)
          \/ (exists message,
                Js.includes message "403" || Js.includes message "503" = true
                /\ (session f = Failed message
                    \/ exists body,
                         (fast f = Responded 200 body \/ session f = Responded 200 body)
                         /\ (load f body = Throw message
                             \/ exists doc, load f body = Ret doc
                                            /\ viaPage doc = Throw message))))
    as Hsession.
  { unfold viaSession. destruct (session f) as [status body|message] eqn:Hs.
    - destruct (isBlockStatus status) eqn:Hb; [intros _; left; by exists status, body|].
      destruct (Z.eqb_spec status 200) as [->|]; cbn [negb]; [|done].
      intros [(doc & Hl & Ht)|(message & Hm & Hc)]%afterBody_blocked.
      + right. left. exists body, doc. auto.
      + right. right. exists message. split; [done|]. right. exists body. auto.
    - intros Hc%caught_blocked. right. right. exists message. auto. }
  unfold fetchFullDescription.
  destruct (fast f) as [status body|message] eqn:Hf; [|exact Hsession].
  destruct (isBlockStatus status); [exact Hsession|].
  destruct (Z.eqb_spec status 200) as [->|]; cbn [negb]; [|done].
  intros [(doc & Hl & Ht)|(message & Hm & Hc)]%afterBody_blocked.
  - right. left. exists body, doc. auto.
  - right. right. exists message. split; [done|]. right. exists body. auto.
Qed.

End BlockedFacts.

Module BlockedExamples.
Import DetailHttp.

Lemma blocked_has_a_cause_witness :
  fetchFullDescription Sample.bothBlocked = Blocked
  /\ exists status body,
       session Sample.bothBlocked = Responded status body
       /\ isBlockStatus status = true.
Proof.
  assert (fetchFullDescription Sample.bothBlocked = Blocked) as H by reflexivity.
  split; [exact H|].
  destruct (BlockedFacts.blocked_has_a_cause Sample.bothBlocked H)
    as [Hs|[(body & doc & [Hf|Hf] & _)|(message & _ & [Hf|(body & [Hf|Hf] & _)])]];
    [exact Hs|discriminate Hf..].
Defined.

End BlockedExamples.

(** ** The markup extractor: the shape of a record *)

Module ShapeFacts.
Import Markup MarkupFacts Text.

Lemma absolute_http href : Js.startsWith (absolute href) "http" = true.
Proof.
  unfold absolute. destruct (Js.startsWith href "http") eqn:H; [exact H|].
  reflexivity.
Qed.

Section Card.
Context {dom : Dom}.

Lemma firstHref_http (el : option (El dom)) sels :
  httpOrEmpty (firstHref el sels).
Proof.
  induction sels as [|sel rest IH]; cbn [firstHref]; [by left|].
  destruct (findIn el sel) as [|e es]; [exact IH|].
  destruct (Js.truthyO (attr e "href")); [|exact IH].
  right. apply absolute_http.
Qed.

Lemma anchorScan_http (anchors : list (El dom)) u t :
  anchorScan anchors = Some (u, t) -> Js.startsWith u "http" = true.
Proof.
  induction anchors as [|a rest IH]; cbn [anchorScan]; [done|].
  cbv zeta. destruct (negb (Js.truthy _)); [exact IH|].
  destruct (_ && _); [exact IH|].
  intros [= <- _]. apply absolute_http.
Qed.

Lemma titleAndUrl_http (el : option (El dom)) fb :
  httpOrEmpty (fbUrl fb) -> httpOrEmpty (titleAndUrl el fb).2.
Proof.
  intros Hfb. unfold titleAndUrl. cbv zeta.
  pose proof (firstHref_http el urlSelectors) as Hu.
  set (url0 := firstHref el urlSelectors) in *.
  set (title0 := default "" (firstText el titleSelectors)).
  assert (exists url1 title1,
             (if negb (Js.truthy url0)
              then match anchorScan (findIn el "a[href]") with
                   | Some (u, t) => (u, if negb (Js.truthy title0) then t else title0)
                   | None => (url0, title0)
                   end
              else (url0, title0)) = (url1, title1)
             /\ httpOrEmpty url1) as (url1 & title1 & -> & H1).
  { destruct (negb (Js.truthy url0)); [|by eexists _, _].
    destruct (anchorScan _) as [[u t]|] eqn:Ha; [|by eexists _, _].
    eexists _, _. split; [done|]. right. by eapply anchorScan_http. }
  cbn [snd].
  set (url2 := if negb (Js.truthy url1) then _ else url1).
  assert (httpOrEmpty url2) as H2.
  { unfold url2. destruct (negb (Js.truthy url1)); [|done].
    destruct (Js.truthy (Js.trim _)); [|done]. right. apply absolute_http. }
  destruct (negb (Js.truthy url2) && Js.truthy (fbUrl fb)); done.
Qed.

Lemma extractJobFromElement_http (el : option (El dom)) fb j :
  httpOrEmpty (fbUrl fb) ->
  extractJobFromElement el fb = Some j -> httpOrEmpty (Job.url j).
Proof.
  intros Hfb Hj. pose proof (extractJobFromElement_retains el fb) as H.
  rewrite Hj in H. destruct H as (_ & -> & _). by apply titleAndUrl_http.
Qed.

Lemma firstText_trimmed (el : option (El dom)) sels t :
  firstText el sels = Some t -> t <> "" /\ exists raw, t = Js.trim raw.
Proof.
  induction sels as [|sel rest IH]; cbn [firstText]; [done|].
  destruct (findIn el sel) as [|e es]; [exact IH|].
  destruct (Js.truthy (Js.trim (text e))) eqn:Ht; [|exact IH].
  intros [= <-]. split; [by apply JsFacts.truthy_true | by eexists].
Qed.

Lemma cardCandidates_http c j :
  c ∈ cardCandidates dom -> c = Some j -> httpOrEmpty (Job.url j).
Proof.
  unfold cardCandidates, primaryCandidates, fallbackCandidates.
  assert (forall cards, c ∈ map (extractCard (dom:=dom)) cards ->
                        c = Some j -> httpOrEmpty (Job.url j)) as Hmap.
  { intros cards (card & -> & _)%list_elem_of_fmap Hj.
    eapply extractJobFromElement_http; [|exact Hj]. by left. }
  destruct (select tupleSelector) as [|e es]; [|by apply Hmap].
  destruct (list_find _ _) as [[i sel]|]; [|by intros ?%not_elem_of_nil].
  intros Hc. apply list_elem_of_In, in_flat_map in Hc as (container & _ & Hc).
  apply list_elem_of_In in Hc. exact (Hmap _ Hc).
Qed.

Lemma linkCandidates_http c j :
  c ∈ linkCandidates dom -> c = Some j -> httpOrEmpty (Job.url j).
Proof.
  unfold linkCandidates.
  intros Hc. apply list_elem_of_In, in_flat_map in Hc as (link & _ & Hc).
  cbv zeta in Hc. destruct (Js.truthy _); [|done].
  destruct Hc as [<-|[]]. unfold extractLink. intros Hj.
  eapply extractJobFromElement_http; [|exact Hj].
  right. apply absolute_http.
Qed.

Lemma extractJobDataViaHTML_from j :
  j ∈ extractJobDataViaHTML dom ->
  Some j ∈ cardCandidates dom \/ Some j ∈ linkCandidates dom.
Proof.
  destruct (extractJobDataViaHTML_paths (dom:=dom)) as (_ & _ & Hcards & Hlinks).
  destruct (keptFrom (cardCandidates dom)) as [|j0 l] eqn:Hk.
  - intros Hj. right. eapply RetentionFacts.withUrl_elem.
    eapply elem_of_sublist; [exact Hj|]. by apply Hlinks.
  - rewrite Hcards by done. rewrite <- Hk.
    intros Hj. left. by eapply RetentionFacts.keptFrom_elem.
Qed.

End Card.

(** X6.  Every URL the markup extractor returns is absolute: it begins
    with [http], being either an [href] (or [data-] attribute) that already
    did, or the site origin [https://www.naukri.com] followed by it. *)
Theorem markup_urls_are_absolute :
  forall dom : Dom,
    Forall (fun j => Js.startsWith (Job.url j) "http" = true)
           (extractJobDataViaHTML dom)
    /\ (forall href,
          absolute href = (if Js.startsWith href "http" then href
                           else "https://www.naukri.com" +:+ href)).
Proof.
  intros dom. split; [|done].
  destruct (extractJobDataViaHTML_paths (dom:=dom)) as (_ & Hne & _).
  rewrite Forall_forall in Hne |- *. intros j Hj.
  specialize (Hne j Hj).
  destruct (extractJobDataViaHTML_from j Hj) as [Hc|Hc].
  - by destruct (cardCandidates_http _ j Hc eq_refl).
  - by destruct (linkCandidates_http _ j Hc eq_refl).
Qed.

(** X7.  A record built from a card never has an empty salary or
    experience (each is the trimmed text found, or "Not specified"), its
    job type is always "Not specified", and it carries neither tags nor a
    job id. *)
Theorem card_defaults :
  forall (dom : Dom) (el : option (El dom)) fb,
    match extractJobFromElement el fb with
    | Some j =>
        Job.salary j <> "" /\ Job.experience j <> ""
        /\ (Job.salary j = "Not specified" \/ exists raw, Job.salary j = Js.trim raw)
        /\ (Job.experience j = "Not specified"
            \/ exists raw, Job.experience j = Js.trim raw)
        /\ Job.jobType j = "Not specified"
        /\ Job.tags j = None /\ Job.jobId j = None
    | None => True
    end.
Proof.
  intros dom el fb. unfold extractJobFromElement.
  destruct (titleAndUrl el fb) as [title url].
  destruct (Js.truthy title || Js.truthy url); [|done].
  cbn [Job.salary Job.experience Job.jobType Job.tags Job.jobId].
  assert (forall sels,
             default "Not specified" (firstText el sels) <> ""
             /\ (default "Not specified" (firstText el sels) = "Not specified"
                 \/ exists raw, default "Not specified" (firstText el sels)
                                = Js.trim raw)) as H.
  { intros sels. destruct (firstText el sels) as [t|] eqn:Ht; cbn [default].
    - apply firstText_trimmed in Ht as [? ?]. auto.
    - split; [done|by left]. }
  destruct (H salarySelectors) as [? ?], (H expSelectors) as [? ?]. auto 10.
Qed.

End ShapeFacts.

(** ** The crawler's request cap *)

Module CapFacts.
Import Crawler.

Lemma crawlFrom_budget maxJobs fullPageDetails budget : forall st pages,
  requests (crawlFrom maxJobs fullPageDetails budget st pages)
  <= Z.of_nat budget.
Proof.
  induction budget as [|budget IH]; intros st pages; cbn [crawlFrom].
  { cbn. lia. }
  destruct pages as [|page rest]; [cbn; lia|].
  destruct (queued _); cbn [requests]; [|lia].
  specialize (IH (state (requestHandler maxJobs fullPageDetails st page)) rest).
  lia.
Qed.

(** What a crawl saves is bounded by what its pages hold. *)
Lemma crawlFrom_total maxJobs fullPageDetails budget : forall st pages,
  Forall (fun page => len (extractJobs page).1 <= 20) pages ->
  totalJobsScraped (final (crawlFrom maxJobs fullPageDetails budget st pages))
  <= totalJobsScraped st + 20 * Z.of_nat budget.
Proof.
  induction budget as [|budget IH]; intros st pages Hall; cbn [crawlFrom].
  { cbn. lia. }
  destruct pages as [|page rest]; [cbn; lia|].
  apply Forall_cons in Hall as [Hpage Hrest].
  destruct (QuotaFacts.requestHandler_batch maxJobs fullPageDetails st page)
    as (Ht & _ & Hsub & _).
  set (h := requestHandler maxJobs fullPageDetails st page) in *.
  apply QuotaFacts.sublist_len in Hsub. unfold len in Hsub, Hpage.
  rewrite !length_map in Hsub. unfold len in Ht.
  destruct (queued h); cbn [final].
  - specialize (IH (state h) rest Hrest). lia.
  - lia.
Qed.

(** X8.  For a quota above 4000 the crawler's request cap is 200 pages, so
    a run whose pages each hold at most 20 records saves at most 4000
    records and never reaches its quota, whatever the site serves. *)
Theorem large_quota_is_out_of_reach :
  forall maxJobs fullPageDetails pages,
    4000 < maxJobs ->
    Forall (fun page => len (extractJobs page).1 <= 20) pages ->
    maxRequestsPerCrawl maxJobs = 200
    /\ totalJobsScraped (final (crawl maxJobs fullPageDetails pages)) <= 4000
    /\ totalJobsScraped (final (crawl maxJobs fullPageDetails pages)) < maxJobs.
Proof.
  intros maxJobs fullPageDetails pages HQ Hall.
  assert (maxRequestsPerCrawl maxJobs = 200) as Hcap.
  { unfold maxRequestsPerCrawl. destruct (Z.eqb_spec maxJobs 0); [lia|].
    pose proof (JsFacts.ceil_div_spec maxJobs 20 ltac:(lia)). lia. }
  pose proof (crawlFrom_total maxJobs fullPageDetails
                (Z.to_nat (maxRequestsPerCrawl maxJobs)) initialState pages Hall)
    as Htotal.
  rewrite Hcap in Htotal. cbn [totalJobsScraped initialState] in Htotal.
  unfold crawl. rewrite Hcap. split; [done|]. lia.
Qed.

End CapFacts.

Module CapExamples.
Import Crawler.

Lemma large_quota_is_out_of_reach_witness :
  4000 < 5000
  /\ Forall (fun page => len (extractJobs page).1 <= 20) Sample.numberedSite
  /\ totalJobsScraped (final (crawl 5000 true Sample.numberedSite)) < 5000.
Proof.
  assert (4000 < 5000) as HQ by lia.
  assert (Forall (fun page => len (extractJobs page).1 <= 20)
                 Sample.numberedSite) as Hall
    by (repeat constructor; apply Z.leb_le; vm_compute; reflexivity).
  split; [exact HQ|]. split; [exact Hall|].
  exact (proj2 (proj2 (CapFacts.large_quota_is_out_of_reach
                         5000 true Sample.numberedSite HQ Hall))).
Defined.

End CapExamples.

(** ** The next-page URL reads back as the page it was built for *)

Module NextPageFacts.
Import Crawler NextPage StringFacts.

Lemma digitsValue_snoc ds c :
  Js.digitsValue (ds ++ [c]) = 10 * Js.digitsValue ds + Js.digitValue c.
Proof. unfold Js.digitsValue. by rewrite fold_left_app. Qed.

Lemma pretty_N_char_digit k :
  (k < 10)%N ->
  Js.isDigit (pretty_N_char k) = true
  /\ Js.digitValue (pretty_N_char k) = Z.of_N k.
Proof.
  intros Hk.
  assert (k = 0 \/ k = 1 \/ k = 2 \/ k = 3 \/ k = 4 \/ k = 5 \/ k = 6
          \/ k = 7 \/ k = 8 \/ k = 9)%N as H by lia.
  repeat (destruct H as [->|H]; [by vm_compute|]). subst k. by vm_compute.
Qed.

(** The digits [pretty] writes for a number, and their value. *)
Lemma pretty_N_go_digits x : forall s,
  exists ds,
    list_ascii_of_string (pretty_N_go x s) = ds ++ list_ascii_of_string s
    /\ forallb Js.isDigit ds = true
    /\ Js.digitsValue ds = Z.of_N x
    /\ ((0 < x)%N -> ds <> []).
Proof.
  induction (N.lt_wf_0 x) as [x _ IH]; intros s.
  assert (x = 0 \/ 0 < x)%N as [->|Hx] by lia.
  - exists []. rewrite pretty_N_go_0.
    split; [done|]. split; [done|]. split; [done|lia].
  - rewrite pretty_N_go_step by done.
    destruct (IH (x `div` 10)%N ltac:(by apply N.div_lt)
                 (String (pretty_N_char (x `mod` 10)) s))
      as (ds & Hl & Hd & Hv & _).
    destruct (pretty_N_char_digit (x `mod` 10)%N) as [Hc Hcv].
    { apply N.mod_lt. lia. }
    exists (ds ++ [pretty_N_char (x `mod` 10)]).
    split; [|split; [|split]].
    + rewrite Hl. cbn [list_ascii_of_string]. by rewrite <- app_assoc.
    + rewrite forallb_app, Hd. cbn. by rewrite Hc.
    + rewrite digitsValue_snoc, Hv, Hcv.
      rewrite (N.div_mod x 10) at 3 by done. lia.
    + by destruct ds.
Qed.

Lemma pretty_digits n :
  1 <= n ->
  exists d ds,
    list_ascii_of_string (pretty n) = d :: ds
    /\ forallb Js.isDigit (d :: ds) = true
    /\ Js.digitsValue (d :: ds) = n.
Proof.
  intros Hn. destruct n as [|p|p]; [lia| |lia].
  unfold pretty, pretty_Z, pretty, pretty_positive, pretty, pretty_N.
  destruct (decide (N.pos p = 0%N)) as [|_]; [done|].
  destruct (pretty_N_go_digits (N.pos p) "") as (ds & Hl & Hd & Hv & Hne).
  rewrite app_nil_r in Hl. destruct ds as [|d ds]; [by destruct Hne|].
  exists d, ds. by rewrite Hl.
Qed.

(** A path that ends in a hyphen and digits reads as that number. *)
Lemma matchPageSuffix_digits before d ds :
  forallb Js.isDigit (d :: ds) = true ->
  let path := string_of_list_ascii (before ++ "-"%char :: d :: ds) in
  Js.stripTrailingSlash path = path
  /\ Js.matchPageSuffix path
     = Some (string_of_list_ascii before, string_of_list_ascii (d :: ds)).
Proof.
  intros Hd. cbv zeta.
  assert (rev (before ++ "-"%char :: d :: ds)
          = rev (d :: ds) ++ "-"%char :: rev before) as Hrev.
  { rewrite rev_app_distr. cbn [rev]. by rewrite <- !app_assoc. }
  pose proof (forallb_rev _ _ Hd) as Hrd.
  destruct (rev (d :: ds)) as [|r rs] eqn:Hr.
  { apply (f_equal (@length _)) in Hr. rewrite length_rev in Hr. done. }
  split.
  - unfold Js.stripTrailingSlash.
    rewrite list_ascii_of_string_of_list_ascii, Hrev. cbn [app].
    cbn [forallb] in Hrd. apply andb_true_iff in Hrd as [Hr0 _].
    apply isDigit_cases in Hr0.
    repeat (apply elem_of_cons in Hr0 as [->|Hr0]; [done|]).
    by apply not_elem_of_nil in Hr0.
  - unfold Js.matchPageSuffix.
    rewrite list_ascii_of_string_of_list_ascii, Hrev.
    destruct (takeWhile_app Js.isDigit (r :: rs) "-"%char (rev before) Hrd eq_refl)
      as [-> ->].
    rewrite <- Hr, !rev_involutive. done.
Qed.

Lemma parseInt_digits d ds :
  forallb Js.isDigit (d :: ds) = true ->
  Js.digitsValue (d :: ds) < 2 ^ 53 ->
  Js.parseInt (string_of_list_ascii (d :: ds)) = Some (Js.digitsValue (d :: ds)).
Proof.
  intros Hd Hsafe. unfold Js.parseInt.
  rewrite list_ascii_of_string_of_list_ascii.
  pose proof Hd as Hall. cbn [forallb] in Hd.
  apply andb_true_iff in Hd as [Hd0 _]. apply isDigit_cases in Hd0.
  assert (Js.dropWhile Js.isSpace (d :: ds) = d :: ds) as ->.
  { repeat (apply elem_of_cons in Hd0 as [->|Hd0]; [done|]).
    by apply not_elem_of_nil in Hd0. }
  assert ((match d :: ds with
           | "-"%char :: r => (-1, r)
           | "+"%char :: r => (1, r)
           | _ => (1, d :: ds)
           end) = (1, d :: ds)) as ->.
  { repeat (apply elem_of_cons in Hd0 as [->|Hd0]; [done|]).
    by apply not_elem_of_nil in Hd0. }
  rewrite (takeWhile_all _ _ Hall). unfold Js.nearestNumber.
  destruct (Z.ltb_spec (Js.digitsValue (d :: ds)) (2 ^ 53)); [|lia].
  cbn [option_map]. f_equal. lia.
Qed.

(** Such a path, with no [pageNo] parameter, reads as page [n]. *)
Lemma currentPageNo_suffix before n :
  1 <= n < 2 ^ 53 ->
  currentPageNo
    {| pathname := string_of_list_ascii before +:+ "-" +:+ pretty n;
       pageNoParam := None |} = n.
Proof.
  intros Hn. destruct (pretty_digits n (proj1 Hn)) as (d & ds & Hl & Hd & Hv).
  assert (string_of_list_ascii before +:+ "-" +:+ pretty n
          = string_of_list_ascii (before ++ "-"%char :: d :: ds)) as ->.
  { rewrite <- (string_of_list_ascii_of_string (_ +:+ _)).
    rewrite !list_ascii_app, list_ascii_of_string_of_list_ascii, Hl. done. }
  destruct (matchPageSuffix_digits before d ds Hd) as [Hs Hm].
  unfold currentPageNo. cbn [pageNoParam pathname Js.truthy String.eqb negb].
  rewrite Hs, Hm, (parseInt_digits _ _ Hd), Hv by (rewrite Hv; lia).
  by destruct (Z.leb_spec 1 n); [|lia].
Qed.

Lemma fallbackUrl_reads_back request n :
  1 <= n < 2 ^ 53 -> currentPageNo (fallbackUrl request n) = n.
Proof.
  intros Hn. unfold fallbackUrl, setPathname.
  set (base := basePath (pathname request)).
  destruct (Js.startsWith _ "/").
  - rewrite <- (string_of_list_ascii_of_string base).
    by apply currentPageNo_suffix.
  - assert ("/" +:+ base +:+ "-" +:+ pretty n
            = string_of_list_ascii ("/"%char :: list_ascii_of_string base)
              +:+ "-" +:+ pretty n) as ->.
    { cbn [string_of_list_ascii]. by rewrite string_of_list_ascii_of_string. }
    by apply currentPageNo_suffix.
Qed.

Lemma maxPages_validated maxJobs :
  0 <= maxJobs <= 10000 -> maxPages maxJobs <= 500.
Proof.
  intros H. unfold maxPages. destruct (Z.eqb_spec maxJobs 0); [lia|].
  pose proof (JsFacts.ceil_div_spec maxJobs 20 ltac:(lia)). lia.
Qed.

(** X9.  The next-page URL the handler builds itself reads back as the page
    it was queued for: for a quota in the range the start-up accepts,
    whatever the URL of the request, and whatever page the handler queues,
    the path [`${basePath}-${nextPageNo}`] without a [pageNo] parameter
    gives [currentPageNo = nextPageNo] when it is loaded.  More generally
    any path ending in a hyphen and the digits of [n], from 1 to below
    2^53, reads as page [n], also when those digits end a location name. *)
Theorem fallback_url_round_trip :
  (forall maxJobs fullPageDetails st page request n,
      0 <= maxJobs <= 10000 ->
      queued (requestHandler maxJobs fullPageDetails st page) = Some n ->
      n = currentPageNo (currentUrl page) + 1
      /\ currentPageNo (fallbackUrl request n) = n)
  /\ (forall path n,
        1 <= n < 2 ^ 53 ->
        currentPageNo {| pathname := path +:+ "-" +:+ pretty n;
                         pageNoParam := None |} = n).
Proof.
  split.
  - intros maxJobs fullPageDetails st page request n Hquota Hq.
    assert (n = currentPageNo (currentUrl page) + 1 /\ n <= maxPages maxJobs)
      as [Hn Hmax].
    { destruct (PaginationFacts.requestHandler_queued maxJobs fullPageDetails
                  st page) as [[Hq' _]|Hq']; [congruence|].
      rewrite Hq' in Hq.
      by apply PaginationFacts.nextRequest_Some in Hq as (? & ? & _). }
    split; [done|]. apply fallbackUrl_reads_back.
    pose proof (PaginationFacts.currentPageNo_ge_1 (currentUrl page)).
    pose proof (maxPages_validated maxJobs Hquota). lia.
  - intros path n Hn. rewrite <- (string_of_list_ascii_of_string path).
    by apply currentPageNo_suffix.
Qed.

End NextPageFacts.

(** ** Start-up: what is accepted and the URL the run starts from *)

Module StartFacts.
Import Json Start Text StringFacts.

Lemma noSpace_append a b : noSpace (a +:+ b) = noSpace a && noSpace b.
Proof. unfold noSpace. by rewrite list_ascii_app, forallb_app. Qed.

Lemma dashSpaces_noSpace l : forall b,
  forallb (fun c => negb (Js.isSpace c)) (dashSpaces b l) = true.
Proof.
  induction l as [|c l IH]; intros b; [done|]. cbn [dashSpaces].
  destruct (Js.isSpace c) eqn:Hc.
  - destruct b; [apply IH|]. cbn [forallb]. by rewrite IH.
  - cbn [forallb]. by rewrite Hc, IH.
Qed.

Lemma dashed_noSpace s : noSpace (dashed s) = true.
Proof.
  unfold noSpace, dashed. rewrite list_ascii_of_string_of_list_ascii.
  apply dashSpaces_noSpace.
Qed.

Lemma dashed_nonempty s : s <> "" -> dashed s <> "".
Proof.
  destruct s as [|c s]; [done|]. intros _. unfold dashed.
  cbn [list_ascii_of_string dashSpaces].
  by destruct (Js.isSpace c).
Qed.

Lemma formEncodeChar_noSpace c :
  forallb (fun c => negb (Js.isSpace c)) (formEncodeChar c) = true.
Proof. by destruct c as [[] [] [] [] [] [] [] []]. Qed.

Lemma formEncode_noSpace s : noSpace (formEncode s) = true.
Proof.
  unfold noSpace, formEncode. rewrite list_ascii_of_string_of_list_ascii.
  induction (list_ascii_of_string s) as [|c l IH]; [done|].
  cbn [flat_map]. by rewrite forallb_app, formEncodeChar_noSpace, IH.
Qed.

Lemma filterParam_cases name v :
  filterParam name v = []
  \/ exists s, v = Some s /\ s <> "" /\ s <> "all" /\ filterParam name v = [(name, s)].
Proof.
  unfold filterParam. destruct v as [s|]; [|by left].
  destruct (Js.truthy s) eqn:Ht; [|by left].
  destruct (String.eqb_spec s "all"); [by left|].
  right. exists s. by apply JsFacts.truthy_true in Ht.
Qed.

Lemma serializeParams_noSpace (params : list (string * string)) :
  forallb (fun p => noSpace (fst p)) params = true ->
  noSpace (serializeParams params) = true.
Proof.
  unfold serializeParams.
  induction params as [|p rest IH]; [done|]. cbn [forallb map].
  intros [Hp Hrest]%andb_true_iff. specialize (IH Hrest).
  assert (noSpace (formEncode (fst p) +:+ "=" +:+ formEncode (snd p)) = true) as H.
  { by rewrite !noSpace_append, !formEncode_noSpace. }
  destruct (map _ rest) as [|x xs] eqn:Hm; [exact H|].
  change (noSpace ((formEncode (fst p) +:+ "=" +:+ formEncode (snd p))
                   +:+ "&" +:+ String.concat "&" (x :: xs)) = true).
  rewrite noSpace_append, H. by rewrite noSpace_append, IH.
Qed.

Lemma toLowerCase_list s :
  list_ascii_of_string (Js.toLowerCase s) = map Js.lowerChar (list_ascii_of_string s).
Proof. unfold Js.toLowerCase. by rewrite list_ascii_of_string_of_list_ascii. Qed.

(** The slug of a query that is not blank is not empty. *)
Lemma slug_nonempty q : Js.trim q <> "" -> slug q <> "".
Proof.
  intros Hq. unfold slug. apply dashed_nonempty.
  apply string_nonempty. rewrite trim_list, toLowerCase_list, trimL_map_lower.
  apply string_nonempty in Hq. rewrite trim_list in Hq.
  by destruct (trimL (list_ascii_of_string q)).
Qed.

Lemma blank_true v :
  blank v = true ->
  Js.truthyO v && Js.truthy (Js.trim (default "" v)) = false.
Proof.
  destruct v as [s|]; [|done]. change (default "" (Some s)) with s.
  cbn [blank Js.truthyO]. intros H%negb_true_iff. rewrite H. apply andb_false_r.
Qed.

Lemma blank_false v :
  blank v = false ->
  exists s, v = Some s /\ Js.trim s <> "" /\ s <> ""
            /\ Js.truthyO v && Js.truthy (Js.trim (default "" v)) = true.
Proof.
  destruct v as [s|]; [|done]. change (default "" (Some s)) with s.
  cbn [blank Js.truthyO]. intros H%negb_false_iff. exists s.
  assert (Js.trim s <> "") as Ht
    by exact (proj1 (JsFacts.truthy_true _) H).
  assert (s <> "") as Hs by (intros ->; apply Ht; reflexivity).
  split; [done|]. split; [done|]. split; [done|].
  apply JsFacts.truthy_true in Hs. by rewrite Hs, H.
Qed.

(** X10.  The run starts exactly when a search URL or a search query is
    given that is not blank and the quota (20 when absent) lies between 0
    and 10000.  It then starts from the trimmed search URL when one is
    given, whatever the other fields say; otherwise from the URL derived
    from the query the user gave: the default query "sales" is never used
    by a run that starts. *)
Theorem start_accepts_exactly :
  forall input,
    match start input with
    | Ret (quota, url) =>
        (blank (searchUrl input) = false \/ blank (searchQuery input) = false)
        /\ quota = default 20 (maxJobs input)
        /\ 0 <= quota <= 10000
        /\ url = buildSearchUrl input
        /\ (blank (searchUrl input) = false ->
            url = Js.trim (default "" (searchUrl input)))
        /\ (blank (searchUrl input) = true ->
            exists q, searchQuery input = Some q
                      /\ Js.trim q <> ""
                      /\ Js.or_else (searchQuery input) "sales" = q)
    | Throw _ =>
        (blank (searchUrl input) = true /\ blank (searchQuery input) = true)
        \/ default 20 (maxJobs input) < 0
        \/ 10000 < default 20 (maxJobs input)
    end.
Proof.
  intros input. unfold start, validate.
  destruct (blank (searchUrl input)) eqn:Hu;
    destruct (blank (searchQuery input)) eqn:Hq; cbn [andb bind];
    [by left| | |];
    (destruct (Z.ltb_spec (default 20 (maxJobs input)) 0);
       [cbn [orb bind]; right; by left|];
     destruct (Z.ltb_spec 10000 (default 20 (maxJobs input)));
       [cbn [orb bind]; right; by right|];
     cbn [orb bind]).
  - split; [by right|]. split; [done|]. split; [lia|]. split; [done|].
    split; [done|]. intros _.
    apply blank_false in Hq as (q & Hq & Ht & Hne & _). exists q.
    split; [done|]. split; [done|]. rewrite Hq. cbn [Js.or_else].
    by apply JsFacts.truthy_true in Hne as ->.
  - split; [by left|]. split; [done|]. split; [lia|]. split; [done|].
    split; [|done]. intros _. unfold buildSearchUrl.
    by apply blank_false in Hu as (s & _ & _ & _ & ->).
  - split; [by left|]. split; [done|]. split; [lia|]. split; [done|].
    split; [|done]. intros _. unfold buildSearchUrl.
    by apply blank_false in Hu as (s & _ & _ & _ & ->).
Qed.

(** X11.  A URL derived from the query contains no white space and begins
    with the site origin; when the query is not blank its slug is not
    empty and the path begins with [/{slug}-jobs]. *)
Theorem derived_url_shape :
  forall input,
    blank (searchUrl input) = true ->
    let url := buildSearchUrl input in
    noSpace url = true
    /\ Js.startsWith url "https://www.naukri.com/" = true
    /\ (forall q, searchQuery input = Some q -> Js.trim q <> "" ->
          slug q <> ""
          /\ Js.startsWith url ("https://www.naukri.com/" +:+ slug q +:+ "-jobs")
             = true).
Proof.
  intros input Hu. cbv zeta. unfold buildSearchUrl.
  rewrite (blank_true _ Hu). cbv zeta.
  set (query := slug (Js.or_else (searchQuery input) "sales")).
  set (locationRaw := Js.trim (Js.toLowerCase (Js.or_else (location input) ""))).
  set (loc := if Js.truthy locationRaw then dashed locationRaw else "").
  set (qs := serializeParams _).
  assert (noSpace qs = true) as Hqs.
  { unfold qs. apply serializeParams_noSpace. rewrite forallb_app.
    destruct (filterParam_cases "experience" (experience input))
      as [->|(s & _ & _ & _ & ->)];
      destruct (filterParam_cases "jobType" (jobType input))
      as [->|(s' & _ & _ & _ & ->)]; done. }
  assert (noSpace query = true) as Hquery by apply dashed_noSpace.
  assert (noSpace loc = true) as Hloc.
  { unfold loc. destruct (Js.truthy locationRaw); [apply dashed_noSpace|done]. }
  set (base := if Js.truthy loc then _ else _).
  assert (exists tail, base = "https://www.naukri.com/" +:+ query +:+ "-jobs" +:+ tail
                       /\ noSpace tail = true) as (tail & Hbase & Htail).
  { unfold base. destruct (Js.truthy loc).
    - exists ("-in-" +:+ loc). split; [reflexivity|].
      by rewrite noSpace_append, Hloc.
    - exists "". split; [reflexivity|done]. }
  assert (exists tail', (if Js.truthy qs then base +:+ "?" +:+ qs else base)
                        = "https://www.naukri.com/" +:+ query +:+ "-jobs" +:+ tail'
                        /\ noSpace tail' = true) as (tail' & -> & Htail').
  { destruct (Js.truthy qs).
    - exists (tail +:+ "?" +:+ qs). rewrite Hbase.
      split; [by rewrite !append_assoc|].
      by rewrite !noSpace_append, Htail, Hqs.
    - by exists tail. }
  split; [|split].
  - by rewrite !noSpace_append, Hquery, Htail'.
  - apply startsWith_append.
  - intros q Hq Ht. split; [by apply slug_nonempty|].
    assert (Js.or_else (searchQuery input) "sales" = q) as Hor.
    { rewrite Hq. cbn [Js.or_else].
      assert (q <> "") as Hne by (intros ->; apply Ht; reflexivity).
      by apply JsFacts.truthy_true in Hne as ->. }
    unfold query. rewrite Hor.
    rewrite <- (append_assoc _ "-jobs"), <- (append_assoc "https://www.naukri.com/").
    apply startsWith_append.
Qed.

End StartFacts.

Module StartExamples.
Import Fixtures.
Import Start.

Lemma derived_url_shape_witness :
  blank (searchUrl engineer) = true
  /\ buildSearchUrl engineer
     = "https://www.naukri.com/data-engineer-jobs-in-new-delhi?experience=2"
  /\ Text.noSpace (buildSearchUrl engineer) = true.
Proof.
  assert (blank (searchUrl engineer) = true) as H by reflexivity.
  split; [exact H|]. split; [reflexivity|].
  exact (proj1 (StartFacts.derived_url_shape engineer H)).
Defined.

End StartExamples.

(** ** [stripHtml]: what is left of a text *)

Module StripFacts.
Import Json JsonLd Text StringFacts.

Lemma replaceTags_plain l :
  existsb (Ascii.eqb ">") l = false -> replaceTags false l = l.
Proof.
  induction l as [|c l IH]; [done|]. cbn [existsb replaceTags].
  intros [Hc Hl]%orb_false_iff. rewrite Hl, andb_false_r. by rewrite IH.
Qed.

Lemma replaceTags_tagFree l : forall inTag,
  tagFreeL (replaceTags inTag l) = true.
Proof.
  induction l as [|c l IH]; intros inTag; [done|]. cbn [replaceTags].
  destruct inTag.
  - destruct (Ascii.eqb c ">"); [|apply IH]. cbn [tagFreeL]. by rewrite IH.
  - destruct (Ascii.eqb c "<") eqn:Hc; cbn [andb].
    + destruct (existsb (Ascii.eqb ">") l) eqn:Hl; [apply IH|].
      cbn [tagFreeL]. rewrite Hc, IH, (replaceTags_plain l Hl), Hl. done.
    + cbn [tagFreeL]. by rewrite Hc, IH.
Qed.

Lemma tagFree_replaceTags l : tagFreeL l = true -> replaceTags false l = l.
Proof.
  induction l as [|c l IH]; [done|]. cbn [tagFreeL replaceTags].
  intros [Hc Hl]%andb_true_iff. apply negb_true_iff in Hc. rewrite Hc.
  by rewrite IH.
Qed.

Lemma tagFree_app a b :
  tagFreeL (a ++ b) = true -> tagFreeL a = true /\ tagFreeL b = true.
Proof.
  induction a as [|c a IH]; [done|]. cbn [app tagFreeL].
  intros [Hc Hab]%andb_true_iff. destruct (IH Hab) as [Ha Hb].
  split; [|done]. rewrite Ha, andb_true_r.
  rewrite existsb_app in Hc. apply negb_true_iff in Hc.
  apply negb_true_iff. destruct (Ascii.eqb c "<"); [|done].
  cbn [andb] in *. by apply orb_false_iff in Hc as [-> _].
Qed.

Lemma collapseSpaces_gt l : forall b,
  existsb (Ascii.eqb ">") (collapseSpaces b l) = existsb (Ascii.eqb ">") l.
Proof.
  induction l as [|c l IH]; intros b; [done|]. cbn [collapseSpaces existsb].
  destruct (Js.isSpace c) eqn:Hc.
  - destruct (isSpace_other c Hc) as (_ & Hgt & _).
    rewrite Ascii.eqb_sym in Hgt.
    assert (Ascii.eqb ">" c = false) as -> by by rewrite Ascii.eqb_sym.
    destruct b; cbn [existsb orb]; by rewrite IH.
  - cbn [existsb]. by rewrite IH.
Qed.

Lemma collapseSpaces_tagFree l : forall b,
  tagFreeL l = true -> tagFreeL (collapseSpaces b l) = true.
Proof.
  induction l as [|c l IH]; intros b; [done|]. cbn [tagFreeL collapseSpaces].
  intros [Hc Hl]%andb_true_iff.
  destruct (Js.isSpace c) eqn:Hs.
  - destruct b; [by apply IH|]. cbn [tagFreeL]. by rewrite IH.
  - cbn [tagFreeL]. by rewrite collapseSpaces_gt, Hc, IH.
Qed.

Lemma trimL_tagFree l : tagFreeL l = true -> tagFreeL (trimL l) = true.
Proof.
  intros H. destruct (trimL_split l) as (b & a & Hl & _).
  rewrite Hl in H. apply tagFree_app in H as [_ H].
  by apply tagFree_app in H as [H _].
Qed.

Lemma collapseSpaces_single l : forall b,
  singleSpacedL b (collapseSpaces b l) = true.
Proof.
  induction l as [|c l IH]; intros b; [done|]. cbn [collapseSpaces].
  destruct (Js.isSpace c) eqn:Hc.
  - destruct b; [apply IH|]. cbn. by rewrite IH.
  - cbn [singleSpacedL]. by rewrite Hc, IH.
Qed.

Lemma single_collapseSpaces l : forall b,
  singleSpacedL b l = true -> collapseSpaces b l = l.
Proof.
  induction l as [|c l IH]; intros b; [done|]. cbn [singleSpacedL collapseSpaces].
  destruct (Js.isSpace c) eqn:Hc.
  - intros [[Heq Hb]%andb_true_iff Hl]%andb_true_iff.
    apply negb_true_iff in Hb as ->. apply Ascii.eqb_eq in Heq as ->.
    by rewrite IH.
  - intros Hl. by rewrite IH.
Qed.

Lemma single_prefix a x : forall b,
  singleSpacedL b (a ++ x) = true -> singleSpacedL b a = true.
Proof.
  induction a as [|c a IH]; intros b; [done|]. cbn [app singleSpacedL].
  destruct (Js.isSpace c).
  - intros [H Hl]%andb_true_iff. rewrite H. by apply IH in Hl.
  - apply IH.
Qed.

Lemma single_suffix a x : forall b,
  singleSpacedL b (a ++ x) = true ->
  match x with [] => True | c :: _ => Js.isSpace c = false end ->
  singleSpacedL false x = true.
Proof.
  induction a as [|c a IH]; intros b; cbn [app].
  - destruct x as [|c x]; [done|]. cbn [singleSpacedL].
    intros H Hc. rewrite Hc in H |- *. exact H.
  - cbn [singleSpacedL]. destruct (Js.isSpace c).
    + intros [_ Hl]%andb_true_iff. by apply (IH true).
    + apply IH.
Qed.

Lemma trimL_single l :
  singleSpacedL false l = true -> singleSpacedL false (trimL l) = true.
Proof.
  intros H. destruct (trimL_split l) as (b & a & Hl & _ & _ & Ht).
  destruct (trimL l) as [|c t] eqn:Et; [done|].
  rewrite Hl in H. apply single_suffix in H.
  - by apply single_prefix in H.
  - unfold trimmedL in Ht. apply andb_true_iff in Ht as [Ht _].
    by apply negb_true_iff in Ht.
Qed.

(** The characters of a stripped text. *)
Lemma stripTags_list s :
  list_ascii_of_string (stripTags s)
  = trimL (collapseSpaces false (replaceTags false (list_ascii_of_string s))).
Proof.
  unfold stripTags. by rewrite trim_list, list_ascii_of_string_of_list_ascii.
Qed.

Lemma stripTags_normal s :
  tagFree (stripTags s) = true /\ singleSpaced (stripTags s) = true.
Proof.
  unfold tagFree, singleSpaced. rewrite stripTags_list. split.
  - apply trimL_tagFree, collapseSpaces_tagFree, replaceTags_tagFree.
  - apply andb_true_iff. split.
    + apply trimL_single, collapseSpaces_single.
    + by destruct (trimL_split (collapseSpaces false
                     (replaceTags false (list_ascii_of_string s))))
        as (_ & _ & _ & _ & _ & H).
Qed.

Lemma stripTags_of_normal t :
  tagFree t = true -> singleSpaced t = true -> stripTags t = t.
Proof.
  unfold tagFree, singleSpaced. intros Ht [Hs Hm]%andb_true_iff.
  rewrite <- (string_of_list_ascii_of_string t) at 2.
  rewrite <- (string_of_list_ascii_of_string (stripTags t)).
  f_equal. rewrite stripTags_list.
  rewrite (tagFree_replaceTags _ Ht), (single_collapseSpaces _ _ Hs).
  by apply trimL_trimmed.
Qed.

Lemma parseJobPosting_descriptionText now fields job :
  parseJobPosting now (Obj fields) = Ret job ->
  (if truthy (lookup "description" fields)
   then stripHtml (orElse (lookup "description" fields) (Str ""))
   else Ret "") = Ret (Posting.descriptionText job).
Proof.
  unfold parseJobPosting. cbn [get bind].
  repeat match goal with
         | |- bind ?m _ = _ -> _ =>
             let E := fresh "E" in destruct m eqn:E; cbn [bind]; [|discriminate]
         end.
  intros [= <-]. cbn. done.
Qed.

Lemma stripHtml_normal v t :
  stripHtml v = Ret t -> tagFree t = true /\ singleSpaced t = true.
Proof.
  unfold stripHtml. destruct (negb (truthy (Some v))); [by intros [= <-]|].
  destruct v; try done. intros [= <-]. apply stripTags_normal.
Qed.

(** X12.  What [stripHtml] returns contains no tag (no [<] with a [>]
    anywhere after it) and has its white space normalised (single spaces
    only, none at either end); stripping it again changes nothing.  So the
    plain-text description of every structured-data record is free of tags
    and of stray white space. *)
Theorem stripHtml_normal_form :
  (forall s,
      stripHtml (Str s) = Ret (stripTags s)
      /\ tagFree (stripTags s) = true
      /\ singleSpaced (stripTags s) = true
      /\ stripHtml (Str (stripTags s)) = Ret (stripTags s))
  /\ (forall now fields job,
        parseJobPosting now (Obj fields) = Ret job ->
        tagFree (Posting.descriptionText job) = true
        /\ singleSpaced (Posting.descriptionText job) = true).
Proof.
  assert (forall s, stripHtml (Str s) = Ret (stripTags s)) as Hs.
  { intros s. unfold stripHtml. cbn [truthy].
    destruct (Js.truthy s) eqn:Ht; [done|].
    by apply JsFacts.truthy_false in Ht as ->. }
  split.
  - intros s. destruct (stripTags_normal s) as [Ht Hn].
    split; [apply Hs|]. split; [done|]. split; [done|].
    rewrite Hs. f_equal. by apply stripTags_of_normal.
  - intros now fields job Hj%parseJobPosting_descriptionText.
    destruct (truthy (lookup "description" fields)).
    + by apply stripHtml_normal in Hj.
    + by injection Hj as <-.
Qed.

End StripFacts.

(** ** [extractExperience]: the form of its result *)

Module ExperienceShapeFacts.
Import Json JsonLd Regex Text StringFacts.

Lemma tryCounts_sound {A} (k : list ascii -> option A) s min i x :
  tryCounts k s min i = Some x ->
  exists j, (min <= j <= i)%nat /\ k (drop j s) = Some x.
Proof.
  induction i as [|i IH]; cbn [tryCounts].
  - destruct (Nat.eqb_spec min 0) as [->|]; [|done].
    intros H. exists 0%nat. by split; [lia|].
  - destruct (Nat.ltb_spec (S i) min); [done|].
    destruct (k (drop (S i) s)) as [y|] eqn:Hk.
    + intros [= <-]. exists (S i). by split; [lia|].
    + intros (j & Hj & Hx)%IH. exists j. by split; [lia|].
Qed.

Lemma matchAt_Seq {A} a b s caps (k : list ascii -> list string -> option A) :
  matchAt (Seq a b) s caps k
  = matchAt a s caps (fun s' caps' => matchAt b s' caps' k).
Proof. done. Qed.

(** An expression without group leaves the captures as they are. *)
Lemma matchAt_capFree {A} r : forall s caps (k : list ascii -> list string -> option A) x,
  capFree r = true ->
  matchAt r s caps k = Some x ->
  exists s', k s' caps = Some x.
Proof.
  induction r as [|p|a IHa b IHb|a IHa b IHb|min p|a IHa|a IHa];
    intros s caps k x Hr; cbn [matchAt capFree] in *.
  - eauto.
  - destruct s as [|c s]; [done|]. destruct (p c); [eauto|done].
  - apply andb_true_iff in Hr as [Ha Hb].
    intros (s1 & H1)%(IHa _ _ _ _ Ha). by apply (IHb _ _ _ _ Hb) in H1.
  - apply andb_true_iff in Hr as [Ha Hb].
    destruct (matchAt a s caps k) as [y|] eqn:Hm.
    + intros [= <-]. by apply (IHa _ _ _ _ Ha) in Hm.
    + by apply IHb.
  - intros (j & _ & Hj)%tryCounts_sound. eauto.
  - destruct (matchAt a s caps k) as [y|] eqn:Hm.
    + intros [= <-]. by apply (IHa _ _ _ _ Hr) in Hm.
    + eauto.
  - done.
Qed.

Lemma forallb_take {A} (p : A -> bool) l : forall j,
  forallb p l = true -> forallb p (take j l) = true.
Proof.
  induction l as [|a l IH]; intros [|j]; try done. cbn [forallb take].
  intros [-> Hl]%andb_true_iff. by apply IH.
Qed.

Lemma take_digits s j :
  (1 <= j <= length (Js.takeWhile Js.isDigit s))%nat ->
  isNumeral (string_of_list_ascii (take j s)) = true.
Proof.
  intros Hj. unfold isNumeral. rewrite list_ascii_of_string_of_list_ascii.
  rewrite <- (takeWhile_dropWhile Js.isDigit s), take_app_le by lia.
  pose proof (forallb_take _ _ j (takeWhile_forallb Js.isDigit s)) as Hd.
  destruct (Js.takeWhile Js.isDigit s) as [|d ds] eqn:Ht; [cbn in Hj; lia|].
  destruct j as [|j]; [lia|]. exact Hd.
Qed.

(** A group of digits captures a numeral. *)
Lemma matchAt_digits {A} s caps (k : list ascii -> list string -> option A) x :
  matchAt (Cap (Many 1 Js.isDigit)) s caps k = Some x ->
  exists n s', isNumeral n = true /\ k s' (caps ++ [n]) = Some x.
Proof.
  cbn [matchAt]. intros (j & Hj & Hk)%tryCounts_sound.
  assert (length (Js.takeWhile Js.isDigit s) <= length s)%nat as Hle.
  { rewrite <- (takeWhile_dropWhile Js.isDigit s) at 2. rewrite length_app. lia. }
  rewrite length_drop in Hk.
  replace (length s - (length s - j))%nat with j in Hk by lia.
  eexists _, _. split; [|exact Hk]. by apply take_digits.
Qed.

Lemma searchL_sound r s caps :
  searchL r s = Some caps ->
  exists t, matchAt r t [] (fun _ c => Some c) = Some caps.
Proof.
  induction s as [|c s IH]; cbn [searchL].
  - destruct (matchAt r [] [] _) eqn:Hm; [|done]. intros [= <-]. eauto.
  - destruct (matchAt r (c :: s) [] _) eqn:Hm; [intros [= <-]; eauto|].
    apply IH.
Qed.

Lemma experienceRange_captures s caps :
  search experienceRange s = Some caps ->
  exists lo hi, caps = [lo; hi] /\ isNumeral lo = true /\ isNumeral hi = true.
Proof.
  unfold search. intros (t & H)%searchL_sound. unfold experienceRange in H.
  rewrite matchAt_Seq in H.
  apply matchAt_digits in H as (lo & s1 & Hlo & H).
  rewrite matchAt_Seq in H. apply matchAt_capFree in H as (s2 & H); [|done].
  rewrite matchAt_Seq in H. apply matchAt_capFree in H as (s3 & H); [|done].
  rewrite matchAt_Seq in H. apply matchAt_capFree in H as (s4 & H); [|done].
  rewrite matchAt_Seq in H.
  apply matchAt_digits in H as (hi & s5 & Hhi & H).
  apply matchAt_capFree in H as (s6 & H); [|done].
  injection H as <-. by exists lo, hi.
Qed.

Lemma experienceSingle_captures s caps :
  search experienceSingle s = Some caps ->
  exists n, caps = [n] /\ isNumeral n = true.
Proof.
  unfold search. intros (t & H)%searchL_sound. unfold experienceSingle in H.
  rewrite matchAt_Seq in H.
  apply matchAt_digits in H as (n & s1 & Hn & H).
  apply matchAt_capFree in H as (s2 & H); [|done].
  injection H as <-. by exists n.
Qed.

Lemma extractExperience_shape v r :
  extractExperience v = Ret r -> experienceShape r.
Proof.
  unfold extractExperience.
  destruct (negb (truthy (Some v))); [intros [= <-]; by left|].
  destruct v as [| | |s| |]; try done.
  destruct (search experienceRange s) as [caps|] eqn:Hr.
  - apply experienceRange_captures in Hr as (lo & hi & -> & Hlo & Hhi).
    intros [= <-]. right. right. right. by exists lo, hi.
  - destruct (search experienceSingle s) as [caps|] eqn:Hs.
    + apply experienceSingle_captures in Hs as (n & -> & Hn).
      intros [= <-]. right. right. left. by exists n.
    + destruct (Js.includes _ _); intros [= <-]; [right|]; by left.
Qed.

(** X13.  [extractExperience] returns, for every text, one of four forms:
    "Not specified", "0-1 years", a numeral followed by "+ years", or two
    numerals joined by a hyphen and followed by " years"; it is never
    empty.  So is the experience of every structured-data record. *)
Theorem experience_has_a_canonical_form :
  (forall s, exists r,
      extractExperience (Str s) = Ret r /\ experienceShape r /\ r <> "")
  /\ (forall now fields job,
        parseJobPosting now (Obj fields) = Ret job ->
        experienceShape (Posting.experience job)).
Proof.
  split.
  - intros s.
    assert (exists r, extractExperience (Str s) = Ret r) as [r Hr].
    { unfold extractExperience. repeat case_match; eauto. }
    exists r. split; [done|].
    pose proof (extractExperience_shape _ _ Hr) as Hshape. split; [done|].
    destruct Hshape as [->|[->|[(n & Hn & ->)|(lo & hi & Hlo & _ & ->)]]];
      [done|done| |].
    + unfold isNumeral in Hn. by destruct n.
    + unfold isNumeral in Hlo. by destruct lo.
  - intros now fields job Hj.
    apply JsonLdFacts.parseJobPosting_fields in Hj as (_ & _ & He).
    by apply extractExperience_shape in He.
Qed.

End ExperienceShapeFacts.

(** ** The sanitiser: what the output holds, and a second run *)

Module SanitizeShapeFacts.
Import Html.

(** X14.  Whatever the fragment, the nodes the sanitiser leaves hold
    allow-listed tags only and no attribute but [href] (and none of the
    removed tags). *)
Theorem sanitizer_output_is_allow_listed :
  forall nodes,
    forallb named nodes = true ->
    clean (sanitizeNodes nodes) = true
    /\ (forall tag, member (Js.toLowerCase tag) allowedTags = true ->
                    member tag noiseTags = false).
Proof.
  intros nodes Hn. split.
  - by apply SanitizeFacts.sanitizeNodes_clean.
  - apply SanitizeFacts.allowed_not_noise.
Qed.

(** X15.  Sanitising the text the sanitiser returned runs its last pass
    once more and nothing else, provided the texts of the fragment are
    ASCII and the parser reads the text returned back as the very nodes it
    was written from (it does not when that text nests one paragraph in
    another, or when an unwrapped element left two text nodes side by
    side): the second result is the first with
    the elements removed that the first run left empty; when the first run
    left none, the second run changes nothing. *)
Theorem second_sanitizing_only_removes_empty :
  forall ch fragment,
    let nodes := sanitizeNodes (load ch (wrapped fragment)) in
    let first := sanitizeHtmlFragment ch fragment in
    first <> "" ->
    forallb named (load ch (wrapped fragment)) = true ->
    forallb asciiText (load ch (wrapped fragment)) = true ->
    load ch (wrapped first) = nodes ->
    sanitizeHtmlFragment ch first
    = Js.trim (html ch (flat_map dropEmpty nodes))
    /\ (forallb solid nodes = true -> sanitizeHtmlFragment ch first = first).
Proof.
  intros ch fragment nodes first Hne Hnamed _ Hback.
  assert (first = Js.trim (html ch nodes)) as Hfirst.
  { unfold first, sanitizeHtmlFragment in *.
    destruct (negb (Js.truthy fragment)); [done|]. reflexivity. }
  assert (sanitizeHtmlFragment ch first
          = Js.trim (html ch (sanitizeNodes nodes))) as Hsecond.
  { unfold sanitizeHtmlFragment at 1.
    rewrite (proj2 (JsFacts.truthy_true first) Hne). cbn [negb].
    by rewrite Hback. }
  split.
  - rewrite Hsecond. unfold nodes.
    by rewrite SanitizeFacts.sanitizeNodes_twice.
  - intros Hsolid. rewrite Hsecond, Hfirst. unfold nodes in *.
    by rewrite SanitizeFacts.sanitizeNodes_twice_solid.
Qed.

End SanitizeShapeFacts.

Module SanitizeShapeExamples.
Import Fixtures.
Import Html.

Lemma sanitizer_output_is_allow_listed_witness :
  forallb named advert = true
  /\ sanitizeNodes advert
     = [ Elem "h2" [] [Text "Role"];
         Elem "p" [] [Text "Build "; Text "things";
                      Elem "a" [("href", "/apply")] [Text "apply"]] ]
  /\ clean (sanitizeNodes advert) = true.
Proof.
  assert (forallb named advert = true) as H by reflexivity.
  split; [exact H|]. split; [reflexivity|].
  exact (proj1 (SanitizeShapeFacts.sanitizer_output_is_allow_listed advert H)).
Defined.

Lemma second_sanitizing_only_removes_empty_witness :
  sanitizeHtmlFragment MiniHtml.cheerio advertText = advertClean
  /\ sanitizeHtmlFragment MiniHtml.cheerio advertClean = advertClean.
Proof.
  assert (sanitizeHtmlFragment MiniHtml.cheerio advertText = advertClean)
    as Hfirst by (vm_compute; reflexivity).
  split; [exact Hfirst|].
  pose proof (SanitizeShapeFacts.second_sanitizing_only_removes_empty
                MiniHtml.cheerio advertText) as H.
  cbv zeta in H. rewrite Hfirst in H.
  destruct (H ltac:(discriminate) ltac:(vm_compute; reflexivity)
              ltac:(vm_compute; reflexivity) ltac:(vm_compute; reflexivity))
    as [_ Hsolid].
  apply Hsolid. vm_compute. reflexivity.
Defined.

End SanitizeShapeExamples.

(** ** Readable text: the final clean-up *)

Module ReadableFacts.
Import Html Readable Text StringFacts.

(** *** Occurrences of a pattern *)

Lemma startsWithL_mono p s t :
  Js.startsWithL p s = true -> Js.startsWithL p (s ++ t) = true.
Proof.
  revert s. induction p as [|a p IH]; intros [|b s]; try done. cbn.
  intros [-> H]%andb_true_iff. by apply IH.
Qed.

Lemma includesL_app_r p s t :
  Js.includesL p s = true -> Js.includesL p (s ++ t) = true.
Proof.
  induction s as [|b s IH].
  - cbn. rewrite orb_false_r. intros H. destruct p; [by destruct t|done].
  - cbn [Js.includesL app]. intros [H|H]%orb_true_iff.
    + pose proof (startsWithL_mono _ _ t H) as H'. cbn [app] in H'.
      by rewrite H'.
    + rewrite (IH H). apply orb_true_r.
Qed.

Lemma includesL_app_l p s t :
  Js.includesL p t = true -> Js.includesL p (s ++ t) = true.
Proof.
  intros H. induction s as [|b s IH]; [done|].
  cbn [Js.includesL app]. rewrite IH. apply orb_true_r.
Qed.

(** A pattern that does not occur in a text does not occur in its trimmed
    text. *)
Lemma includesL_trimL p l :
  Js.includesL p l = false -> Js.includesL p (trimL l) = false.
Proof.
  intros H. destruct (trimL_split l) as (b & a & Hl & _).
  destruct (Js.includesL p (trimL l)) eqn:Ht; [|done].
  rewrite Hl in H. by rewrite (includesL_app_l p b _ (includesL_app_r p _ a Ht)) in H.
Qed.

(** *** The three replacements *)

Lemma dropBlanks_forallb (q : ascii -> bool) l :
  forallb q l = true -> forallb q (dropBlanksBeforeNewline l) = true.
Proof.
  induction l as [|c l IH]; [done|]. cbn [forallb dropBlanksBeforeNewline].
  intros [Hc Hl]%andb_true_iff. cbv zeta.
  destruct (_ && _); [by apply IH|]. cbn [forallb]. by rewrite Hc, IH.
Qed.

Lemma squeeze_forallb (q : ascii -> bool) l : forall n,
  forallb q l = true -> forallb q (squeezeNewlines n l) = true.
Proof.
  induction l as [|c l IH]; intros n; [done|]. cbn [forallb squeezeNewlines].
  intros [Hc Hl]%andb_true_iff.
  destruct (Ascii.eqb c nl); [destruct (2 <=? n)%nat|];
    cbn [forallb]; rewrite ?Hc; by apply IH.
Qed.

Lemma removeCR_forallb l : forallb notCR (removeCR l) = true.
Proof.
  induction l as [|c l IH]; [done|]. cbn [removeCR List.filter].
  fold (removeCR l). destruct (negb (Ascii.eqb c cr)) eqn:Hc; [|done].
  cbn [forallb]. unfold notCR at 1. by rewrite Hc.
Qed.

Lemma notCR_includes l :
  forallb notCR l = true -> Js.includesL [cr] l = false.
Proof.
  induction l as [|c l IH]; [done|]. cbn [forallb Js.includesL Js.startsWithL].
  intros [Hc Hl]%andb_true_iff. rewrite (IH Hl), andb_true_r, orb_false_r.
  unfold notCR in Hc. apply negb_true_iff in Hc. by rewrite Ascii.eqb_sym.
Qed.

Lemma dropBlanks_noBlankNewline l :
  noBlankNewline (dropBlanksBeforeNewline l) = true.
Proof.
  induction l as [|c l IH]; [done|]. cbn [dropBlanksBeforeNewline]. cbv zeta.
  destruct (isBlank c && startsWithNewline _) eqn:Hc; [done|].
  cbn [noBlankNewline]. by rewrite Hc, IH.
Qed.

Lemma squeeze0_head l :
  startsWithNewline (squeezeNewlines 0 l) = startsWithNewline l.
Proof.
  destruct l as [|c l]; [done|]. cbn [squeezeNewlines].
  by destruct (Ascii.eqb c nl) eqn:Hc; cbn; rewrite Hc.
Qed.

Lemma isBlank_nl c : Ascii.eqb c nl = true -> isBlank c = false.
Proof. intros ->%Ascii.eqb_eq. done. Qed.

Lemma squeeze_noBlankNewline l : forall n,
  noBlankNewline l = true -> noBlankNewline (squeezeNewlines n l) = true.
Proof.
  induction l as [|c l IH]; intros n; [done|].
  cbn [noBlankNewline squeezeNewlines].
  intros [Hc Hl]%andb_true_iff.
  destruct (Ascii.eqb c nl) eqn:Hnl.
  - destruct (2 <=? n)%nat; [by apply IH|].
    cbn [noBlankNewline]. by rewrite (isBlank_nl _ Hnl), IH.
  - cbn [noBlankNewline]. by rewrite squeeze0_head, Hc, IH.
Qed.

Lemma noBlankNewline_includes l :
  noBlankNewline l = true ->
  Js.includesL [" "%char; nl] l = false /\ Js.includesL [tab; nl] l = false.
Proof.
  induction l as [|c l IH]; [done|].
  cbn [noBlankNewline Js.includesL Js.startsWithL].
  intros [Hc Hl]%andb_true_iff. destruct (IH Hl) as [-> ->].
  rewrite !orb_false_r. apply negb_true_iff in Hc.
  unfold isBlank, startsWithNewline in Hc.
  destruct l as [|x l]; [by rewrite !andb_false_r|].
  rewrite !andb_true_r, (Ascii.eqb_sym " " c), (Ascii.eqb_sym tab c),
          (Ascii.eqb_sym nl x).
  destruct (Ascii.eqb x nl); [|by rewrite !andb_false_r].
  rewrite andb_true_r in Hc. apply orb_false_iff in Hc as [-> ->]. done.
Qed.

(** No three line feeds in a row, also after [k] line feeds already
    written. *)
Lemma squeeze_noTriple l : forall n,
  Js.includesL [nl; nl; nl] (repeat nl (Nat.min n 2) ++ squeezeNewlines n l)
  = false.
Proof.
  assert (forall n, Nat.min (S (S n)) 2 = 2%nat) as Hmin by (intros; lia).
  induction l as [|c l IH]; intros n.
  - cbn [squeezeNewlines]. rewrite app_nil_r.
    destruct n as [|[|n]]; rewrite ?Hmin; reflexivity.
  - cbn [squeezeNewlines]. destruct (Ascii.eqb c nl) eqn:Hc.
    + apply Ascii.eqb_eq in Hc as ->.
      destruct n as [|[|n]].
      * exact (IH 1%nat).
      * specialize (IH 2%nat). exact IH.
      * rewrite Hmin. specialize (IH (S (S (S n)))). rewrite Hmin in IH.
        exact IH.
    + specialize (IH 0%nat). cbn [Nat.min repeat app] in IH.
      assert (Ascii.eqb nl c = false) as Hc' by (by rewrite Ascii.eqb_sym).
      destruct n as [|[|n]]; rewrite ?Hmin;
        cbn [Nat.min repeat app Js.includesL Js.startsWithL];
        rewrite ?Hc', ?IH, ?Ascii.eqb_refl, ?andb_false_r, ?andb_false_l; done.
Qed.

Lemma tidy_list s :
  list_ascii_of_string (tidy s)
  = trimL (squeezeNewlines 0
             (dropBlanksBeforeNewline (removeCR (list_ascii_of_string s)))).
Proof. unfold tidy. by rewrite trim_list, list_ascii_of_string_of_list_ascii. Qed.

Lemma tidy_is_tidy s :
  Js.includes (tidy s) (String cr "") = false
  /\ Js.includes (tidy s) (String nl (String nl (String nl ""))) = false
  /\ Js.includes (tidy s) (String " " (String nl "")) = false
  /\ Js.includes (tidy s) (String tab (String nl "")) = false
  /\ Js.trim (tidy s) = tidy s.
Proof.
  unfold Js.includes. rewrite tidy_list. cbn [list_ascii_of_string].
  set (l := removeCR (list_ascii_of_string s)).
  pose proof (dropBlanks_noBlankNewline l) as Hb.
  apply (squeeze_noBlankNewline _ 0%nat), noBlankNewline_includes in Hb as [H1 H2].
  split; [|split; [|split; [|split]]].
  - apply includesL_trimL, notCR_includes, squeeze_forallb, dropBlanks_forallb.
    apply removeCR_forallb.
  - apply includesL_trimL. exact (squeeze_noTriple _ 0%nat).
  - by apply includesL_trimL.
  - by apply includesL_trimL.
  - unfold tidy. apply trim_idem.
Qed.

(** X16.  The readable text of any fragment, with any parser, contains no
    carriage return, never three line feeds in a row (at most one blank
    line), no space or tab right before a line feed, and no white space at
    either end. *)
Theorem readable_text_is_tidy :
  forall ch fragment,
    let t := htmlToReadableText ch fragment in
    Js.includes t (String cr "") = false
    /\ Js.includes t (String nl (String nl (String nl ""))) = false
    /\ Js.includes t (String " " (String nl "")) = false
    /\ Js.includes t (String tab (String nl "")) = false
    /\ Js.trim t = t.
Proof.
  intros ch fragment. cbv zeta. unfold htmlToReadableText.
  destruct (negb (Js.truthy fragment)); [done|]. apply tidy_is_tidy.
Qed.

End ReadableFacts.

(** ** The description section taken from a detail page *)

Module CleanSectionFacts.
Import CleanSection.

(** X17.  A description returned by [extractCleanSectionFromCheerio] comes
    from one of the selectors tried; its HTML is the sanitised markup of
    that element and its text the readable text of that HTML; the text has
    at least [minTextLength] characters and is not the text of an error or
    challenge page; the HTML is not empty, has at most 120000 characters and
    is not a script-loader payload. *)
Theorem clean_section_is_checked :
  forall ch probe selectors minTextLength d,
    extractCleanSectionFromCheerio ch probe selectors minTextLength = Some d ->
    exists selector h,
      selector ∈ selectors
      /\ found (probe selector) = true
      /\ probeHtml (probe selector) = Some h
      /\ descHtml d = Html.sanitizeHtmlFragment ch (Js.trim h)
      /\ descText d = Readable.htmlToReadableText ch (descHtml d)
      /\ minTextLength <= strlen (descText d)
      /\ minTextLength <= strlen (Js.trim (probeText (probe selector)))
      /\ descText d <> ""
      /\ descHtml d <> ""
      /\ strlen (descHtml d) <= 120000
      /\ isHydration (Js.toLowerCase (descHtml d)) = false
      /\ isBlockText (descText d) = false.
Proof.
  intros ch probe selectors minTextLength d.
  induction selectors as [|selector rest IH]; [done|].
  cbn [extractCleanSectionFromCheerio]. cbv zeta.
  assert (extractCleanSectionFromCheerio ch probe rest minTextLength = Some d ->
          exists selector0 h,
            selector0 ∈ selector :: rest
            /\ found (probe selector0) = true
            /\ probeHtml (probe selector0) = Some h
            /\ descHtml d = Html.sanitizeHtmlFragment ch (Js.trim h)
            /\ descText d = Readable.htmlToReadableText ch (descHtml d)
            /\ minTextLength <= strlen (descText d)
            /\ minTextLength <= strlen (Js.trim (probeText (probe selector0)))
            /\ descText d <> ""
            /\ descHtml d <> ""
            /\ strlen (descHtml d) <= 120000
            /\ isHydration (Js.toLowerCase (descHtml d)) = false
            /\ isBlockText (descText d) = false) as Hnext.
  { intros (s & h & Hs & H)%IH. exists s, h. split; [by right|done]. }
  clear IH.
  match goal with
  | |- _ -> ?post => set (Post := post) in Hnext |- *
  end.
  destruct (found (probe selector)) eqn:Hf; cbn [negb]; [|exact Hnext].
  destruct (Js.truthy (Js.trim (probeText (probe selector)))) eqn:Ht;
    cbn [negb orb]; [|exact Hnext].
  destruct (Z.ltb_spec (strlen (Js.trim (probeText (probe selector))))
              minTextLength); [exact Hnext|].
  destruct (probeHtml (probe selector)) as [h|] eqn:Hh; [|exact Hnext].
  destruct (Js.truthy (Js.trim h)); cbn [negb]; [|exact Hnext].
  destruct (Js.truthy (Html.sanitizeHtmlFragment ch (Js.trim h))) eqn:Hs;
    cbn [negb orb]; [|exact Hnext].
  destruct (Z.ltb_spec 120000 (strlen (Html.sanitizeHtmlFragment ch (Js.trim h))));
    [exact Hnext|].
  destruct (isHydration (Js.toLowerCase
              (Html.sanitizeHtmlFragment ch (Js.trim h)))) eqn:Hy; [exact Hnext|].
  destruct (isBlockText (Readable.htmlToReadableText ch
              (Html.sanitizeHtmlFragment ch (Js.trim h)))) eqn:Hb; [exact Hnext|].
  destruct (Js.truthy (Readable.htmlToReadableText ch _)) eqn:Hx;
    cbn [andb]; [|exact Hnext].
  destruct (Z.leb_spec minTextLength
              (strlen (Readable.htmlToReadableText ch
                         (Html.sanitizeHtmlFragment ch (Js.trim h)))));
    [|exact Hnext].
  intros [= <-]. unfold Post. cbn [descHtml descText]. exists selector, h.
  apply JsFacts.truthy_true in Hs, Hx.
  split; [by left|]. repeat (split; [done|]). done.
Qed.

End CleanSectionFacts.

Module CleanSectionExamples.
Import Fixtures.
Import CleanSection.

Lemma clean_section_is_checked_witness :
  extractCleanSectionFromCheerio MiniHtml.cheerio detailProbe
    ["#jobDescriptionText"; ".jd-desc"] 30 = Some detailSection
  /\ exists selector h,
       selector ∈ ["#jobDescriptionText"; ".jd-desc"]
       /\ found (detailProbe selector) = true
       /\ probeHtml (detailProbe selector) = Some h
       /\ descHtml detailSection
          = Html.sanitizeHtmlFragment MiniHtml.cheerio (Js.trim h).
Proof.
  assert (extractCleanSectionFromCheerio MiniHtml.cheerio detailProbe
            ["#jobDescriptionText"; ".jd-desc"] 30 = Some detailSection) as H
    by (vm_compute; reflexivity).
  split; [exact H|].
  destruct (CleanSectionFacts.clean_section_is_checked _ _ _ _ _ H)
    as (selector & h & Hs & Hf & Hh & Hd & _).
  by exists selector, h.
Defined.

End CleanSectionExamples.

(** ** A listing page that cannot be read *)

Module ChallengeFacts.
Import Crawler.

Lemma challengeLoop_stuck probe :
  (forall i, (i < maxRetries)%nat ->
             isChallenge (probe i).1 (probe i).2 = true) ->
  challengeLoop probe maxRetries 0 = maxRetries.
Proof.
  intros H. unfold maxRetries in *. cbn [challengeLoop].
  pose proof (H 0%nat ltac:(lia)) as H0.
  pose proof (H 1%nat ltac:(lia)) as H1.
  pose proof (H 2%nat ltac:(lia)) as H2.
  destruct (probe 0%nat) as [t0 b0], (probe 1%nat) as [t1 b1],
           (probe 2%nat) as [t2 b2].
  cbn [fst snd] in *. by rewrite H0, H1, H2.
Qed.

(** X18.  A listing page that fails to load, or that still shows a
    challenge at each of the three checks, ends the pagination quietly:
    the handler saves nothing, queues nothing and throws nothing (so the
    crawler does not retry the page); only [pagesProcessed] moves. *)
Theorem unreadable_page_ends_quietly :
  forall maxJobs fullPageDetails st page,
    navigationOk page = false
    \/ (forall i, (i < maxRetries)%nat ->
                  isChallenge (probe page i).1 (probe page i).2 = true) ->
    let h := requestHandler maxJobs fullPageDetails st page in
    pushed h = [] /\ queued h = None
    /\ totalJobsScraped (state h) = totalJobsScraped st
    /\ seenJobUrls (state h) = seenJobUrls st
    /\ extractionMethod (state h) = extractionMethod st
    /\ pagesProcessed (state h) = pagesProcessed st + 1.
Proof.
  intros maxJobs fullPageDetails st page H. cbv zeta. unfold requestHandler.
  destruct (navigationOk page) eqn:Hn; cbn [negb]; [|done].
  destruct H as [H|H]; [done|].
  rewrite (challengeLoop_stuck _ H). by rewrite Nat.leb_refl.
Qed.

End ChallengeFacts.

Module ChallengeExamples.
Import Fixtures.
Import Crawler.

Lemma unreadable_page_ends_quietly_witness :
  pushed (requestHandler 20 true initialState challenged) = []
  /\ queued (requestHandler 20 true initialState challenged) = None.
Proof.
  assert (navigationOk challenged = false
          \/ (forall i, (i < maxRetries)%nat ->
                isChallenge (probe challenged i).1 (probe challenged i).2 = true))
    as H by (right; intros i _; reflexivity).
  destruct (ChallengeFacts.unreadable_page_ends_quietly 20 true initialState
              challenged H) as (Hp & Hq & _).
  by split.
Defined.

End ChallengeExamples.

(** ** [extractExperience]: ranges with and without a separator *)

Module ExperienceEdgeFacts.
Import Json JsonLd Regex ExperienceParts Text StringFacts.

Lemma experienceRange_parts : experienceRange = Seq digits rangeTail.
Proof. done. Qed.

Lemma experienceSingle_parts : experienceSingle = Seq digits singleTail.
Proof. done. Qed.

Lemma rangeTail_parts {A} s caps (k : list ascii -> list string -> option A) :
  matchAt rangeTail s caps k
  = matchAt separator s caps (fun s' caps' => matchAt (Seq digits unit) s' caps' k).
Proof. done. Qed.

Lemma tryCounts_none {A} (k : list ascii -> option A) s min i :
  (forall j, (min <= j <= i)%nat -> k (drop j s) = None) ->
  tryCounts k s min i = None.
Proof.
  induction i as [|i IH]; intros H; cbn [tryCounts].
  - destruct (Nat.eqb_spec min 0) as [->|]; [|done]. exact (H 0%nat ltac:(lia)).
  - destruct (Nat.ltb_spec (S i) min); [done|].
    rewrite (H (S i) ltac:(lia)). apply IH. intros j Hj. apply H. lia.
Qed.

Lemma tryCounts_top {A} (k : list ascii -> option A) s min i x :
  (min <= i)%nat -> k (drop i s) = Some x -> tryCounts k s min i = Some x.
Proof.
  intros Hi Hk. destruct i as [|i]; cbn [tryCounts].
  - destruct (Nat.eqb_spec min 0); [exact Hk|lia].
  - destruct (Nat.ltb_spec (S i) min); [lia|]. by rewrite Hk.
Qed.

Lemma takeWhile_digits ds rest :
  forallb Js.isDigit ds = true -> notDigitHead rest ->
  Js.takeWhile Js.isDigit (ds ++ rest) = ds.
Proof.
  intros Hd Hr. destruct rest as [|c rest].
  - rewrite app_nil_r. by apply takeWhile_all.
  - by apply takeWhile_app.
Qed.

(** The group of digits at the start of [ds ++ rest] tries the whole of
    [ds] first, then shorter prefixes. *)
Lemma matchAt_digits_run {A} ds rest caps (k : list ascii -> list string -> option A) :
  forallb Js.isDigit ds = true -> notDigitHead rest ->
  matchAt digits (ds ++ rest) caps k
  = tryCounts (fun s' =>
                 k s' (caps ++ [string_of_list_ascii
                                  (take (length (ds ++ rest) - length s')
                                        (ds ++ rest))]))
              (ds ++ rest) 1 (length ds).
Proof.
  intros Hd Hr. unfold digits. cbn [matchAt].
  by rewrite (takeWhile_digits _ _ Hd Hr).
Qed.

Lemma drop_digits ds rest j :
  forallb Js.isDigit ds = true -> (j < length ds)%nat ->
  exists d s', drop j (ds ++ rest) = d :: s' /\ Js.isDigit d = true.
Proof.
  intros Hd Hj. rewrite drop_app_le by lia.
  destruct (drop j ds) as [|d t] eqn:Ht.
  { apply (f_equal (@length _)) in Ht. rewrite length_drop in Ht. cbn in Ht. lia. }
  exists d, (t ++ rest). split; [done|].
  assert (forallb Js.isDigit (drop j ds) = true) as Hall.
  { clear -Hd. revert j. induction ds as [|a ds IH]; intros [|j]; try done.
    cbn in *. apply andb_true_iff in Hd as [_ Hd]. by apply IH. }
  rewrite Ht in Hall. cbn in Hall. by apply andb_true_iff in Hall as [? _].
Qed.

(** Digits followed by a tail that matches neither after a digit nor at
    [rest]: no match starts in the run of digits. *)
Lemma digits_then_none {A} tail ds rest caps
    (k : list ascii -> list string -> option A) :
  forallb Js.isDigit ds = true -> notDigitHead rest ->
  (forall d s' caps', Js.isDigit d = true -> matchAt tail (d :: s') caps' k = None) ->
  (forall caps', matchAt tail rest caps' k = None) ->
  matchAt (Seq digits tail) (ds ++ rest) caps k = None.
Proof.
  intros Hd Hr Hdigit Hrest. rewrite ExperienceShapeFacts.matchAt_Seq.
  rewrite (matchAt_digits_run _ _ _ _ Hd Hr).
  apply tryCounts_none. intros j Hj.
  destruct (decide (j < length ds)%nat) as [Hlt|Hge].
  - destruct (drop_digits ds rest j Hd Hlt) as (d & s' & -> & Hdd).
    by apply Hdigit.
  - assert (j = length ds) as -> by lia.
    rewrite drop_app_length. apply Hrest.
Qed.

Lemma searchL_unfold r s :
  searchL r s
  = match matchAt r s [] (fun _ caps => Some caps) with
    | Some caps => Some caps
    | None => match s with
              | [] => None
              | _ :: s' => searchL r s'
              end
    end.
Proof. by destruct s. Qed.

Lemma searchL_skip r pre post :
  (forall i, (i < length pre)%nat ->
             matchAt r (drop i pre ++ post) [] (fun _ caps => Some caps) = None) ->
  searchL r (pre ++ post) = searchL r post.
Proof.
  induction pre as [|c pre IH]; intros H; [done|].
  rewrite searchL_unfold.
  pose proof (H 0%nat ltac:(cbn; lia)) as H0.
  change (drop 0 (c :: pre) ++ post) with ((c :: pre) ++ post) in H0.
  rewrite H0. cbn [app]. apply IH.
  intros i Hi. apply (H (S i)). cbn. lia.
Qed.

Lemma drop_all_digits ds i :
  forallb Js.isDigit ds = true -> forallb Js.isDigit (drop i ds) = true.
Proof.
  revert i. induction ds as [|a ds IH]; intros [|i]; try done.
  cbn. intros [_ Hd]%andb_true_iff. by apply IH.
Qed.

(** No match of [digits tail] starts in a run of digits when [tail]
    matches neither after a digit nor after the run. *)
Lemma searchL_digits_none tail ds rest :
  forallb Js.isDigit ds = true -> notDigitHead rest ->
  (forall d s' caps', Js.isDigit d = true ->
     matchAt tail (d :: s') caps' (fun _ caps => Some caps) = None) ->
  (forall caps', matchAt tail rest caps' (fun _ caps => Some caps) = None) ->
  searchL (Seq digits tail) (ds ++ rest) = searchL (Seq digits tail) rest.
Proof.
  intros Hd Hr Hdigit Hrest. apply searchL_skip. intros i Hi.
  apply digits_then_none; [by apply drop_all_digits|done..].
Qed.

(** The whole run of digits is captured when the tail matches after it. *)
Lemma digits_then_some {A} tail ds rest caps
    (k : list ascii -> list string -> option A) x :
  forallb Js.isDigit ds = true -> ds <> [] -> notDigitHead rest ->
  matchAt tail rest (caps ++ [string_of_list_ascii ds]) k = Some x ->
  matchAt (Seq digits tail) (ds ++ rest) caps k = Some x.
Proof.
  intros Hd Hne Hr Hk. rewrite ExperienceShapeFacts.matchAt_Seq.
  rewrite (matchAt_digits_run _ _ _ _ Hd Hr).
  apply tryCounts_top; [destruct ds; [done|cbn; lia]|].
  rewrite drop_app_length, length_app.
  replace (length ds + length rest - length rest)%nat with (length ds) by lia.
  by rewrite take_app_length.
Qed.

(** *** The tails on what follows a number *)

Lemma rangeTail_digit {A} d s caps (k : list ascii -> list string -> option A) :
  Js.isDigit d = true -> matchAt rangeTail (d :: s) caps k = None.
Proof.
  intros Hd. apply isDigit_cases in Hd.
  repeat (apply elem_of_cons in Hd as [->|Hd]; [reflexivity|]).
  by apply not_elem_of_nil in Hd.
Qed.

Lemma rangeTail_hyphen_digit {A} d s caps
    (k : list ascii -> list string -> option A) :
  Js.isDigit d = true -> matchAt rangeTail ("-"%char :: d :: s) caps k = None.
Proof.
  intros Hd. apply isDigit_cases in Hd.
  repeat (apply elem_of_cons in Hd as [->|Hd]; [reflexivity|]).
  by apply not_elem_of_nil in Hd.
Qed.

Lemma singleTail_digit {A} d s caps (k : list ascii -> list string -> option A) :
  Js.isDigit d = true -> matchAt singleTail (d :: s) caps k = None.
Proof.
  intros Hd. apply isDigit_cases in Hd.
  repeat (apply elem_of_cons in Hd as [->|Hd]; [reflexivity|]).
  by apply not_elem_of_nil in Hd.
Qed.

(** After the separator [" to "] or [" - "] the match goes on at the next
    number. *)
Lemma separator_to {A} d s caps (k : list ascii -> list string -> option A) x :
  Js.isDigit d = true ->
  k (d :: s) caps = Some x ->
  matchAt separator (list_ascii_of_string " to " ++ d :: s) caps k = Some x.
Proof.
  intros Hd Hk. apply isDigit_cases in Hd.
  repeat (apply elem_of_cons in Hd as [->|Hd];
          [lazy; lazy in Hk; by rewrite Hk|]).
  by apply not_elem_of_nil in Hd.
Qed.

Lemma separator_hyphen {A} d s caps (k : list ascii -> list string -> option A) x :
  Js.isDigit d = true ->
  k (d :: s) caps = Some x ->
  matchAt separator (list_ascii_of_string " - " ++ d :: s) caps k = Some x.
Proof.
  intros Hd Hk. apply isDigit_cases in Hd.
  repeat (apply elem_of_cons in Hd as [->|Hd];
          [lazy; lazy in Hk; by rewrite Hk|]).
  by apply not_elem_of_nil in Hd.
Qed.

Lemma notDigitHead_years : notDigitHead years.
Proof. done. Qed.

(** *** The three texts *)

Section Numbers.
Variables a b : list ascii.
Hypothesis a_digits : forallb Js.isDigit a = true.
Hypothesis b_digits : forallb Js.isDigit b = true.
Hypothesis a_some : a <> [].
Hypothesis b_some : b <> [].

Lemma b_head : exists d b', b = d :: b' /\ Js.isDigit d = true.
Proof.
  destruct b as [|d b']; [done|]. exists d, b'. split; [done|].
  cbn in b_digits. by apply andb_true_iff in b_digits as [? _].
Qed.

Lemma number_unit caps :
  matchAt (Seq digits unit) (b ++ years) caps (fun _ c => Some c)
  = Some (caps ++ [string_of_list_ascii b]).
Proof. by apply digits_then_some. Qed.

Lemma number_single caps :
  matchAt (Seq digits singleTail) (b ++ years) caps (fun _ c => Some c)
  = Some (caps ++ [string_of_list_ascii b]).
Proof. by apply digits_then_some. Qed.

(** [a-b years]: the range pattern matches nowhere, the single pattern
    matches at [b]. *)
Lemma hyphen_only_range :
  searchL experienceRange (a ++ "-"%char :: b ++ years) = None.
Proof.
  rewrite experienceRange_parts.
  destruct b_head as (d & b' & Hb & Hd).
  rewrite searchL_digits_none; [|done|done| |].
  - rewrite searchL_unfold.
    change (matchAt (Seq digits rangeTail) ("-"%char :: b ++ years) []
              (fun _ caps => Some caps)) with (@None (list string)).
    cbv iota. rewrite searchL_digits_none; [done|done|done| |].
    + intros d0 s' caps' Hd0. by apply rangeTail_digit.
    + done.
  - intros d0 s' caps' Hd0. by apply rangeTail_digit.
  - intros caps'. rewrite Hb. by apply rangeTail_hyphen_digit.
Qed.

Lemma hyphen_only_single :
  searchL experienceSingle (a ++ "-"%char :: b ++ years)
  = Some [string_of_list_ascii b].
Proof.
  rewrite experienceSingle_parts.
  rewrite searchL_digits_none; [|done|done| |].
  - rewrite searchL_unfold.
    change (matchAt (Seq digits singleTail) ("-"%char :: b ++ years) []
              (fun _ caps => Some caps)) with (@None (list string)).
    cbv iota. rewrite searchL_unfold. by rewrite number_single.
  - intros d0 s' caps' Hd0. by apply singleTail_digit.
  - done.
Qed.

Lemma separated_range (sep : string) :
  (forall {A} d s caps (k : list ascii -> list string -> option A) x,
      Js.isDigit d = true -> k (d :: s) caps = Some x ->
      matchAt separator (list_ascii_of_string sep ++ d :: s) caps k = Some x) ->
  notDigitHead (list_ascii_of_string sep ++ b ++ years) ->
  searchL experienceRange (a ++ list_ascii_of_string sep ++ b ++ years)
  = Some [string_of_list_ascii a; string_of_list_ascii b].
Proof.
  intros Hsep Hhead. rewrite experienceRange_parts, searchL_unfold.
  rewrite (digits_then_some rangeTail a _ [] _
             [string_of_list_ascii a; string_of_list_ascii b]); try done.
  rewrite rangeTail_parts.
  destruct b_head as (d & b' & Hb & Hd).
  rewrite Hb. cbn [app]. apply Hsep; [done|].
  rewrite <- Hb. change (d :: b' ++ years) with ((d :: b') ++ years).
  rewrite <- Hb. apply number_unit.
Qed.

End Numbers.

Lemma numeral_list n :
  isNumeral n = true ->
  forallb Js.isDigit (list_ascii_of_string n) = true
  /\ list_ascii_of_string n <> [].
Proof. unfold isNumeral. by destruct (list_ascii_of_string n). Qed.

Lemma truthy_append a b : a <> "" -> Js.truthy (a +:+ b) = true.
Proof. destruct a; [done|]. done. Qed.

(** X19.  The range pattern wants something between the first number and
    the hyphen or "to".  For all numerals [a] and [b]: the text
    [a-b years] is read as ["b+ years"], the lower bound being lost, while
    [a - b years] and [a to b years] are read as ["a-b years"]. *)
Theorem range_needs_a_separator :
  forall a b,
    isNumeral a = true -> isNumeral b = true ->
    extractExperience (Str (a +:+ "-" +:+ b +:+ " years"))
    = Ret (b +:+ "+ years")
    /\ extractExperience (Str (a +:+ " - " +:+ b +:+ " years"))
       = Ret (a +:+ "-" +:+ b +:+ " years")
    /\ extractExperience (Str (a +:+ " to " +:+ b +:+ " years"))
       = Ret (a +:+ "-" +:+ b +:+ " years").
Proof.
  intros a b [Ha Hane]%numeral_list [Hb Hbne]%numeral_list.
  assert (a <> "") as Hatext by (by destruct a).
  assert (forall sep, list_ascii_of_string (a +:+ sep +:+ b +:+ " years")
                      = list_ascii_of_string a ++ list_ascii_of_string sep
                        ++ list_ascii_of_string b ++ years) as Hl.
  { intros sep. by rewrite !list_ascii_app. }
  unfold extractExperience.
  cbn [truthy]. rewrite !(truthy_append a) by done. cbn [negb].
  unfold search. rewrite !Hl.
  split; [|split].
  - change (list_ascii_of_string "-" ++ list_ascii_of_string b ++ years)
      with ("-"%char :: list_ascii_of_string b ++ years).
    rewrite hyphen_only_range, hyphen_only_single by done.
    by rewrite string_of_list_ascii_of_string.
  - rewrite (separated_range _ _ Ha Hb Hane Hbne " - ");
      [by rewrite !string_of_list_ascii_of_string| |done].
    intros A d s caps k x. apply separator_hyphen.
  - rewrite (separated_range _ _ Ha Hb Hane Hbne " to ");
      [by rewrite !string_of_list_ascii_of_string| |done].
    intros A d s caps k x. apply separator_to.
Qed.

End ExperienceEdgeFacts.

Module ExperienceEdgeExamples.
Import Json JsonLd.

Lemma range_needs_a_separator_witness :
  Text.isNumeral "5" = true /\ Text.isNumeral "7" = true
  /\ extractExperience (Str "5-7 years") = Ret "7+ years"
  /\ extractExperience (Str "5 to 7 years") = Ret "5-7 years".
Proof.
  assert (Text.isNumeral "5" = true) as Ha by reflexivity.
  assert (Text.isNumeral "7" = true) as Hb by reflexivity.
  split; [exact Ha|]. split; [exact Hb|].
  destruct (ExperienceEdgeFacts.range_needs_a_separator "5" "7" Ha Hb)
    as (H1 & _ & H3).
  split; [exact H1 | exact H3].
Defined.

End ExperienceEdgeExamples.

(** ** Location and salary *)

Module NormalizeFacts.
Import Json JsonLd Normalize JsonLdFacts StringFacts.

Lemma pushText_good t locations :
  Forall goodPiece locations -> Js.trim t = t ->
  Forall goodPiece (pushText t locations).
Proof.
  intros Hl Ht. unfold pushText. destruct (Js.truthy t) eqn:Htr; [|done].
  apply Forall_app. split; [done|]. constructor; [|done].
  split; [|done]. intros ->. done.
Qed.

Ltac step_binds :=
  repeat match goal with
         | |- context [bind ?m _] =>
             let E := fresh "E" in destruct m eqn:E; cbn [bind]; [|done]
         end.

Lemma addLocation_good locations loc r :
  Forall goodPiece locations ->
  addLocation locations loc = Ret r -> Forall goodPiece r.
Proof.
  intros Hl. unfold addLocation.
  destruct (negb (truthy (Some loc))); [by intros [= <-]|].
  destruct loc as [|b|n|s|items|fields];
    try (intros [= <-]; apply pushText_good; [done|apply trim_idem]);
    cbn [get bind]; step_binds;
    intros [= <-]; apply pushText_good; (done || apply trim_idem).
Qed.

Lemma forEachLocation_good items : forall locations r,
  Forall goodPiece locations ->
  forEachLocation locations items = Ret r -> Forall goodPiece r.
Proof.
  induction items as [|loc rest IH]; intros locations r Hl; cbn [forEachLocation].
  - by intros [= <-].
  - destruct (addLocation locations loc) as [l|] eqn:Ha; cbn [bind]; [|done].
    apply IH. by eapply addLocation_good.
Qed.

Lemma distinctFrom_spec l : forall seen,
  NoDup (distinctFrom seen l)
  /\ (forall x, x ∈ distinctFrom seen l <-> x ∈ l /\ x ∉ seen).
Proof.
  induction l as [|y rest IH]; intros seen; cbn [distinctFrom].
  - split; [constructor|]. intros x. split; [by intros ?%elem_of_nil|].
    by intros [?%elem_of_nil _].
  - case_bool_decide as Hy.
    + destruct (IH seen) as [Hnd Hin]. split; [done|]. intros x.
      rewrite Hin, elem_of_cons. split; [tauto|].
      intros [[->|Hx] Hs]; [done|tauto].
    + destruct (IH (y :: seen)) as [Hnd Hin]. split.
      * constructor; [|done]. rewrite Hin, elem_of_cons. tauto.
      * intros x. rewrite !elem_of_cons, Hin, elem_of_cons.
        split.
        -- intros [->|[Hx Hs]]; [tauto|]. split; [tauto|]. tauto.
        -- intros [[->|Hx] Hs]; [tauto|].
           destruct (decide (x = y)) as [->|Hne]; [tauto|]. right. tauto.
Qed.

Lemma distinct_good l :
  Forall goodPiece l -> NoDup (distinct l) /\ Forall goodPiece (distinct l).
Proof.
  intros Hl. destruct (distinctFrom_spec l []) as [Hnd Hin].
  split; [done|]. apply Forall_forall. intros x Hx.
  apply Hin in Hx as [Hx _]. by eapply Forall_forall in Hl.
Qed.

(** A list without repetition is left as it is. *)
Lemma distinctFrom_NoDup l : forall seen,
  NoDup l -> (forall x, x ∈ l -> x ∉ seen) -> distinctFrom seen l = l.
Proof.
  induction l as [|y rest IH]; intros seen Hnd Hs; [done|].
  cbn [distinctFrom]. apply NoDup_cons in Hnd as [Hy Hnd].
  rewrite bool_decide_eq_false_2 by (apply Hs; left).
  f_equal. apply IH; [done|]. intros x Hx.
  rewrite elem_of_cons. intros [->|Hxs]; [done|].
  by apply (Hs x); [right|].
Qed.

Lemma truthy_not_null v : truthy (Some v) = true -> isNull v = false.
Proof. by destruct v. Qed.

Lemma pushIf_plain a :
  (forall x, a = Some x -> plain x = true) -> forallb plain (pushIf a) = true.
Proof.
  intros Ha. unfold pushIf. destruct a as [x|]; [|done].
  destruct (truthy (Some x)); [|done]. cbn [forallb]. by rewrite (Ha x).
Qed.

Lemma filterTruthy_plain items :
  forallb plain items = true -> forallb plain (filterTruthy items) = true.
Proof.
  intros Hp. apply filterBoolean_plain. apply Forall_fmap, Forall_forall.
  intros x Hx y [= ->]. cbn.
  rewrite forallb_forall in Hp. apply Hp. by apply list_elem_of_In.
Qed.

Lemma forallb_plain_app a b :
  forallb plain a = true -> forallb plain b = true ->
  forallb plain (a ++ b) = true.
Proof. intros Ha Hb. by rewrite forallb_app, Ha, Hb. Qed.

Lemma addLocation_returns locations loc :
  plain loc = true -> exists r, addLocation locations loc = Ret r.
Proof.
  intros Hp. unfold addLocation.
  destruct (truthy (Some loc)) eqn:Ht; cbn [negb]; [|eauto].
  assert (Hnn : isNull loc = false) by by apply truthy_not_null.
  assert (exists r, 
    (do a <- get loc "address" ;
     let address := orElse a loc in
     do locality <- get address "addressLocality" ;
     do region <- get address "addressRegion" ;
     do country <- get address "addressCountry" ;
     do first <-
       match locality with
       | Some (Arr items) =>
           do s <- join ", " (filterTruthy items) ; Ret [Str s]
       | _ => Ret (pushIf locality)
       end ;
     let parts := first ++ pushIf region ++ pushIf country in
     do s <- join ", " (filterTruthy parts) ;
     Ret (pushText (Js.trim s) locations)) = Ret r) as Hgen.
  { destruct (get_not_null loc "address" Hnn) as (a & -> & Ha). cbn [bind].
    cbv zeta.
    assert (Hap : plain (orElse a loc) = true) by (apply orElse_plain; auto).
    assert (Han : isNull (orElse a loc) = false) by by apply orElse_not_null.
    destruct (get_not_null (orElse a loc) "addressLocality" Han) as (l & -> & Hl).
    destruct (get_not_null (orElse a loc) "addressRegion" Han) as (rg & -> & Hr).
    destruct (get_not_null (orElse a loc) "addressCountry" Han) as (c & -> & Hc).
    cbn [bind].
    assert (exists first,
      match l with
      | Some (Arr items) =>
          do s <- join ", " (filterTruthy items) ; Ret [Str s]
      | _ => Ret (pushIf l)
      end = Ret first /\ forallb plain first = true) as (first & -> & Hf).
    { destruct l as [[| | | |items|]|];
        try (eexists; split; [reflexivity|apply pushIf_plain; auto]).
      destruct (plain_join ", " (filterTruthy items)) as [s ->].
      - apply filterTruthy_plain. by apply (Hl Hap (Arr items)).
      - cbn [bind]. by eexists. }
    cbn [bind].
    destruct (plain_join ", " (filterTruthy (first ++ pushIf rg ++ pushIf c)))
      as [s ->]; [|cbn [bind]; eauto].
    apply filterTruthy_plain.
    repeat apply forallb_plain_app; [done|apply pushIf_plain; auto..]. }
  destruct loc; eauto.
Qed.

Lemma forEachLocation_returns items : forall locations,
  forallb plain items = true -> exists r, forEachLocation locations items = Ret r.
Proof.
  induction items as [|loc rest IH]; intros locations; cbn [forEachLocation forallb];
    [eauto|].
  intros [Hl Hrest]%andb_true_iff.
  destruct (addLocation_returns locations loc Hl) as [l ->]. cbn [bind]. by apply IH.
Qed.

Lemma forEachLocation_names names : forall locations,
  forEachLocation locations (map Str names)
  = Ret (locations ++ trimmedNames names).
Proof.
  induction names as [|s rest IH]; intros locations; cbn [map forEachLocation].
  - by rewrite app_nil_r.
  - unfold addLocation, trimmedNames. cbn [truthy map List.filter].
    destruct (Js.truthy s) eqn:Hs; cbn [negb bind].
    + rewrite IH. unfold pushText, trimmedNames.
      destruct (Js.truthy (Js.trim s)); [by rewrite <- app_assoc|done].
    + rewrite IH. unfold trimmedNames.
      assert (s = "") as -> by (by apply JsFacts.truthy_false).
      done.
Qed.

(** X20.  The location text of a posting is made of pieces joined by
    [" | "]: the pieces are pairwise distinct, none is empty and none has
    white space at either end.  On data without an own [toString] property
    the function returns; and a list of place names gives the trimmed,
    non-empty names, each once, in the order of their first occurrence. *)
Theorem location_pieces_are_distinct_and_trimmed :
  (forall jobLocation r,
      normalizeLocationFromJsonLd jobLocation = Ret r ->
      exists pieces,
        r = String.concat " | " pieces
        /\ NoDup pieces /\ Forall goodPiece pieces)
  /\ (forall jobLocation,
        (forall v, jobLocation = Some v -> plain v = true) ->
        exists r, normalizeLocationFromJsonLd jobLocation = Ret r)
  /\ (forall names,
        normalizeLocationFromJsonLd (Some (Arr (map Str names)))
        = Ret (String.concat " | " (distinct (trimmedNames names))))
  /\ (forall names,
        NoDup names -> Forall goodPiece names ->
        normalizeLocationFromJsonLd (Some (Arr (map Str names)))
        = Ret (String.concat " | " names)).
Proof.
  assert (Hnames : forall names,
        normalizeLocationFromJsonLd (Some (Arr (map Str names)))
        = Ret (String.concat " | " (distinct (trimmedNames names)))).
  { intros names. unfold normalizeLocationFromJsonLd. cbn [truthy negb].
    by rewrite forEachLocation_names. }
  split; [|split; [|split]].
  - intros jobLocation r. unfold normalizeLocationFromJsonLd.
    destruct (negb (truthy jobLocation)).
    { intros [= <-]. exists []. split; [done|]. split; constructor. }
    destruct jobLocation as [loc|].
    2:{ intros [= <-]. exists []. split; [done|]. split; constructor. }
    assert (Hone :
      (do locations <- addLocation [] loc ;
       Ret (String.concat " | " (distinct locations))) = Ret r ->
      exists pieces,
        r = String.concat " | " pieces /\ NoDup pieces /\ Forall goodPiece pieces).
    { destruct (addLocation [] loc) as [l|] eqn:Ha; cbn [bind]; [|done].
      intros [= <-]. exists (distinct l). split; [done|].
      apply distinct_good. by eapply addLocation_good. }
    destruct loc as [|b|n|s|items|fields]; try exact Hone.
    destruct (forEachLocation [] items) as [l|] eqn:Hf; cbn [bind]; [|done].
    intros [= <-]. exists (distinct l). split; [done|].
    apply distinct_good. by eapply forEachLocation_good.
  - intros jobLocation Hp. unfold normalizeLocationFromJsonLd.
    destruct (negb (truthy jobLocation)); [eauto|].
    destruct jobLocation as [loc|]; [|eauto].
    specialize (Hp loc eq_refl).
    assert (Hone : exists r,
      (do locations <- addLocation [] loc ;
       Ret (String.concat " | " (distinct locations))) = Ret r).
    { destruct (addLocation_returns [] loc Hp) as [l ->]. cbn [bind]. eauto. }
    destruct loc as [|b|n|s|items|fields]; try exact Hone.
    destruct (forEachLocation_returns items [] Hp) as [l ->]. cbn [bind]. eauto.
  - exact Hnames.
  - intros names Hnd Hgood. rewrite Hnames. do 2 f_equal.
    assert (trimmedNames names = names) as ->.
    { unfold trimmedNames. clear Hnd.
      induction Hgood as [|s rest [Hne Htrim] _ IH]; [done|].
      cbn [map List.filter]. rewrite Htrim.
      assert (Js.truthy s = true) as -> by (by apply JsFacts.truthy_true).
      by rewrite IH. }
    apply distinctFrom_NoDup; [done|]. intros x _. apply not_elem_of_nil.
Qed.

End NormalizeFacts.

Module SalaryFacts.
Import Json JsonLd Normalize JsonLdFacts StringFacts NormalizeFacts.

Lemma append_empty s : s +:+ "" = s.
Proof.
  induction s as [|c s IH]; [done|].
  change (String c (s +:+ "") = String c s). by rewrite IH.
Qed.

Lemma orDefault_plain a b :
  (forall x, a = Some x -> plain x = true) -> plain b = true ->
  plain (orDefault a b) = true.
Proof.
  intros Ha Hb. unfold orDefault. destruct a as [v|]; [|done].
  destruct (nullish (Some v)); [done|by apply Ha].
Qed.

Lemma rangeText_eq min max :
  rangeText min max
  = (do a <- toString min ;
     if truthy (Some max)
     then do b <- toString max ; Ret (a +:+ "-" +:+ b)
     else Ret a).
Proof.
  unfold rangeText.
  destruct (truthy (Some max)) eqn:Hmax.
  - destruct (truthy (Some min)); cbn [andb]; [done|].
    destruct (toString min); cbn [bind]; [|done].
    by destruct (toString max).
  - rewrite andb_false_r. destruct (toString min); cbv beta iota delta [bind]; [|done].
    by rewrite append_empty.
Qed.

Lemma rangeText_returns min max :
  plain min = true -> plain max = true -> exists s, rangeText min max = Ret s.
Proof.
  intros Hmin Hmax. rewrite rangeText_eq.
  destruct (plain_toString min Hmin) as [a ->].
  destruct (plain_toString max Hmax) as [b ->]. cbn [bind].
  destruct (truthy (Some max)); eauto.
Qed.

(** X21.  The salary text of a posting never has white space at either
    end, whatever the shape of [baseSalary]; on data without an own
    [toString] property the function returns; and the two branches of its
    range expression agree: the text of the range is the minimum, followed
    by a hyphen and the maximum when the maximum is truthy. *)
Theorem salary_text_is_trimmed :
  (forall baseSalary r,
      normalizeSalaryFromJsonLd baseSalary = Ret r -> Js.trim r = r)
  /\ (forall baseSalary,
        (forall v, baseSalary = Some v -> plain v = true) ->
        exists r, normalizeSalaryFromJsonLd baseSalary = Ret r)
  /\ (forall min max,
        rangeText min max
        = (do a <- toString min ;
           if truthy (Some max)
           then do b <- toString max ; Ret (a +:+ "-" +:+ b)
           else Ret a)).
Proof.
  split; [|split; [|exact rangeText_eq]].
  - intros baseSalary r. unfold normalizeSalaryFromJsonLd.
    destruct (negb (truthy baseSalary)); [by intros [= <-]|].
    assert (Hgen : forall b,
      (do value <- get b "value" ;
       match value with
       | Some (Str s) => Ret (Js.trim s)
       | Some v =>
           if truthy value && isObject v then
             do minValue <- get v "minValue" ;
             do inner <- get v "value" ;
             let min := orDefault minValue (orDefault inner (Str "")) in
             do maxValue <- get v "maxValue" ;
             let max := orDefault maxValue (Str "") in
             do c <- get b "currency" ;
             let currency := orDefault c (Str "") in
             do unitText <- get v "unitText" ;
             let unit := orDefault unitText (Str "") in
             do range <- rangeText min max ;
             do s <- join " " (filterTruthy [Str range; currency; unit]) ;
             Ret (Js.trim s)
           else Ret ""
       | None => Ret ""
       end) = Ret r -> Js.trim r = r).
    { intros b. destruct (get b "value") as [value|]; cbn [bind]; [|done].
      destruct value as [v|]; [|by intros [= <-]].
      assert (Hobj :
        (if truthy (Some v) && isObject v then
           do minValue <- get v "minValue" ;
           do inner <- get v "value" ;
           let min := orDefault minValue (orDefault inner (Str "")) in
           do maxValue <- get v "maxValue" ;
           let max := orDefault maxValue (Str "") in
           do c <- get b "currency" ;
           let currency := orDefault c (Str "") in
           do unitText <- get v "unitText" ;
           let unit := orDefault unitText (Str "") in
           do range <- rangeText min max ;
           do s <- join " " (filterTruthy [Str range; currency; unit]) ;
           Ret (Js.trim s)
         else Ret "") = Ret r -> Js.trim r = r).
      { destruct (truthy (Some v) && isObject v); [|by intros [= <-]].
        destruct (get v "minValue"); cbn [bind]; [|done].
        destruct (get v "value"); cbn [bind]; [|done].
        destruct (get v "maxValue"); cbn [bind]; [|done].
        destruct (get b "currency"); cbn [bind]; [|done].
        destruct (get v "unitText"); cbn [bind]; [|done].
        cbv zeta.
        destruct (rangeText _ _); cbn [bind]; [|done].
        destruct (join _ _); cbn [bind]; [|done].
        intros [= <-]. apply trim_idem. }
      destruct v; try exact Hobj. intros [= <-]. apply trim_idem. }
    destruct (orElse baseSalary Null) as [|b|n|s|items|fields] eqn:Hb;
      try (rewrite <- Hb; exact (Hgen _)).
    intros [= <-]. apply trim_idem.
  - intros baseSalary Hp. unfold normalizeSalaryFromJsonLd.
    destruct (truthy baseSalary) eqn:Ht; cbn [negb]; [|eauto].
    destruct baseSalary as [b|]; [|done]. specialize (Hp b eq_refl).
    assert (orElse (Some b) Null = b) as -> by (unfold orElse; by rewrite Ht).
    assert (Hnn : isNull b = false) by by apply truthy_not_null.
    assert (Hgen : exists r,
      (do value <- get b "value" ;
       match value with
       | Some (Str s) => Ret (Js.trim s)
       | Some v =>
           if truthy value && isObject v then
             do minValue <- get v "minValue" ;
             do inner <- get v "value" ;
             let min := orDefault minValue (orDefault inner (Str "")) in
             do maxValue <- get v "maxValue" ;
             let max := orDefault maxValue (Str "") in
             do c <- get b "currency" ;
             let currency := orDefault c (Str "") in
             do unitText <- get v "unitText" ;
             let unit := orDefault unitText (Str "") in
             do range <- rangeText min max ;
             do s <- join " " (filterTruthy [Str range; currency; unit]) ;
             Ret (Js.trim s)
           else Ret ""
       | None => Ret ""
       end) = Ret r).
    { destruct (get_not_null b "value" Hnn) as (value & -> & Hv). cbn [bind].
      destruct value as [v|]; [|eauto].
      specialize (Hv Hp v eq_refl).
      assert (Hobj : exists r,
        (if truthy (Some v) && isObject v then
           do minValue <- get v "minValue" ;
           do inner <- get v "value" ;
           let min := orDefault minValue (orDefault inner (Str "")) in
           do maxValue <- get v "maxValue" ;
           let max := orDefault maxValue (Str "") in
           do c <- get b "currency" ;
           let currency := orDefault c (Str "") in
           do unitText <- get v "unitText" ;
           let unit := orDefault unitText (Str "") in
           do range <- rangeText min max ;
           do s <- join " " (filterTruthy [Str range; currency; unit]) ;
           Ret (Js.trim s)
         else Ret "") = Ret r).
      { destruct (truthy (Some v) && isObject v) eqn:Hto; [|eauto].
        apply andb_true_iff in Hto as [Htv _].
        assert (Hvn : isNull v = false) by by apply truthy_not_null.
        destruct (get_not_null v "minValue" Hvn) as (mn & -> & Hmn).
        destruct (get_not_null v "value" Hvn) as (inn & -> & Hinn).
        destruct (get_not_null v "maxValue" Hvn) as (mx & -> & Hmx).
        destruct (get_not_null b "currency" Hnn) as (c & -> & Hc).
        destruct (get_not_null v "unitText" Hvn) as (u & -> & Hu).
        cbn [bind]. cbv zeta.
        destruct (rangeText_returns
                    (orDefault mn (orDefault inn (Str ""))) (orDefault mx (Str "")))
          as [range ->].
        { repeat apply orDefault_plain; auto. }
        { apply orDefault_plain; auto. }
        cbn [bind].
        destruct (plain_join " "
                    (filterTruthy [Str range; orDefault c (Str ""); orDefault u (Str "")]))
          as [s ->]; [|cbn [bind]; eauto].
        apply filterTruthy_plain. cbn [forallb plain].
        rewrite !orDefault_plain; auto. }
      destruct v; eauto. }
    destruct b; eauto.
Qed.

Lemma append_cons_nonempty a c b : a +:+ String c b <> "".
Proof. by destruct a. Qed.

Lemma pretty_N_nonempty (n : N) : pretty n <> "".
Proof.
  unfold pretty, pretty_N. destruct (decide (n = 0%N)) as [->|Hn]; [done|].
  destruct (NextPageFacts.pretty_N_go_digits n "") as (ds & Hl & _ & _ & Hne).
  intros H. rewrite H in Hl. cbn in Hl. rewrite app_nil_r in Hl.
  apply Hne; [lia|done].
Qed.

Lemma layout_nonempty ds n : ds <> "" -> Number.layout ds n <> "".
Proof.
  intros Hds. unfold Number.layout.
  repeat case_match; try apply append_cons_nonempty.
  - by destruct ds.
  - done.
Qed.

(** A number is never printed as the empty text. *)
Lemma toString_nonempty x : Number.toString x <> "".
Proof.
  unfold Number.toString. destruct (FloatOps.Prim2SF x) as [s|s| |s m e]; try done.
  - by destruct s.
  - destruct (Number.shortest (Z.pos m) e) as [ds n] eqn:E.
    assert (ds <> "") as Hds.
    { unfold Number.shortest in E.
      destruct (Number.shortestFrom _ _ _ _ _) as [d k].
      destruct (d =? 10 ^ k); injection E as <- _; apply pretty_N_nonempty. }
    pose proof (layout_nonempty ds n Hds) as Hl.
    destruct s; [done|]. exact Hl.
Qed.

(** X22.  A salary given as numbers: with a number [lo] as minimum, a
    currency and a unit, a maximum [hi] that is a truthy number (neither
    zero nor [NaN]) gives ["lo-hi currency unit"], while an absent maximum,
    or a maximum of 0, gives ["lo currency unit"]; [lo] and [hi] are
    printed as the language prints numbers. *)
Theorem salary_of_a_numeric_range :
  forall fields vf lo cur unit,
    lookup "value" fields = Some (Obj vf) ->
    lookup "minValue" vf = Some (Num lo) ->
    lookup "currency" fields = Some (Str cur) -> cur <> "" ->
    lookup "unitText" vf = Some (Str unit) -> unit <> "" ->
    (forall hi,
        lookup "maxValue" vf = Some (Num hi) -> Number.truthy hi = true ->
        normalizeSalaryFromJsonLd (Some (Obj fields))
        = Ret (Js.trim (Number.toString lo +:+ "-" +:+ Number.toString hi
                        +:+ " " +:+ cur +:+ " " +:+ unit)))
    /\ (lookup "maxValue" vf = None
        \/ (exists hi, lookup "maxValue" vf = Some (Num hi)
                       /\ Number.truthy hi = false) ->
        normalizeSalaryFromJsonLd (Some (Obj fields))
        = Ret (Js.trim (Number.toString lo +:+ " " +:+ cur +:+ " " +:+ unit))).
Proof.
  intros fields vf lo cur unit Hv Hmin Hcur Hcne Hunit Hune.
  assert (Hct : Js.truthy cur = true) by by apply JsFacts.truthy_true.
  assert (Hut : Js.truthy unit = true) by by apply JsFacts.truthy_true.
  pose proof (toString_nonempty lo) as Hlo.
  split.
  - intros hi Hmax Hhi.
    unfold normalizeSalaryFromJsonLd. cbn [truthy negb orElse get bind].
    rewrite Hv. cbn [truthy isObject andb get bind].
    rewrite Hmin, Hmax, Hcur, Hunit. cbn [bind orDefault nullish].
    rewrite rangeText_eq. cbn [toString bind truthy].
    rewrite Hhi.
    cbn [bind]. unfold filterTruthy, filterBoolean. cbn [map omap list_omap truthy].
    rewrite (ExperienceEdgeFacts.truthy_append _ _ Hlo), Hct, Hut.
    cbn [join toString bind]. by rewrite !append_assoc.
  - intros Hmax.
    unfold normalizeSalaryFromJsonLd. cbn [truthy negb orElse get bind].
    rewrite Hv. cbn [truthy isObject andb get bind].
    rewrite Hmin, Hcur, Hunit.
    assert (truthy (Some (orDefault (lookup "maxValue" vf) (Str ""))) = false)
      as Hfalse.
    { destruct Hmax as [-> | (hi & -> & Hhi)]; [done|]. exact Hhi. }
    cbn [bind orDefault nullish]. rewrite rangeText_eq. cbn [toString bind].
    rewrite Hfalse. cbn [bind].
    unfold filterTruthy, filterBoolean. cbn [map omap list_omap truthy].
    rewrite (proj2 (JsFacts.truthy_true _) Hlo), Hct, Hut.
    cbn [join toString bind]. done.
Qed.

End SalaryFacts.

Module SalaryExamples.
Import Json Normalize SalaryFacts Fixtures.

Lemma salary_of_a_numeric_range_witness :
  normalizeSalaryFromJsonLd (Some monthlyPay) = Ret "40000-60000 INR MONTH".
Proof.
  assert (Number.truthy (Number.ofZ 60000) = true) as Hhi
    by (vm_compute; reflexivity).
  etrans.
  { apply (proj1 (salary_of_a_numeric_range
                    [("@type", Str "MonetaryAmount"); ("currency", Str "INR");
                     ("value", Obj payRange)]
                    payRange (Number.ofZ 40000) "INR" "MONTH"
                    eq_refl eq_refl eq_refl ltac:(discriminate)
                    eq_refl ltac:(discriminate))
                 (Number.ofZ 60000) eq_refl Hhi). }
  vm_compute. reflexivity.
Defined.

End SalaryExamples.

(** ** The raw fallback *)

Module RawFacts.
Import CleanSection.

Lemma rawAccepts_step probe selector rest :
  extractRawDescription probe (selector :: rest)
  = if rawAccepts probe selector
    then Some {| descHtml := Js.trim (default "" (probeHtml (probe selector)));
                 descText := Js.trim (probeText (probe selector)) |}
    else extractRawDescription probe rest.
Proof.
  cbn [extractRawDescription]. unfold rawAccepts.
  destruct (found (probe selector)); cbn [negb andb]; [|done].
  destruct (probeHtml (probe selector)) as [h|]; cbn [default].
  - reflexivity.
  - by rewrite !andb_false_r.
Qed.

(** X23.  The raw fallback takes the first selector, in the order given,
    whose element has at least 100 characters of trimmed text and markup
    that is not blank; it returns that text and that markup trimmed, as
    they are in the page (the markup is not sanitised).  It returns nothing
    exactly when no selector has such an element. *)
Theorem raw_description_is_first_match :
  forall probe selectors,
    match extractRawDescription probe selectors with
    | Some d =>
        exists before selector after,
          selectors = before ++ selector :: after
          /\ forallb (fun s => negb (rawAccepts probe s)) before = true
          /\ rawAccepts probe selector = true
          /\ descText d = Js.trim (probeText (probe selector))
          /\ descHtml d = Js.trim (default "" (probeHtml (probe selector)))
          /\ 100 <= strlen (descText d)
          /\ descHtml d <> ""
    | None => forallb (fun s => negb (rawAccepts probe s)) selectors = true
    end.
Proof.
  intros probe selectors. induction selectors as [|selector rest IH]; [done|].
  rewrite rawAccepts_step. destruct (rawAccepts probe selector) eqn:Hacc.
  - exists [], selector, rest. cbn [app forallb descText descHtml].
    unfold rawAccepts in Hacc. cbv zeta in Hacc.
    apply andb_true_iff in Hacc as [[[Hf Ht]%andb_true_iff Hlen]%andb_true_iff Hh].
    repeat split; try done.
    + unfold rawAccepts. cbv zeta. by rewrite Hf, Ht, Hlen, Hh.
    + by apply Z.leb_le.
    + by apply JsFacts.truthy_true.
  - destruct (extractRawDescription probe rest) as [d|].
    + destruct IH as (before & s & after & -> & Hb & Hs & Hrest).
      exists (selector :: before), s, after. cbn [app forallb].
      rewrite Hacc. cbn [negb andb]. done.
    + cbn [forallb]. by rewrite Hacc.
Qed.

End RawFacts.
